(** * Victoria Logs UI: query model, transport adapter and aggregation engine

  A shallow embedding of the client-side pipeline of the dashboard
  (QueryBuilder.tsx, utils/index.ts, services/api.ts and the chart
  components) together with the properties its specification states.

  Conventions of the embedding.
  - A JavaScript string is a [string]: a sequence of code units, here the
    code units below 256.
  - A JavaScript number that the code only ever uses as an integer (epoch
    milliseconds, counts, bucket keys) is a [Z]; a number obtained by
    division is a [Q].  Arithmetic is exact: the rounding of IEEE doubles is
    not part of the model.
  - A [Map] is an association list in insertion order ([JsMap]); so is a
    plain object used as a dictionary, over its own keys.
  - [Date.now()], [Math.random()] and [JSON.parse] are inputs of the
    functions that call them. *)

From Stdlib Require Import ZArith QArith Qround Qabs List String Ascii Bool Arith Lia.
From Stdlib Require Import DecimalString Permutation Sorted.
From Stdlib Require DecimalPos DecimalFacts.
Import ListNotations.

Local Open Scope Z_scope.

(* ------------------------------------------------------------------ *)
(** * JavaScript strings *)

Module JsString.

Local Open Scope string_scope.

(** The double quote character, as a one-character string. *)
Definition dquote_char : ascii := "034"%char.
Definition dquote : string := String dquote_char EmptyString.

Definition chars (s : string) : list ascii := list_ascii_of_string s.

(** Truthiness of a string: every string but the empty one. *)
Definition truthy (s : string) : bool :=
  match s with EmptyString => false | String _ _ => true end.

(** [s.includes(sub)] *)
Fixpoint includes (s sub : string) : bool :=
  if prefix sub s then true
  else match s with
       | EmptyString => false
       | String _ s' => includes s' sub
       end.

(** White space and line terminators of ECMAScript among the code units
    below 256: TAB, LF, VT, FF, CR, SPACE and NBSP. *)
Definition is_whitespace (c : ascii) : bool :=
  let n := nat_of_ascii c in
  ((9 <=? n) && (n <=? 13) || (n =? 32) || (n =? 160))%nat.

Fixpoint trimStart (s : string) : string :=
  match s with
  | EmptyString => EmptyString
  | String c s' => if is_whitespace c then trimStart s' else s
  end.

(** [trimEnd]: a character is kept when it is not white space or when
    something is kept after it. *)
Fixpoint trimEnd (s : string) : string :=
  match s with
  | EmptyString => EmptyString
  | String c s' =>
      match trimEnd s' with
      | EmptyString => if is_whitespace c then EmptyString else String c EmptyString
      | t => String c t
      end
  end.

(** [s.trim()] *)
Definition trim (s : string) : string := trimEnd (trimStart s).

(** [(s.match(/c/g) || []).length] for a one-character pattern. *)
Fixpoint count_matches (c : ascii) (s : string) : nat :=
  match s with
  | EmptyString => O
  | String d s' => if Ascii.eqb d c then S (count_matches c s') else count_matches c s'
  end.

(** [s.split(sep)] for a one-character separator: the pieces between the
    separators, so always at least one piece. *)
Fixpoint split (sep : ascii) (s : string) : list string :=
  match s with
  | EmptyString => [EmptyString]
  | String c s' =>
      if Ascii.eqb c sep then EmptyString :: split sep s'
      else match split sep s' with
           | [] => [String c EmptyString]
           | piece :: rest => String c piece :: rest
           end
  end.

(** [pieces.join(sep)] *)
Fixpoint join (sep : string) (pieces : list string) : string :=
  match pieces with
  | [] => EmptyString
  | [p] => p
  | p :: rest => p ++ sep ++ join sep rest
  end.

(** [s.toUpperCase()] on the ASCII letters.  Among the code units below 256
    no other one has an upper-case form that contains one of the letters of
    ERROR, FATAL, CRITICAL or WARN, which is all the callers observe. *)
Definition upper_char (c : ascii) : ascii :=
  let n := nat_of_ascii c in
  if ((97 <=? n) && (n <=? 122))%nat then ascii_of_nat (n - 32) else c.

Fixpoint toUpperCase (s : string) : string :=
  match s with
  | EmptyString => EmptyString
  | String c s' => String (upper_char c) (toUpperCase s')
  end.

End JsString.

(* ------------------------------------------------------------------ *)
(** * Query model: QueryBuilder.tsx *)

Module QueryBuilder.

Import JsString.
Local Open Scope string_scope.

Record Filter := mkFilter {
  id : string;
  field : string;
  operator : string;
  value : string
}.

Record Operator := mkOperator { op_value : string; op_label : string }.

Definition OPERATORS : list Operator :=
  [ mkOperator "=" "equals";
    mkOperator "!=" "not equals";
    mkOperator "~" "contains";
    mkOperator "!~" "not contains";
    mkOperator "=~" "regex match";
    mkOperator "!~" "regex not match" ].

(** The token the operator drop-down stores for a label. *)
Fixpoint token_of (ops : list Operator) (label : string) : option string :=
  match ops with
  | [] => None
  | op :: rest => if String.eqb (op_label op) label then Some (op_value op)
                  else token_of rest label
  end.

Definition needsQuotes (v : string) : bool := includes v " " || includes v ":".

Definition renderFilter (f : Filter) : string :=
  let v := if needsQuotes (value f) then dquote ++ value f ++ dquote else value f in
  field f ++ operator f ++ v.

Definition buildQueryFromFilters (filters : list Filter) : string :=
  let validFilters := filter (fun f => truthy (field f) && truthy (value f)) filters in
  if (List.length validFilters =? 0)%nat then "*"
  else
    let filterStrings := map renderFilter validFilters in
    join " AND " filterStrings.

End QueryBuilder.

(* ------------------------------------------------------------------ *)
(** * Query model: utils/index.ts *)

Module Utils.

Import JsString.
Local Open Scope string_scope.

Record Validation := mkValidation { isValid : bool; error : option string }.

Definition validateLogsQLQuery (query : string) : Validation :=
  if negb (truthy (trim query)) then mkValidation false (Some "Query cannot be empty")
  else
    let openParens := count_matches "("%char query in
    let closeParens := count_matches ")"%char query in
    if negb (openParens =? closeParens)%nat then mkValidation false (Some "Mismatched parentheses")
    else
      let openQuotes := count_matches dquote_char query in
      if negb (openQuotes mod 2 =? 0)%nat then mkValidation false (Some "Mismatched quotes")
      else mkValidation true None.

End Utils.

(* ------------------------------------------------------------------ *)
(** * Transport adapter: services/api.ts *)

Module Api.

Local Open Scope string_scope.

(** A value as [JSON.parse] (or the HTTP client, for a body that is valid
    JSON) delivers it.  An object is the list of its own properties, each
    key once. *)
#[warnings="-register-all"]
Inductive json : Type :=
| JNull
| JBool (b : bool)
| JNumber (q : Q)
| JString (s : string)
| JArray (items : list json)
| JObject (fields : list (string * json)).

(** [Boolean(v)] *)
Definition truthy (v : json) : bool :=
  match v with
  | JNull => false
  | JBool b => b
  | JNumber q => negb (Qeq_bool q 0)
  | JString s => JsString.truthy s
  | JArray _ => true
  | JObject _ => true
  end.

(** [obj.key] on an object built from JSON: [None] stands for [undefined]. *)
Fixpoint lookup (key : string) (fields : list (string * json)) : option json :=
  match fields with
  | [] => None
  | (k, v) :: rest => if String.eqb k key then Some v else lookup key rest
  end.

Inductive result (A : Type) : Type :=
| Ok (a : A)
| Thrown (message : string).
Arguments Ok {A} a.
Arguments Thrown {A} message.

(** The response of [queryLogs].  [values] is declared [LogEntry[]] but holds
    whatever the branches below assign; [scannedBytes] (a [JSON.stringify]
    length) is left out and [executionTime] is the constant 0. *)
Record LogsResponse := mkLogsResponse {
  values : json;
  scannedRows : nat;
  executionTime : Z
}.

Definition LF : ascii := "010"%char.

Section QueryLogs.

(** [JSON.parse]; [None] when it throws. *)
Variable JSON_parse : string -> option json.

(** The callback of [lines.map]: the parsed line, [null] when parsing threw. *)
Definition parse_line (line : string) : json :=
  match JSON_parse line with
  | Some v => v
  | None => JNull
  end.

(** The string branch: JSONL, one JSON value per line. *)
Definition parse_jsonl (data : string) : list json :=
  let lines := JsString.split LF (JsString.trim data) in
  filter truthy
    (map parse_line
       (filter (fun line => JsString.truthy (JsString.trim line)) lines)).

(** What [values] holds after the format branches (api.ts lines 62-89),
    for the response body [data]. *)
Definition normalize (data : json) : json :=
  match data with
  | JString s => JArray (parse_jsonl s)
  | JArray _ => data
  | JObject fields =>
      match lookup "values" fields with
      | Some v => if truthy v then v else JArray [data]
      | None => JArray [data]
      end
  | _ => JArray []
  end.

(** [queryLogs] from the response body on.  [values.slice(0, 2)] in the log
    statement throws a TypeError unless [values] is an array or a string,
    and the catch block rethrows it. *)
Definition queryLogs (data : json) : result LogsResponse :=
  let values := normalize data in
  match values with
  | JArray items => Ok (mkLogsResponse values (List.length items) 0)
  | JString s => Ok (mkLogsResponse values (String.length s) 0)
  | _ => Thrown "Failed to query logs: TypeError: values.slice is not a function"
  end.

End QueryLogs.

End Api.

(* ------------------------------------------------------------------ *)
(** * Maps, sorting and numbers of the JavaScript runtime *)

Module JsMap.

Section Map.

Context {K V : Type}.
Variable eqb : K -> K -> bool.

(** [m.get(k)]; [None] stands for [undefined]. *)
Fixpoint get (m : list (K * V)) (k : K) : option V :=
  match m with
  | [] => None
  | (k', v) :: rest => if eqb k' k then Some v else get rest k
  end.

(** [m.set(k, v)]: an existing key keeps its place, a new key goes last. *)
Fixpoint set (m : list (K * V)) (k : K) (v : V) : list (K * V) :=
  match m with
  | [] => [(k, v)]
  | (k', v') :: rest => if eqb k' k then (k', v) :: rest else (k', v') :: set rest k v
  end.

Definition has (m : list (K * V)) (k : K) : bool :=
  match get m k with Some _ => true | None => false end.

Definition keys (m : list (K * V)) : list K := map fst m.
Definition values (m : list (K * V)) : list V := map snd m.

End Map.

(** [(m.get(k) || 0)] *)
Definition or0 (o : option Z) : Z :=
  match o with Some v => v | None => 0 end.

End JsMap.

Module Js.

Local Open Scope string_scope.

(** [String(n)] for an integer below 10^21 in size: its decimal numeral, as
    the default comparison of [sort] uses it. *)
Definition toString (z : Z) : string := NilZero.string_of_int (Z.to_int z).

Fixpoint insert_by {A : Type} (before : A -> A -> bool) (x : A) (l : list A) : list A :=
  match l with
  | [] => [x]
  | y :: rest => if before x y then x :: l else y :: insert_by before x rest
  end.

(** [l.sort(compare)], a stable sort: [before x y] holds when [compare(x, y) <= 0].
    Each element is inserted in front of the already sorted elements that
    followed it, so equal elements keep their order. *)
Fixpoint sort_by {A : Type} (before : A -> A -> bool) (l : list A) : list A :=
  match l with
  | [] => []
  | x :: rest => insert_by before x (sort_by before rest)
  end.

(** [l.sort()] on numbers: without a comparison function the elements are
    compared as strings, by code units. *)
Definition sort_default (l : list Z) : list Z :=
  sort_by (fun x y => String.leb (toString x) (toString y)) l.

(** [l.sort()] on strings. *)
Definition sort_strings (l : list string) : list string :=
  sort_by String.leb l.

(** [l.sort((a, b) => b[1] - a[1])] on the entries of a count map. *)
Definition sort_by_count_desc {K : Type} (l : list (K * Z)) : list (K * Z) :=
  sort_by (fun a b => (snd b <=? snd a)%Z) l.

(** [l.slice(0, n)] *)
Definition slice0 {A : Type} (n : nat) (l : list A) : list A := firstn n l.

(** [l.slice(-n)]: the last [n] elements. *)
Definition slice_last {A : Type} (n : nat) (l : list A) : list A :=
  skipn (List.length l - n) l.

(** [l.slice(-a, -b)] for [b <= a]. *)
Definition slice_neg {A : Type} (a b : nat) (l : list A) : list A :=
  let len := List.length l in
  firstn ((len - b) - (len - a)) (skipn (len - a) l).

(** [l.reduce((a, b) => a + b, 0)] *)
Definition sum (l : list Z) : Z := fold_left Z.add l 0.

(** [Math.min(...l)] and [Math.max(...l)] of a non-empty list. *)
Definition Math_min (x : Z) (l : list Z) : Z := fold_left Z.min l x.
Definition Math_max (x : Z) (l : list Z) : Z := fold_left Z.max l x.

(** [Math.floor(t / width) * width] on integers. *)
Definition floor_to (width t : Z) : Z := (t / width) * width.

(** [Math.round(x)]: the nearest integer, a tie goes up. *)
Definition Math_round (x : Q) : Z := Qfloor (x + (1 # 2)).

(** [Math.round(x * 100) / 100] *)
Definition round2 (x : Q) : Q := inject_Z (Math_round (x * 100)) / 100.

(** [parseFloat(x.toFixed(1))] for [x >= 0]: the nearest tenth, a tie goes up. *)
Definition toFixed1 (x : Q) : Q := inject_Z (Qfloor (x * 10 + (1 # 2))) / 10.

(** [Math.min(a, b)] *)
Definition Qmin (a b : Q) : Q := if Qle_bool a b then a else b.

End Js.

(* ------------------------------------------------------------------ *)
(** * Log records: types/index.ts *)

Module Log.

Local Open Scope string_scope.

(** A log entry.  [_time] is the instant the timestamp string denotes, as
    [new Date(log._time).getTime()] gives it (epoch milliseconds), so the
    records of the model are those whose timestamp parses; the optional
    fields are [None] when absent. *)
Record LogEntry := mkLog {
  _time : Z;
  _msg : string;
  level : option string;
  service : option string;
  host : option string
}.

Inductive GroupBy := ByLevel | ByService | ByHost.

(** [log[groupBy]] *)
Definition field_of (groupBy : GroupBy) (log : LogEntry) : option string :=
  match groupBy with
  | ByLevel => level log
  | ByService => service log
  | ByHost => host log
  end.

(** [field || placeholder]: an absent or empty field gives the placeholder. *)
Definition or_default (field : option string) (placeholder : string) : string :=
  match field with
  | Some s => if JsString.truthy s then s else placeholder
  | None => placeholder
  end.

(** [log.level === name] *)
Definition level_is (name : string) (log : LogEntry) : bool :=
  match level log with
  | Some s => String.eqb s name
  | None => false
  end.

(** [log.level && ['ERROR', 'FATAL', 'CRITICAL'].includes(log.level.toUpperCase())] *)
Definition is_error (log : LogEntry) : bool :=
  match level log with
  | Some s =>
      JsString.truthy s &&
      existsb (String.eqb (JsString.toUpperCase s)) ["ERROR"; "FATAL"; "CRITICAL"]
  | None => false
  end.

End Log.

(* ------------------------------------------------------------------ *)
(** * Aggregation engine: the chart components *)

(** ** Shared by the charts *)

Module Chart.

Import Log.
Local Open Scope string_scope.

(** [getLogLevelColor] of utils/index.ts. *)
Definition getLogLevelColor (level : string) : string :=
  if negb (JsString.truthy level) then "#3b82f6"
  else
    let normalizedLevel := JsString.toUpperCase level in
    if String.eqb normalizedLevel "DEBUG" then "#6b7280"
    else if String.eqb normalizedLevel "INFO" then "#3b82f6"
    else if String.eqb normalizedLevel "WARN" || String.eqb normalizedLevel "WARNING" then "#f59e0b"
    else if String.eqb normalizedLevel "ERROR" then "#ef4444"
    else if String.eqb normalizedLevel "FATAL" || String.eqb normalizedLevel "CRITICAL" then "#dc2626"
    else "#3b82f6".

(** The counting loop of the grouped charts:
    [counts.set(key, (counts.get(key) || 0) + 1)] with
    [key = log[groupBy] || placeholder], over the records in order. *)
Definition count_step (groupBy : GroupBy) (placeholder : string)
    (counts : list (string * Z)) (log : LogEntry) : list (string * Z) :=
  let key := or_default (field_of groupBy log) placeholder in
  JsMap.set String.eqb counts key (JsMap.or0 (JsMap.get String.eqb counts key) + 1).

Definition count_by (groupBy : GroupBy) (placeholder : string) (logs : list LogEntry)
    : list (string * Z) :=
  fold_left (count_step groupBy placeholder) logs [].

(** The loop [for (time = from; time <= to; time += width) body(time)] over a
    state, with the number of iterations it makes as fuel. *)
Fixpoint for_time {S : Type} (fuel : nat) (width time to : Z) (body : Z -> S -> S) (s : S) : S :=
  match fuel with
  | O => s
  | Datatypes.S fuel' =>
      if (time <=? to)%Z then for_time fuel' width (time + width) to body (body time s) else s
  end.

(** How often the loop above runs its body. *)
Definition iterations (width from to : Z) : nat :=
  if (from <=? to)%Z then Z.to_nat ((to - from) / width + 1) else O.

(** A chart's [data]: the x values in seconds and one series per group. *)
Record ChartData := mkChartData {
  xs : list Q;
  series : list (list Z)
}.

Definition to_seconds (t : Z) : Q := inject_Z t / 1000.

End Chart.

(** ** TimelineChart: one-minute histogram *)

Module TimelineChart.

Import Log Chart.

Definition bucketSize : Z := 60 * 1000.

(** "Initialize buckets" *)
Definition init_buckets (minTime maxTime : Z) : list (Z * Z) :=
  for_time (iterations bucketSize minTime maxTime) bucketSize minTime maxTime
    (fun time buckets =>
       let bucketTime := Js.floor_to bucketSize time in
       JsMap.set Z.eqb buckets bucketTime 0)
    [].

(** "Fill buckets" *)
Definition fill_step (buckets : list (Z * Z)) (log : LogEntry) : list (Z * Z) :=
  let logTime := _time log in
  let bucketTime := Js.floor_to bucketSize logTime in
  JsMap.set Z.eqb buckets bucketTime (JsMap.or0 (JsMap.get Z.eqb buckets bucketTime) + 1).

Definition buckets_of (logs : list LogEntry) : list (Z * Z) :=
  match map _time logs with
  | [] => []
  | t :: times =>
      let minTime := Js.Math_min t times in
      let maxTime := Js.Math_max t times in
      fold_left fill_step logs (init_buckets minTime maxTime)
  end.

Definition timestamps (logs : list LogEntry) : list Z :=
  Js.sort_default (JsMap.keys (buckets_of logs)).

Definition counts (logs : list LogEntry) : list Z :=
  map (fun t => JsMap.or0 (JsMap.get Z.eqb (buckets_of logs) t)) (timestamps logs).

(** The [data] of [chartData]. *)
Definition TimelineChart (logs : list LogEntry) : ChartData :=
  match logs with
  | [] => mkChartData [] [[]]
  | _ => mkChartData (map to_seconds (timestamps logs)) [counts logs]
  end.

End TimelineChart.

(** ** StackedAreaChart: ten-minute stacked series *)

Module StackedAreaChart.

Import Log Chart.

Definition bucketSize : Z := 10 * 60 * 1000.

(** "Initialize buckets": an empty inner map per step from the first
    record's time on. *)
Definition init_buckets (startTime endTime : Z) : list (Z * list (string * Z)) :=
  for_time (iterations bucketSize startTime endTime) bucketSize startTime endTime
    (fun time buckets => JsMap.set Z.eqb buckets time [])
    [].

(** "Fill buckets" *)
Definition fill_step (groupBy : GroupBy) (buckets : list (Z * list (string * Z)))
    (log : LogEntry) : list (Z * list (string * Z)) :=
  let logTime := _time log in
  let bucketTime := Js.floor_to bucketSize logTime in
  let buckets := if negb (JsMap.has Z.eqb buckets bucketTime)
                 then JsMap.set Z.eqb buckets bucketTime []
                 else buckets in
  let bucket := match JsMap.get Z.eqb buckets bucketTime with
                | Some b => b
                | None => []
                end in
  let groupKey := or_default (field_of groupBy log) "unknown" in
  JsMap.set Z.eqb buckets bucketTime
    (JsMap.set String.eqb bucket groupKey (JsMap.or0 (JsMap.get String.eqb bucket groupKey) + 1)).

Definition buckets_of (groupBy : GroupBy) (logs : list LogEntry)
    : list (Z * list (string * Z)) :=
  match map _time logs with
  | [] => []
  | t :: times =>
      let startTime := Js.Math_min t times in
      let endTime := Js.Math_max t times in
      fold_left (fill_step groupBy) logs (init_buckets startTime endTime)
  end.

(** [allGroups.add(key)] on a [Set] in insertion order. *)
Definition set_add (s : list string) (key : string) : list string :=
  if existsb (String.eqb key) s then s else s ++ [key].

Definition groupKeys_of (groupBy : GroupBy) (logs : list LogEntry) : list string :=
  let allGroups :=
    fold_left (fun all bucket => fold_left set_add (JsMap.keys bucket) all)
      (JsMap.values (buckets_of groupBy logs)) [] in
  if (5 <? List.length allGroups)%nat then
    map fst (Js.slice0 5 (Js.sort_by_count_desc (count_by groupBy "unknown" logs)))
  else allGroups.

Definition timestamps (groupBy : GroupBy) (logs : list LogEntry) : list Z :=
  Js.sort_default (JsMap.keys (buckets_of groupBy logs)).

(** One time index of [stackedData]: the running totals over the groups. *)
Fixpoint stack_column (bucket : list (string * Z)) (groupKeys : list string) (stackBase : Z)
    : list Z :=
  match groupKeys with
  | [] => []
  | groupKey :: rest =>
      let value := JsMap.or0 (JsMap.get String.eqb bucket groupKey) in
      (stackBase + value) :: stack_column bucket rest (stackBase + value)
  end.

Definition stackedData (groupBy : GroupBy) (logs : list LogEntry) : list (list Z) :=
  let groupKeys := groupKeys_of groupBy logs in
  let columns :=
    map (fun timestamp =>
           let bucket := match JsMap.get Z.eqb (buckets_of groupBy logs) timestamp with
                         | Some b => b
                         | None => []
                         end in
           stack_column bucket groupKeys 0)
        (timestamps groupBy logs) in
  map (fun groupIndex => map (fun column => nth groupIndex column 0) columns)
      (seq 0 (List.length groupKeys)).

(** The [data] of [chartData]. *)
Definition StackedAreaChart (groupBy : GroupBy) (logs : list LogEntry) : ChartData :=
  match logs with
  | [] => mkChartData [] [[]]
  | _ => mkChartData (map to_seconds (timestamps groupBy logs)) (stackedData groupBy logs)
  end.

End StackedAreaChart.

(** ** ErrorChart: error analysis *)

Module ErrorChart.

Import Log Chart.
Local Open Scope string_scope.

Inductive Trend := TrendUp | TrendDown | TrendStable.

(** The string the component stores for a trend. *)
Definition trend_name (t : Trend) : string :=
  match t with
  | TrendUp => "up"
  | TrendDown => "down"
  | TrendStable => "stable"
  end.

(** An entry of [errors].  [err_time] is the instant that
    [toLocaleTimeString] formats. *)
Record ErrorEntry := mkErrorEntry {
  err_time : Z;
  err_service : string;
  err_message : string;
  err_level : option string
}.

(** [errorData]; the guard for no records leaves [totalErrors] and
    [hourlyData] undefined. *)
Record ErrorData := mkErrorData {
  errors : list ErrorEntry;
  trend : Trend;
  errorRate : Q;
  totalErrors : option Z;
  hourlyData : option (list Z)
}.

Definition oneHour : Z := 60 * 60 * 1000.

(** The loop [for (let i = 23; i >= 0; i--)]: a zero for each of the last
    24 hours, the oldest first. *)
Definition init_hours (now : Z) : list (Z * Z) :=
  fold_left
    (fun hourlyErrors i =>
       let hourStart := now - i * oneHour in
       let hourKey := hourStart / oneHour in
       JsMap.set Z.eqb hourlyErrors hourKey 0)
    (map Z.of_nat (rev (seq 0 24))) [].

Definition count_hour (hourlyErrors : list (Z * Z)) (log : LogEntry) : list (Z * Z) :=
  let logTime := _time log in
  let hourKey := logTime / oneHour in
  JsMap.set Z.eqb hourlyErrors hourKey (JsMap.or0 (JsMap.get Z.eqb hourlyErrors hourKey) + 1).

Definition hourly (now : Z) (errorLogs : list LogEntry) : list Z :=
  JsMap.values (fold_left count_hour errorLogs (init_hours now)).

(** [recent > previous * 1.2], [recent < previous * 0.8] *)
Definition trend_of (recent previous : Z) : Trend :=
  if negb (Qle_bool (inject_Z recent) (inject_Z previous * (12 # 10))) then TrendUp
  else if negb (Qle_bool (inject_Z previous * (8 # 10)) (inject_Z recent)) then TrendDown
  else TrendStable.

(** [ErrorChart]'s [errorData], with [now] the value of [Date.now()]. *)
Definition ErrorChart (now : Z) (logs : list LogEntry) : ErrorData :=
  match logs with
  | [] => mkErrorData [] TrendStable 0 None None
  | _ =>
      let errorLogs := filter is_error logs in
      let errorRate :=
        Js.toFixed1 (inject_Z (Z.of_nat (List.length errorLogs))
                     / inject_Z (Z.of_nat (List.length logs)) * 100) in
      let hourlyData := hourly now errorLogs in
      let recent := Js.sum (Js.slice_last 3 hourlyData) in
      let previous := Js.sum (Js.slice_neg 6 3 hourlyData) in
      let trend := trend_of recent previous in
      let recentErrors :=
        map (fun log =>
               mkErrorEntry (_time log)
                 (or_default (service log) "Unknown")
                 (if JsString.truthy (_msg log) then _msg log else "No message")
                 (level log))
            (rev (Js.slice_last 5 errorLogs)) in
      mkErrorData recentErrors trend errorRate
        (Some (Z.of_nat (List.length errorLogs))) (Some hourlyData)
  end.

End ErrorChart.

(** ** GaugeChart.tsx: gauges and the hour-of-week heatmap *)

Module GaugeChart.

Import Log Chart.
Local Open Scope string_scope.

Inductive Metric := error_rate | warning_rate | activity_level.

(** [gaugeData] without its [label], a formatted string. *)
Record GaugeData := mkGaugeData {
  value : Q;
  color : string
}.

Definition gt (a b : Q) : bool := negb (Qle_bool a b).

Definition count_level (name : string) (logs : list LogEntry) : Z :=
  Z.of_nat (List.length (filter (level_is name) logs)).

(** [timeSpan]: from the first record of the sequence to the last one, in
    minutes; one minute for a single record. *)
Definition timeSpan (logs : list LogEntry) : Q :=
  match logs with
  | [] => 1
  | first :: _ =>
      if (1 <? List.length logs)%nat
      then (inject_Z (_time (last logs first) - _time first) / (1000 * 60))%Q
      else 1
  end.

(** [Math.min((logsPerMinute / 10) * 100, 100)] with
    [logsPerMinute = logs.length / timeSpan]; the division of a positive
    length by a zero span gives [Infinity], whose minimum with 100 is 100. *)
Definition activity_value (logs : list LogEntry) : Q :=
  let span := timeSpan logs in
  if Qeq_bool span 0 then 100
  else
    let logsPerMinute := (inject_Z (Z.of_nat (List.length logs)) / span)%Q in
    Js.Qmin ((logsPerMinute / 10) * 100) 100.

Definition GaugeChart (metric : Metric) (logs : list LogEntry) : GaugeData :=
  match logs with
  | [] => mkGaugeData 0 "#10b981"
  | _ =>
      let total := inject_Z (Z.of_nat (List.length logs)) in
      match metric with
      | error_rate =>
          let errorCount := count_level "ERROR" logs in
          let value := ((inject_Z errorCount / total) * 100)%Q in
          let color := if gt value 20 then "#ef4444"
                       else if gt value 10 then "#f59e0b" else "#10b981" in
          mkGaugeData (Js.Qmin value 100) color
      | warning_rate =>
          let warningCount := count_level "WARN" logs in
          let value := ((inject_Z warningCount / total) * 100)%Q in
          let color := if gt value 30 then "#f59e0b"
                       else if gt value 15 then "#eab308" else "#10b981" in
          mkGaugeData (Js.Qmin value 100) color
      | activity_level =>
          let value := activity_value logs in
          let color := if gt value 80 then "#ef4444"
                       else if gt value 50 then "#f59e0b" else "#10b981" in
          mkGaugeData (Js.Qmin value 100) color
      end
  end.

End GaugeChart.

Module HeatmapChart.

Import Log Chart.
Local Open Scope string_scope.

(** [heatmapData]; the guard for no records leaves [dayNames] undefined. *)
Record HeatmapData := mkHeatmapData {
  data : list (list Z);
  maxValue : Z;
  dayNames : option (list string)
}.

Section LocalTime.

(** The offset of local time from UTC in milliseconds, taken as fixed. *)
Variable timezoneOffset : Z.

(** [date.getHours()] and [date.getDay()]; day 0 is Sunday and the epoch
    fell on a Thursday. *)
Definition getHours (t : Z) : nat := Z.to_nat (((t + timezoneOffset) / 3600000) mod 24).
Definition getDay (t : Z) : nat := Z.to_nat (((t + timezoneOffset) / 86400000 + 4) mod 7).

(** [Array(7).fill(null).map(() => Array(24).fill(0))] *)
Definition empty_grid : list (list Z) := repeat (repeat 0 24%nat) 7%nat.

(** [row[i]++]; the day and the hour of a date are always in range. *)
Fixpoint increment (i : nat) (row : list Z) : list Z :=
  match row, i with
  | [], _ => []
  | v :: rest, O => (v + 1) :: rest
  | v :: rest, S i' => v :: increment i' rest
  end.

(** [grid[day][hour]++] *)
Fixpoint increment_cell (day hour : nat) (grid : list (list Z)) : list (list Z) :=
  match grid, day with
  | [], _ => []
  | row :: rest, O => increment hour row :: rest
  | row :: rest, S day' => row :: increment_cell day' hour rest
  end.

Definition HeatmapChart (logs : list LogEntry) : HeatmapData :=
  match logs with
  | [] => mkHeatmapData [] 0 None
  | _ =>
      let grid :=
        fold_left (fun grid log => increment_cell (getDay (_time log)) (getHours (_time log)) grid)
          logs empty_grid in
      let maxValue := match List.concat grid with
                      | v :: rest => Js.Math_max v rest
                      | [] => 0
                      end in
      mkHeatmapData grid maxValue (Some ["Sun"; "Mon"; "Tue"; "Wed"; "Thu"; "Fri"; "Sat"])
  end.

End LocalTime.

End HeatmapChart.

(** ** PieChart, DonutChart and TreemapChart: top-N groupings over a Map *)

Module PieChart.

Import Log Chart.
Local Open Scope string_scope.

Record PieData := mkPieData {
  data : list Z;
  labels : list string;
  colors : list string
}.

(** [counts] after the loop, before sorting and truncation. *)
Definition counts (groupBy : GroupBy) (logs : list LogEntry) : list (string * Z) :=
  count_by groupBy "unknown" logs.

(** The grouping shared by the pie and the donut: the [top] largest groups. *)
Definition top_groups (top : nat) (groupBy : GroupBy) (logs : list LogEntry) : PieData :=
  match logs with
  | [] => mkPieData [] [] []
  | _ =>
      let sortedEntries := Js.slice0 top (Js.sort_by_count_desc (counts groupBy logs)) in
      let labels := map fst sortedEntries in
      let data := map snd sortedEntries in
      let colors := map getLogLevelColor labels in
      mkPieData data labels colors
  end.

Definition PieChart (groupBy : GroupBy) (logs : list LogEntry) : PieData :=
  top_groups 8 groupBy logs.

(** DonutChart.tsx: the same grouping with the top 6. *)
Definition DonutChart (groupBy : GroupBy) (logs : list LogEntry) : PieData :=
  top_groups 6 groupBy logs.

End PieChart.

Module TreemapChart.

Import Log Chart.
Local Open Scope string_scope.

Record TreemapItem := mkTreemapItem {
  name : string;
  value : Z;
  color : string;
  x : Q;
  y : Q;
  width : Q;
  height : Q
}.

(** [items] before the layout. *)
Definition items_of (groupBy : GroupBy) (logs : list LogEntry) : list TreemapItem :=
  map (fun entry => mkTreemapItem (fst entry) (snd entry) (getLogLevelColor (fst entry)) 0 0 0 0)
      (Js.slice0 12 (Js.sort_by_count_desc (count_by groupBy "unknown" logs))).

Section Layout.

(** [layoutTreemap]: the rectangle geometry, computed with [Math.sqrt] in
    floating point; the aggregation hands it the items and the container. *)
Variable layoutTreemap : list TreemapItem -> Q -> Q -> list TreemapItem.

Definition TreemapChart (groupBy : GroupBy) (chartHeight : Q) (logs : list LogEntry)
    : list TreemapItem :=
  match logs with
  | [] => []
  | _ => layoutTreemap (items_of groupBy logs) 400 chartHeight
  end.

End Layout.

End TreemapChart.

(** ** ServiceChart, HostChart and LogLevelChart: counts in a plain object *)

Module JsObject.

Local Open Scope string_scope.

Definition is_digit (c : ascii) : bool :=
  let n := nat_of_ascii c in ((48 <=? n) && (n <=? 57))%nat.

Fixpoint digits_value (acc : Z) (s : string) : Z :=
  match s with
  | EmptyString => acc
  | String c rest => digits_value (10 * acc + Z.of_nat (nat_of_ascii c - 48)) rest
  end.

(** An array index: a canonical decimal numeral below 2^32 - 1.  Such keys
    are enumerated first, in ascending order. *)
Definition array_index (key : string) : option Z :=
  match key with
  | EmptyString => None
  | String c rest =>
      if forallb is_digit (JsString.chars key)
         && (negb (Ascii.eqb c "0"%char) || negb (JsString.truthy rest))
         && (digits_value 0 key <? 4294967295)%Z
      then Some (digits_value 0 key)
      else None
  end.

Definition is_index {V : Type} (entry : string * V) : bool :=
  match array_index (fst entry) with Some _ => true | None => false end.

(** [Object.entries(o)] for an object whose own properties were created in
    the order of the list [o]. *)
Definition entries {V : Type} (o : list (string * V)) : list (string * V) :=
  Js.sort_by
    (fun a b => (digits_value 0 (fst a) <=? digits_value 0 (fst b))%Z)
    (filter is_index o)
  ++ filter (fun entry => negb (is_index entry)) o.

Definition keys {V : Type} (o : list (string * V)) : list string := map fst (entries o).

End JsObject.

Module ServiceChart.

Import Log Chart.
Local Open Scope string_scope.

Record ServiceCount := mkServiceCount { service_name : string; count : Z }.

(** [serviceCounts] after the [reduce]. *)
Definition serviceCounts (logs : list LogEntry) : list (string * Z) :=
  count_by ByService "Unknown" logs.

Definition ServiceChart (logs : list LogEntry) : list ServiceCount :=
  match logs with
  | [] => []
  | _ =>
      Js.slice0 10
        (Js.sort_by (fun a b => (count b <=? count a)%Z)
           (map (fun entry => mkServiceCount (fst entry) (snd entry))
              (JsObject.entries (serviceCounts logs))))
  end.

End ServiceChart.

Module HostChart.

Import Log Chart.
Local Open Scope string_scope.

Record HostCount := mkHostCount {
  host_name : string;
  count : Z;
  recentActivity : Z;
  status : string
}.

Definition hostCounts (logs : list LogEntry) : list (string * Z) :=
  count_by ByHost "Unknown" logs.

(** [hostData], with [now] the value of [Date.now()]. *)
Definition HostChart (now : Z) (logs : list LogEntry) : list HostCount :=
  match logs with
  | [] => []
  | _ =>
      let fiveMinutesAgo := (now - 5 * 60 * 1000)%Z in
      let recent :=
        count_by ByHost "Unknown" (filter (fun log => (fiveMinutesAgo <? _time log)%Z) logs) in
      Js.slice0 8
        (Js.sort_by (fun a b => (count b <=? count a)%Z)
           (map (fun entry =>
                   let activity := JsMap.get String.eqb recent (fst entry) in
                   mkHostCount (fst entry) (snd entry) (JsMap.or0 activity)
                     (match activity with
                      | Some n => if (0 <? n)%Z then "active" else "inactive"
                      | None => "inactive"
                      end))
              (JsObject.entries (hostCounts logs))))
  end.

End HostChart.

Module LogLevelChart.

Import Log Chart.
Local Open Scope string_scope.

Definition levelCounts (logs : list LogEntry) : list (string * Z) :=
  count_by ByLevel "UNKNOWN" logs.

(** [data]: the indices of the sorted levels, and their counts. *)
Definition LogLevelChart (logs : list LogEntry) : list Z * list Z :=
  match logs with
  | [] => ([], [])
  | _ =>
      let levels := Js.sort_strings (JsObject.keys (levelCounts logs)) in
      let counts := map (fun level => JsMap.or0 (JsMap.get String.eqb (levelCounts logs) level)) levels in
      (map Z.of_nat (seq 0 (List.length levels)), counts)
  end.

End LogLevelChart.

(** ** RadarChart: six health metrics *)

Module RadarChart.

Import Log Chart.
Local Open Scope string_scope.

Record RadarMetric := mkRadarMetric { label : string; value : Q; maxValue : Q }.

Definition option_string_eqb (a b : option string) : bool :=
  match a, b with
  | Some x, Some y => String.eqb x y
  | None, None => true
  | _, _ => false
  end.

(** [new Set(logs.map(log => log.service)).size]; an absent service is one
    more member. *)
Definition uniqueServices (logs : list LogEntry) : nat :=
  List.length
    (fold_left (fun seen s => if existsb (option_string_eqb s) seen then seen else (seen ++ [s])%list)
       (map service logs) []).

Definition rate (count : nat) (totalLogs : nat) : Q :=
  ((inject_Z (Z.of_nat count) / inject_Z (Z.of_nat totalLogs)) * 100)%Q.

Definition RadarChart (logs : list LogEntry) : list RadarMetric :=
  match logs with
  | [] => []
  | _ =>
      let totalLogs := List.length logs in
      let errorLogs := List.length (filter (level_is "ERROR") logs) in
      let warnLogs := List.length (filter (level_is "WARN") logs) in
      let infoLogs := List.length (filter (level_is "INFO") logs) in
      let debugLogs := List.length (filter (level_is "DEBUG") logs) in
      let errorRate := rate errorLogs totalLogs in
      let warnRate := rate warnLogs totalLogs in
      let activityRate := Js.Qmin ((inject_Z (Z.of_nat totalLogs) / 1000) * 100)%Q 100 in
      let infoRate := rate infoLogs totalLogs in
      let debugRate := rate debugLogs totalLogs in
      let serviceDistribution :=
        Js.Qmin ((inject_Z (Z.of_nat (uniqueServices logs)) / 10) * 100)%Q 100 in
      [ mkRadarMetric "Activity" activityRate 100;
        mkRadarMetric "Info Rate" infoRate 100;
        mkRadarMetric "Debug Rate" debugRate 100;
        mkRadarMetric "Service Dist" serviceDistribution 100;
        mkRadarMetric "Warn Rate" (100 - warnRate)%Q 100;
        mkRadarMetric "Error Rate" (100 - errorRate)%Q 100 ]
  end.

End RadarChart.

(* ------------------------------------------------------------------ *)
(** * Drift classification: the drift data of the DriftDetection page *)

Module Drift.

Local Open Scope string_scope.

Inductive AlertLevel := normal | warning | critical.

Record DriftRecord := mkDriftRecord {
  service : string;
  severity : string;
  currentPeriod : Q;
  baselinePeriod : Q;
  delta : Q;
  percentageChange : Q;
  timestamp : string;
  alertLevel : AlertLevel
}.

Definition gt (a b : Q) : bool := negb (Qle_bool a b).

(** The body of the innermost callback of [generateDriftData], from the
    two drawn counts on. *)
Definition driftRecord (warningThreshold criticalThreshold : Q)
    (service severity timestamp : string) (baseline current : Q) : DriftRecord :=
  let delta := (current - baseline)%Q in
  let percentageChange := Qabs ((delta / baseline) * 100)%Q in
  let alertLevel :=
    if gt percentageChange criticalThreshold then critical
    else if gt percentageChange warningThreshold then warning
    else normal in
  mkDriftRecord service severity
    (Js.round2 current) (Js.round2 baseline) (Js.round2 delta) (Js.round2 percentageChange)
    timestamp alertLevel.

Definition services : list string :=
  ["user-service"; "auth-service"; "payment-service"; "notification-service";
   "analytics-service"; "database-service"; "cache-service"].
Definition severities : list string := ["ERROR"; "WARN"; "INFO"; "DEBUG"].
Definition timestamps : list string :=
  ["2025-08-12T00:00:00Z"; "2025-08-12T06:00:00Z"; "2025-08-12T12:00:00Z";
   "2025-08-12T18:00:00Z"].

Section Random.

(** [random k] is what the [k]-th call of [Math.random()] returns. *)
Variable random : nat -> Q.

Definition generateDriftData (warningThreshold criticalThreshold : Q) : list DriftRecord :=
  let combinations :=
    flat_map (fun service =>
      flat_map (fun severity =>
        map (fun timestamp => (service, severity, timestamp)) timestamps)
        severities)
      services in
  map (fun indexed =>
         let '(i, (service, severity, timestamp)) := indexed in
         let baseline := (random (2 * i) * 100 + 10)%Q in
         let current := (baseline * ((3 # 10) + random (2 * i + 1) * (14 # 10)))%Q in
         driftRecord warningThreshold criticalThreshold service severity timestamp
           baseline current)
      (combine (seq 0 (List.length combinations)) combinations).

End Random.

End Drift.

(* ------------------------------------------------------------------ *)
(** * Query builder state: the handlers of QueryBuilder.tsx *)

Module QueryBuilderState.

Import JsString QueryBuilder.
Local Open Scope string_scope.

(** [fieldNames[0]?.name || 'service'], over the names of the fields. *)
Definition default_field (fieldNames : list string) : string :=
  match fieldNames with
  | name :: _ => if truthy name then name else "service"
  | [] => "service"
  end.

(** [addFilter], with [now] the value of [Date.now()]. *)
Definition addFilter (now : Z) (fieldNames : list string) (filters : list Filter)
    : list Filter :=
  (filters ++ [mkFilter (Js.toString now) (default_field fieldNames) "=" ""])%list.

Definition removeFilter (id : string) (filters : list Filter) : list Filter :=
  filter (fun f => negb (String.eqb (QueryBuilder.id f) id)) filters.

(** [Partial<Filter>]: the properties an update carries. *)
Record Updates := mkUpdates {
  new_id : option string;
  new_field : option string;
  new_operator : option string;
  new_value : option string
}.

Definition or_old (update : option string) (old : string) : string :=
  match update with Some s => s | None => old end.

(** [{ ...f, ...updates }] *)
Definition merge (f : Filter) (updates : Updates) : Filter :=
  mkFilter (or_old (new_id updates) (QueryBuilder.id f))
           (or_old (new_field updates) (field f))
           (or_old (new_operator updates) (operator f))
           (or_old (new_value updates) (value f)).

Definition updateFilter (id : string) (updates : Updates) (filters : list Filter)
    : list Filter :=
  map (fun f => if String.eqb (QueryBuilder.id f) id then merge f updates else f) filters.

Inductive Mode := builder | raw.

(** The state of the component that the handlers read and write. *)
Record State := mkState {
  mode : Mode;
  rawQuery : string;
  filters : list Filter;
  queryError : option string
}.

(** [validation.isValid ? null : validation.error || null] *)
Definition error_of (validation : Utils.Validation) : option string :=
  if Utils.isValid validation then None
  else match Utils.error validation with
       | Some e => if truthy e then Some e else None
       | None => None
       end.

Definition handleRawQueryChange (value : string) (st : State) : State :=
  let validation := Utils.validateLogsQLQuery value in
  mkState (mode st) value (filters st) (error_of validation).

(** [handleExecute]: whether [onExecute] is called. *)
Definition handleExecute (st : State) : bool :=
  match queryError st with
  | Some e => negb (truthy e)
  | None => true
  end.

End QueryBuilderState.

(* ------------------------------------------------------------------ *)
(** * Text helpers: utils/index.ts *)

Module UtilsText.

Import JsString.
Local Open Scope string_scope.

(** [getLogLevelClass] *)
Definition getLogLevelClass (level : string) : string :=
  if negb (truthy level) then "log-level-info"
  else
    let normalizedLevel := toUpperCase level in
    if String.eqb normalizedLevel "DEBUG" then "log-level-debug"
    else if String.eqb normalizedLevel "INFO" then "log-level-info"
    else if String.eqb normalizedLevel "WARN" || String.eqb normalizedLevel "WARNING"
      then "log-level-warn"
    else if String.eqb normalizedLevel "ERROR" then "log-level-error"
    else if String.eqb normalizedLevel "FATAL" || String.eqb normalizedLevel "CRITICAL"
      then "log-level-fatal"
    else "log-level-info".

(** [truncateText], for a length limit that is a natural number. *)
Definition truncateText (text : string) (maxLength : nat) : string :=
  if (String.length text <=? maxLength)%nat then text
  else substring 0 maxLength text ++ "...".

(** [s.split(sep)] for a separator of one character or more: the text is
    scanned from the left, an occurrence of the separator ends the current
    piece and its characters are passed over ([skip] of them are left). *)
Fixpoint split_scan (sep : string) (skip : nat) (s : string) : list string :=
  match s with
  | EmptyString => [EmptyString]
  | String c s' =>
      match skip with
      | S k => split_scan sep k s'
      | O =>
          if prefix sep s then EmptyString :: split_scan sep (String.length sep - 1) s'
          else match split_scan sep 0 s' with
               | piece :: rest => String c piece :: rest
               | [] => [String c EmptyString]
               end
      end
  end.

Definition split_on (sep s : string) : list string := split_scan sep 0 s.

Record ParsedQuery := mkParsedQuery {
  filters : list string;
  timeRange : option string
}.

(** The callback of [parts.forEach]. *)
Definition parse_part (parsed : ParsedQuery) (part : string) : ParsedQuery :=
  if includes part "_time:" then mkParsedQuery (filters parsed) (Some part)
  else mkParsedQuery (filters parsed ++ [part])%list (timeRange parsed).

Definition parseLogsQLQuery (query : string) : ParsedQuery :=
  let parts := map trim (split_on " AND " query) in
  fold_left parse_part parts (mkParsedQuery [] None).

Definition buildLogsQLQuery (filters : list string) (timeRange : option string) : string :=
  let parts :=
    match timeRange with
    | Some t => if truthy t then (filters ++ [t])%list else filters
    | None => filters
    end in
  join " AND " parts.

End UtilsText.

(* ------------------------------------------------------------------ *)
(** * Service statistics: getServices of services/api.ts *)

Module ApiServices.

Import Log.
Local Open Scope string_scope.

(** An entry of [serviceStats]; [lastSeen] in epoch milliseconds and
    [levels] a plain object from level names to counts. *)
Record ServiceInfo := mkServiceInfo {
  name : string;
  logCount : Z;
  lastSeen : Z;
  levels : list (string * Z)
}.

Definition initial_levels : list (string * Z) :=
  [("DEBUG", 0); ("INFO", 0); ("WARN", 0); ("ERROR", 0); ("FATAL", 0)].

(** What the loop does to the entry of a record's service: [stats.logCount++],
    the count of the level and the later of the two dates. *)
Definition record_log (stats : ServiceInfo) (log : LogEntry) : ServiceInfo :=
  let level := JsString.toUpperCase (or_default (Log.level log) "INFO") in
  let logTime := _time log in
  mkServiceInfo (name stats) (logCount stats + 1)
    (if (lastSeen stats <? logTime)%Z then logTime else lastSeen stats)
    (JsMap.set String.eqb (levels stats) level
       (JsMap.or0 (JsMap.get String.eqb (levels stats) level) + 1)).

(** The callback of [logsResponse.values.forEach].  The entry is an object
    the Map holds, so updating it updates the Map. *)
Definition service_step (serviceStats : list (string * ServiceInfo)) (log : LogEntry)
    : list (string * ServiceInfo) :=
  let service := or_default (Log.service log) "unknown" in
  let serviceStats :=
    if negb (JsMap.has String.eqb serviceStats service)
    then JsMap.set String.eqb serviceStats service
           (mkServiceInfo service 0 (_time log) initial_levels)
    else serviceStats in
  match JsMap.get String.eqb serviceStats service with
  | Some stats => JsMap.set String.eqb serviceStats service (record_log stats log)
  | None => serviceStats
  end.

(** [getServices] from the answer of [queryLogs] on: the statistics of the
    records, and no statistics when the query failed. *)
Definition getServices (logsResponse : Api.result (list LogEntry)) : list ServiceInfo :=
  match logsResponse with
  | Api.Ok values => JsMap.values (fold_left service_step values [])
  | Api.Thrown _ => []
  end.

End ApiServices.

(* ------------------------------------------------------------------ *)
(** * DriftDetectionChart.tsx: the rows, the counts and the trend series *)

Module DriftDetectionChart.

Import Drift.
Local Open Scope string_scope.

Inductive AlertFilter := filter_all | filter_warning | filter_critical.

Definition alertLevel_eqb (a b : AlertLevel) : bool :=
  match a, b with
  | normal, normal | warning, warning | critical, critical => true
  | _, _ => false
  end.

(** [(a, b) => Math.abs(b.delta) - Math.abs(a.delta)] is at most 0. *)
Definition larger_delta_first (a b : DriftRecord) : bool :=
  Qle_bool (Qabs (delta b)) (Qabs (delta a)).

Definition processedData (alertFilter : AlertFilter) (data : list DriftRecord)
    : list DriftRecord :=
  match data with
  | [] => []
  | _ =>
      let filtered :=
        match alertFilter with
        | filter_all => data
        | filter_warning => filter (fun d => alertLevel_eqb (alertLevel d) warning) data
        | filter_critical => filter (fun d => alertLevel_eqb (alertLevel d) critical) data
        end in
      Js.sort_by larger_delta_first filtered
  end.

Record AlertCounts := mkAlertCounts {
  normal_count : Z;
  warning_count : Z;
  critical_count : Z
}.

(** [counts[d.alertLevel]++] *)
Definition count_alert (counts : AlertCounts) (d : DriftRecord) : AlertCounts :=
  match alertLevel d with
  | normal => mkAlertCounts (normal_count counts + 1) (warning_count counts) (critical_count counts)
  | warning => mkAlertCounts (normal_count counts) (warning_count counts + 1) (critical_count counts)
  | critical => mkAlertCounts (normal_count counts) (warning_count counts) (critical_count counts + 1)
  end.

Definition alertCounts (data : list DriftRecord) : AlertCounts :=
  fold_left count_alert data (mkAlertCounts 0 0 0).

Record TimeGroup := mkTimeGroup {
  total : Q;
  count : Z;
  alerts : Z
}.

(** The callback of [data.reduce]: the group of the row's timestamp is
    created when it is not there, then updated in place. *)
Definition group_step (acc : list (string * TimeGroup)) (item : DriftRecord)
    : list (string * TimeGroup) :=
  let acc :=
    if negb (JsMap.has String.eqb acc (timestamp item))
    then JsMap.set String.eqb acc (timestamp item) (mkTimeGroup 0 0 0)
    else acc in
  match JsMap.get String.eqb acc (timestamp item) with
  | Some group =>
      JsMap.set String.eqb acc (timestamp item)
        (mkTimeGroup (total group + Qabs (delta item))%Q (count group + 1)
           (if negb (alertLevel_eqb (alertLevel item) normal)
            then alerts group + 1 else alerts group))
  | None => acc
  end.

Definition timeGroups (data : list DriftRecord) : list (string * TimeGroup) :=
  fold_left group_step data [].

(** [timeSeriesData]: the labels and the [data] of the two datasets. *)
Record TimeSeries := mkTimeSeries {
  labels : list string;
  averageDelta : list Q;
  alertCount : list Z
}.

Definition group_at (groups : list (string * TimeGroup)) (t : string) : TimeGroup :=
  match JsMap.get String.eqb groups t with
  | Some group => group
  | None => mkTimeGroup 0 0 0
  end.

Definition timeSeriesData (data : list DriftRecord) : option TimeSeries :=
  match data with
  | [] => None
  | _ =>
      let groups := timeGroups data in
      let sortedTimes := Js.sort_strings (JsObject.keys groups) in
      Some (mkTimeSeries sortedTimes
              (map (fun t => (total (group_at groups t)
                              / inject_Z (count (group_at groups t)))%Q) sortedTimes)
              (map (fun t => alerts (group_at groups t)) sortedTimes))
  end.

(** The lines of the tooltip of the trend chart for a label: the average
    delta before [toFixed], the alerts and the number of rows. *)
Record Tooltip := mkTooltip {
  avgDelta : Q;
  tip_alertCount : Z;
  totalServices : Z
}.

Definition tooltip_lines (data : list DriftRecord) (timestamp : string) : Tooltip :=
  let timeData := filter (fun d => String.eqb (Drift.timestamp d) timestamp) data in
  mkTooltip
    (fold_left (fun sum d => (sum + Qabs (delta d))%Q) timeData 0
     / inject_Z (Z.of_nat (List.length timeData)))%Q
    (Z.of_nat (List.length
       (filter (fun d => negb (alertLevel_eqb (alertLevel d) normal)) timeData)))
    (Z.of_nat (List.length timeData)).

(** The [afterBody] callback of the tooltip for the point [dataIndex]:
    no lines when there is no series, no label at the index or an empty
    label. *)
Definition afterBody (data : list DriftRecord) (dataIndex : nat) : option Tooltip :=
  match timeSeriesData data with
  | Some series =>
      match nth_error (labels series) dataIndex with
      | Some timestamp =>
          if JsString.truthy timestamp then Some (tooltip_lines data timestamp) else None
      | None => None
      end
  | None => None
  end.

End DriftDetectionChart.

(* ------------------------------------------------------------------ *)
(** * BaselineComparisonChart (TreemapChart.tsx): the rows of the comparison *)

Module BaselineComparisonChart.

Local Open Scope string_scope.

Record BaselineComparisonData := mkBaselineComparisonData {
  service : string;
  severity : string;
  currentPeriod : Q;
  baselinePeriod : Q;
  delta : Q;
  percentageChange : Q
}.

Inductive SortBy := by_delta | by_percentage | by_current.

(** The comparison function of each case is at most 0. *)
Definition sorts_before (sortBy : SortBy) (a b : BaselineComparisonData) : bool :=
  match sortBy with
  | by_delta => Qle_bool (Qabs (delta b)) (Qabs (delta a))
  | by_percentage => Qle_bool (Qabs (percentageChange b)) (Qabs (percentageChange a))
  | by_current => Qle_bool (currentPeriod b) (currentPeriod a)
  end.

Definition processedData (sortBy : SortBy) (data : list BaselineComparisonData)
    : list BaselineComparisonData :=
  match data with
  | [] => []
  | _ => Js.slice0 20 (Js.sort_by (sorts_before sortBy) data)
  end.

(** The "Improving" and "Worsening" cells of the summary. *)
Definition improving (rows : list BaselineComparisonData) : nat :=
  List.length (filter (fun d => negb (Qle_bool 0 (delta d))) rows).

Definition worsening (rows : list BaselineComparisonData) : nat :=
  List.length (filter (fun d => negb (Qle_bool (delta d) 0)) rows).

End BaselineComparisonChart.

(* ------------------------------------------------------------------ *)
(** * DriftDetection page: the generated comparison rows and the summary *)

Module DriftPage.

Import Drift.
Local Open Scope string_scope.

Record AlertSummary := mkAlertSummary {
  total : nat;
  normal_rows : nat;
  warning_rows : nat;
  critical_rows : nat
}.

Definition has_level (level : AlertLevel) (d : DriftRecord) : bool :=
  DriftDetectionChart.alertLevel_eqb (alertLevel d) level.

Definition alertSummary (driftData : list DriftRecord) : AlertSummary :=
  mkAlertSummary (List.length driftData)
    (List.length (filter (has_level normal) driftData))
    (List.length (filter (has_level warning) driftData))
    (List.length (filter (has_level critical) driftData)).

Definition comparison_services : list string :=
  ["user-service"; "auth-service"; "payment-service"; "notification-service";
   "analytics-service"].
Definition comparison_severities : list string := ["ERROR"; "WARN"; "INFO"].

(** The body of the inner callback of [generateBaselineComparisonData],
    from the two drawn numbers on. *)
Definition comparisonRow (service severity : string) (r1 r2 : Q)
    : BaselineComparisonChart.BaselineComparisonData :=
  let baseline := (r1 * 100 + 10)%Q in
  let current := (baseline * ((1 # 2) + r2))%Q in
  let delta := (current - baseline)%Q in
  let percentageChange := ((delta / baseline) * 100)%Q in
  BaselineComparisonChart.mkBaselineComparisonData service severity
    (Js.round2 current) (Js.round2 baseline) (Js.round2 delta) (Js.round2 percentageChange).

Section Random.

(** [random k] is what the [k]-th call of [Math.random()] returns. *)
Variable random : nat -> Q.

(** [generateBaselineComparisonData]; its argument is not used. *)
Definition generateBaselineComparisonData
    : list BaselineComparisonChart.BaselineComparisonData :=
  let combinations :=
    flat_map (fun service => map (fun severity => (service, severity)) comparison_severities)
      comparison_services in
  map (fun indexed =>
         let '(i, (service, severity)) := indexed in
         comparisonRow service severity (random (2 * i)%nat) (random (2 * i + 1)%nat))
      (combine (seq 0 (List.length combinations)) combinations).

End Random.

End DriftPage.

(* ------------------------------------------------------------------ *)
(** * Dashboard (Settings.tsx): the statistic cards and the recent errors *)

Module Dashboard.

Import Log.
Local Open Scope string_scope.

Record Stats := mkStats {
  totalLogs : Z;
  errorLogs : Z;
  services : Z;
  avgLogsPerMinute : Z
}.

(** [.filter(Boolean)] on the services: the absent and the empty ones go. *)
Definition named (service : option string) : bool :=
  match service with
  | Some s => JsString.truthy s
  | None => false
  end.

(** [new Set(l).size] *)
Definition distinct (l : list (option string)) : list (option string) :=
  fold_left (fun seen s => if existsb (RadarChart.option_string_eqb s) seen then seen
                           else (seen ++ [s])%list) l [].

(** [stats]; [logsData] is [None] while there is no answer, and [rangeStart]
    and [rangeEnd] are the instants of the time range. *)
Definition stats (logsData : option (list LogEntry)) (rangeStart rangeEnd : Z) : Stats :=
  match logsData with
  | None => mkStats 0 0 0 0
  | Some logs =>
      let errorLogs := List.length (filter is_error logs) in
      let uniqueServices := List.length (distinct (filter named (map service logs))) in
      let timeRangeMs := (rangeEnd - rangeStart)%Z in
      let minutes := (inject_Z timeRangeMs / (1000 * 60))%Q in
      let avgLogsPerMinute :=
        if negb (Qle_bool minutes 0)
        then Js.Math_round (inject_Z (Z.of_nat (List.length logs)) / minutes)%Q
        else 0 in
      mkStats (Z.of_nat (List.length logs)) (Z.of_nat errorLogs)
        (Z.of_nat uniqueServices) avgLogsPerMinute
  end.

Definition recentErrors (logsData : option (list LogEntry)) : list LogEntry :=
  match logsData with
  | None => []
  | Some logs => Js.slice0 5 (filter is_error logs)
  end.

End Dashboard.

(* ------------------------------------------------------------------ *)
(** * The cells of the heatmap and the service menu of LogChart.tsx *)

Module HeatmapCell.

Local Open Scope string_scope.

Definition lt (a b : Q) : bool := negb (Qle_bool b a).

(** [getHeatmapColor] for a cell of the grid and the grid's maximum.  The
    division by a zero maximum gives an infinity, of the sign of the cell. *)
Definition getHeatmapColor (value maxValue : Z) : string :=
  if (value =? 0)%Z then "bg-slate-100"
  else if (maxValue =? 0)%Z then (if (0 <? value)%Z then "bg-blue-600" else "bg-blue-200")
  else
    let intensity := (inject_Z value / inject_Z maxValue)%Q in
    if lt intensity (2 # 10) then "bg-blue-200"
    else if lt intensity (4 # 10) then "bg-blue-300"
    else if lt intensity (6 # 10) then "bg-blue-400"
    else if lt intensity (8 # 10) then "bg-blue-500"
    else "bg-blue-600".

End HeatmapCell.

Module LogChart.

Import Log.
Local Open Scope string_scope.

(** [allServices]: the entries of the service menu. *)
Definition allServices (groupBy : GroupBy) (showServiceDropdown : bool)
    (logs : list LogEntry) : list string :=
  match groupBy, showServiceDropdown with
  | ByService, true =>
      Js.sort_strings
        (fold_left StackedAreaChart.set_add
           (map (fun log => or_default (service log) "unknown") logs) [])
  | _, _ => []
  end.

End LogChart.

(* ------------------------------------------------------------------ *)
(** * The arcs of the pie and the donut *)

Module PieArcs.

Local Open Scope Q_scope.

(** What the callback of [chartData.data.map] computes for a slice before
    it turns to sines and cosines. *)
Record Arc := mkArc {
  percentage : Q;
  startAngle : Q;
  endAngle : Q;
  largeArcFlag : Z
}.

(** [total]: the sum of the slices shown. *)
Definition total (data : list Z) : Z := Js.sum data.

Definition arc (data : list Z) (index : nat) (value : Z) : Arc :=
  let total := inject_Z (total data) in
  let percentage := (inject_Z value / total) * 100 in
  let cumulativePercentage := inject_Z (Js.sum (Js.slice0 index data)) / total * 100 in
  let startAngle := (cumulativePercentage / 100) * 360 in
  let endAngle := ((cumulativePercentage + percentage) / 100) * 360 in
  let largeArcFlag := if negb (Qle_bool percentage 50) then 1%Z else 0%Z in
  mkArc percentage startAngle endAngle largeArcFlag.

Definition arcs (data : list Z) : list Arc :=
  map (fun indexed => arc data (fst indexed) (snd indexed))
      (combine (seq 0 (List.length data)) data).

End PieArcs.

(* ------------------------------------------------------------------ *)
(** * The specification's wording, as definitions to compare the code with *)

Module QuerySpec.

Import JsString QueryBuilder Utils.
Local Open Scope string_scope.

(** A clause is valid when neither its field nor its value is empty. *)
Definition is_valid_clause (f : Filter) : bool :=
  negb (String.eqb (field f) EmptyString) && negb (String.eqb (value f) EmptyString).

(** A value holds a space or a colon. *)
Definition has_space_or_colon (v : string) : bool :=
  existsb (fun c => Ascii.eqb c " "%char || Ascii.eqb c ":"%char) (chars v).

(** A value holds white space or a colon. *)
Definition has_whitespace_or_colon (v : string) : bool :=
  existsb (fun c => is_whitespace c || Ascii.eqb c ":"%char) (chars v).

Definition quoted (v : string) : string := dquote ++ v ++ dquote.

(** [field<operator>value], the value quoted when [quote_when] says so. *)
Definition render_clause (quote_when : string -> bool) (f : Filter) : string :=
  field f ++ operator f ++ (if quote_when (value f) then quoted (value f) else value f).

(** The built query: the valid clauses, rendered, joined in input order, or
    the match-all token when none is valid. *)
Definition build_spec (quote_when : string -> bool) (filters : list Filter) : string :=
  match filter is_valid_clause filters with
  | [] => "*"
  | valid => join " AND " (map (render_clause quote_when) valid)
  end.

(** The three reasons and the valid result. *)
Definition empty_query : Validation := mkValidation false (Some "Query cannot be empty").
Definition mismatched_parentheses : Validation := mkValidation false (Some "Mismatched parentheses").
Definition mismatched_quotes : Validation := mkValidation false (Some "Mismatched quotes").
Definition valid_query : Validation := mkValidation true None.

(** The checks of the specification, in the order in which it lists them,
    on the characters of the query. *)
Definition validate_spec (query : string) : Validation :=
  let cs := chars query in
  if forallb is_whitespace cs then empty_query
  else if negb (count_occ ascii_dec cs "("%char =? count_occ ascii_dec cs ")"%char)%nat
       then mismatched_parentheses
  else if Nat.odd (count_occ ascii_dec cs dquote_char) then mismatched_quotes
  else valid_query.

End QuerySpec.

Module ApiSpec.

Import Api.
Local Open Scope string_scope.

(** The value is an array. *)
Definition is_array (v : json) : bool :=
  match v with JArray _ => true | _ => false end.

(** A line as the specification has it: it starts and ends with a
    character that is not white space, and holds no line feed. *)
Definition starts_clean (line : string) : bool :=
  match line with
  | EmptyString => false
  | String c _ => negb (JsString.is_whitespace c)
  end.

Definition ends_clean (line : string) : bool :=
  JsString.truthy line && String.eqb (JsString.trimEnd line) line.

Definition no_line_feed (line : string) : bool :=
  negb (existsb (Ascii.eqb LF) (JsString.chars line)).

Definition clean_line (line : string) : bool :=
  starts_clean line && ends_clean line && no_line_feed line.

(** A body of one record, a log entry that has a field named [values]. *)
Definition record_with_values_field : json :=
  JObject [("_time", JString "2025-08-12T00:00:00Z");
           ("_msg", JString "rollout finished");
           ("values", JString "abc")].

(** A body whose [values] property is a number. *)
Definition object_with_numeric_values : json :=
  JObject [("values", JNumber 5)].

(** Two lines of JSONL, an object with the one property [n] each, and a
    parser for the examples that knows these two lines. *)
Definition line_of (digit : string) : string :=
  "{" ++ JsString.dquote ++ "n" ++ JsString.dquote ++ ":" ++ digit ++ "}".

Definition example_parse (line : string) : option json :=
  if String.eqb line (line_of "1") then Some (JObject [("n", JNumber 1)])
  else if String.eqb line (line_of "2") then Some (JObject [("n", JNumber 2)])
  else None.

End ApiSpec.

Module CountSpec.

Import JsMap.

Section Counting.

Context {K A : Type}.
Variable eqb : K -> K -> bool.
Variable key : A -> K.

(** One step of a counting loop: [m.set(key, (m.get(key) || 0) + 1)]. *)
Definition bump (m : list (K * Z)) (a : A) : list (K * Z) :=
  set eqb m (key a) (or0 (get eqb m (key a)) + 1).

(** How many of the records have the key [k]. *)
Definition occurrences (k : K) (l : list A) : Z :=
  Z.of_nat (List.length (filter (fun a => eqb (key a) k) l)).

End Counting.

End CountSpec.

Module GroupSpec.

Import Log.
Local Open Scope string_scope.

(** The group a record is counted in: its grouping field, or the
    placeholder when the field is absent or empty. *)
Definition group_key (groupBy : GroupBy) (placeholder : string) (log : LogEntry) : string :=
  or_default (field_of groupBy log) placeholder.

(** How many records fall in the group [key]. *)
Definition records_in_group (groupBy : GroupBy) (placeholder key : string)
    (logs : list LogEntry) : Z :=
  CountSpec.occurrences String.eqb (group_key groupBy placeholder) key logs.

End GroupSpec.

Module RateSpec.

Import Log.
Local Open Scope string_scope.

(** How many records satisfy a test. *)
Definition count_where (test : LogEntry -> bool) (logs : list LogEntry) : Z :=
  Z.of_nat (List.length (filter test logs)).

(** The level, upper-cased, is ERROR, FATAL or CRITICAL. *)
Definition in_error_tier (log : LogEntry) : Prop :=
  exists s, level log = Some s /\
    (JsString.toUpperCase s = "ERROR" \/ JsString.toUpperCase s = "FATAL"
     \/ JsString.toUpperCase s = "CRITICAL").

(** The level is exactly the given name. *)
Definition has_level (name : string) (log : LogEntry) : bool :=
  match level log with
  | Some s => String.eqb s name
  | None => false
  end.

(** [count / total * 100] *)
Definition percent (count total : Z) : Q := (inject_Z count / inject_Z total * 100)%Q.

(** The span from the first record of the sequence to the last one, in
    minutes; one minute for fewer than two records. *)
Definition observed_span (logs : list LogEntry) : Q :=
  match logs with
  | first :: _ :: _ =>
      (inject_Z (_time (nth (List.length logs - 1) logs first) - _time first) / 60000)%Q
  | _ => 1%Q
  end.

(** Records per minute over a span, against 10 per minute, at most 100. *)
Definition activity_percent (records : nat) (span : Q) : Q :=
  Js.Qmin (inject_Z (Z.of_nat records) / span / 10 * 100)%Q 100%Q.

End RateSpec.

Module ErrorSpec.

Import Log ErrorChart RateSpec.

(** The hourly bucket of a record, and the bucket of the present hour. *)
Definition hour_of (log : LogEntry) : Z := _time log / oneHour.
Definition current_hour (now : Z) : Z := now / oneHour.

(** The 24 hourly buckets up to the present hour, the oldest first. *)
Definition window (now : Z) : list Z :=
  map (fun i => current_hour now - Z.of_nat i) (rev (seq 0 24)).

(** Every error record falls in one of the 24 hourly buckets. *)
Definition errors_in_window (now : Z) (logs : list LogEntry) : bool :=
  forallb (fun log =>
             negb (is_error log)
             || ((current_hour now - 23 <=? hour_of log) && (hour_of log <=? current_hour now)))
          logs.

(** The error records of one hourly bucket. *)
Definition errors_in_hour (h : Z) (logs : list LogEntry) : Z :=
  count_where (fun log => is_error log && (hour_of log =? h)) logs.

(** The sum of the 3 most recent hourly buckets, and of the 3 before them. *)
Definition recent_errors (now : Z) (logs : list LogEntry) : Z :=
  errors_in_hour (current_hour now - 2) logs + errors_in_hour (current_hour now - 1) logs
  + errors_in_hour (current_hour now) logs.

Definition previous_errors (now : Z) (logs : list LogEntry) : Z :=
  errors_in_hour (current_hour now - 5) logs + errors_in_hour (current_hour now - 4) logs
  + errors_in_hour (current_hour now - 3) logs.

(** A hundred records, 7 of them ERROR, 2 FATAL and none CRITICAL, all at
    the instant [t]. *)
Definition hundred_records (t : Z) : list LogEntry :=
  repeat (mkLog t "connection refused"%string (Some "ERROR"%string)
            (Some "api-gateway"%string) None) 7
  ++ repeat (mkLog t "out of memory"%string (Some "FATAL"%string)
               (Some "user-service"%string) None) 2
  ++ repeat (mkLog t "request served"%string (Some "INFO"%string)
               (Some "api-gateway"%string) None) 91.

End ErrorSpec.

Module BucketSpec.

Import Log.

(** The start of the bucket of width [width] that holds the instant [t]. *)
Definition bucket_of (width t : Z) : Z := (t / width) * width.

(** The bucket starts from the bucket of [lo] to the bucket of [hi],
    ascending, none left out. *)
Definition progression (start width : Z) (n : nat) : list Z :=
  map (fun k => start + Z.of_nat k * width) (seq 0 n).

Definition bucket_range (width lo hi : Z) : list Z :=
  progression (bucket_of width lo) width (Z.to_nat (hi / width - lo / width) + 1).

Definition aligned (width t : Z) : bool := (t mod width =? 0).

Fixpoint ascending (l : list Z) : bool :=
  match l with
  | a :: (b :: _) as rest => (a <? b) && ascending rest
  | _ => true
  end.

(** The records of a bucket. *)
Definition records_in_bucket (width b : Z) (logs : list LogEntry) : Z :=
  CountSpec.occurrences Z.eqb (fun log => bucket_of width (_time log)) b logs.

(** Two records of 2025-08-12, at 00:03:00 and 00:25:00 UTC. *)
Definition two_records_2025 : list LogEntry :=
  [mkLog 1754956980000 "request served"%string (Some "INFO"%string) None None;
   mkLog 1754958300000 "payment failed"%string (Some "ERROR"%string) None None].

(** Two records of 2001-09-09, at 01:46:30 and 01:47:30 UTC, either side of
    the instant 10^12 milliseconds. *)
Definition two_records_2001 : list LogEntry :=
  [mkLog 999999990000 "request served"%string (Some "INFO"%string) None None;
   mkLog 1000000050000 "request served"%string (Some "INFO"%string) None None].

End BucketSpec.

Module Numeral.

Import Decimal.
Local Open Scope Z_scope.

(** The decimal digits of a number, for reasoning about [Js.toString]:
    the [k] lowest digits, the lowest first, as a [uint] and, the highest
    first, as a string. *)
Definition ldigit (d : Z) (tail : uint) : uint :=
  match d with
  | 0 => D0 tail | 1 => D1 tail | 2 => D2 tail | 3 => D3 tail | 4 => D4 tail
  | 5 => D5 tail | 6 => D6 tail | 7 => D7 tail | 8 => D8 tail | _ => D9 tail
  end.

Fixpoint ldigits (k : nat) (n : Z) : uint :=
  match k with
  | O => Nil
  | S k' => ldigit (n mod 10) (ldigits k' (n / 10))
  end.

Definition digit_char (d : Z) : ascii :=
  match d with
  | 0 => "0" | 1 => "1" | 2 => "2" | 3 => "3" | 4 => "4"
  | 5 => "5" | 6 => "6" | 7 => "7" | 8 => "8" | _ => "9"
  end%char.

Fixpoint fixed (k : nat) (n : Z) : string :=
  match k with
  | O => EmptyString
  | S k' => (fixed k' (n / 10) ++ String (digit_char (n mod 10)) EmptyString)%string
  end.

(** A case per digit. *)
Ltac digit_cases d H :=
  assert (d = 0 \/ d = 1 \/ d = 2 \/ d = 3 \/ d = 4 \/ d = 5 \/ d = 6 \/ d = 7 \/ d = 8 \/ d = 9)
    as H by lia;
  destruct H as [H|[H|[H|[H|[H|[H|[H|[H|[H|H]]]]]]]]]; subst d.

End Numeral.

(* ------------------------------------------------------------------ *)
(** * What the further properties are stated with *)

Module TopSpec.

Import Log Chart GroupSpec PieChart.
Local Open Scope string_scope.

(** The slices of a pie: each label with its count. *)
Definition slices (pie : PieData) : list (string * Z) := combine (labels pie) (data pie).

(** A pie shows the [top] largest groups of the records: as many slices as
    there are groups, up to [top]; no label twice; each slice with the
    number of records of its group; the larger slices first; no group left
    out that is larger than a slice shown; each slice in the colour of its
    label. *)
Definition top_slices (top : nat) (groupBy : GroupBy) (logs : list LogEntry)
    (pie : PieData) : Prop :=
  List.length (labels pie) = Nat.min top (List.length (counts groupBy logs))
  /\ List.length (data pie) = List.length (labels pie)
  /\ NoDup (labels pie)
  /\ (forall label count, In (label, count) (slices pie) ->
        count = records_in_group groupBy "unknown" label logs /\ 0 < count)
  /\ StronglySorted (fun a b => b <= a) (data pie)
  /\ (forall key count, ~ In key (labels pie) -> In count (data pie) ->
        records_in_group groupBy "unknown" key logs <= count)
  /\ colors pie = map getLogLevelColor (labels pie).

End TopSpec.

(** Division by the constants of the charts, as a product. *)
Ltac constant_divisions :=
  unfold Qdiv in *;
  change (/ 10)%Q with (1 # 10)%Q in *;
  change (/ 1000)%Q with (1 # 1000)%Q in *.

Module HeatmapSpec.

Import Log HeatmapChart.

(** The cell of a day and an hour. *)
Definition cell (grid : list (list Z)) (day hour : nat) : Z := nth hour (nth day grid []) 0.

(** How many records fall on a day of the week and an hour of the day. *)
Definition records_at (timezoneOffset : Z) (day hour : nat) (logs : list LogEntry) : Z :=
  Z.of_nat (List.length
    (filter (fun log => (getDay timezoneOffset (_time log) =? day)%nat
                        && (getHours timezoneOffset (_time log) =? hour)%nat) logs)).

End HeatmapSpec.

Module QueryTextSpec.

Import JsString QueryBuilder QuerySpec.
Local Open Scope string_scope.

(** A clause as typed: field, operator and value, the value never quoted. *)
Definition clause_text (f : Filter) : string := field f ++ operator f ++ value f.

(** The valid clauses as typed, one after the other. *)
Definition clauses_text (filters : list Filter) : string :=
  String.concat "" (map clause_text (filter is_valid_clause filters)).

End QueryTextSpec.

Module LevelSpec.

Import JsString.
Local Open Scope string_scope.

(** The five classes of levels that the class and the colour tell apart. *)
Inductive Tier := tier_debug | tier_info | tier_warn | tier_error | tier_fatal.

Definition tier_of (level : string) : Tier :=
  let upper := toUpperCase level in
  if String.eqb upper "DEBUG" then tier_debug
  else if String.eqb upper "WARN" || String.eqb upper "WARNING" then tier_warn
  else if String.eqb upper "ERROR" then tier_error
  else if String.eqb upper "FATAL" || String.eqb upper "CRITICAL" then tier_fatal
  else tier_info.

End LevelSpec.

Module ServiceSpec.

Import Log.
Local Open Scope string_scope.

(** The service a record is counted under, and the level it is counted as. *)
Definition service_key (log : LogEntry) : string := or_default (service log) "unknown".
Definition level_key (log : LogEntry) : string :=
  JsString.toUpperCase (or_default (level log) "INFO").

(** The records of a service, and those of them of a level. *)
Definition records_of (name : string) (logs : list LogEntry) : list LogEntry :=
  filter (fun log => String.eqb (service_key log) name) logs.
Definition records_at_level (level : string) (logs : list LogEntry) : list LogEntry :=
  filter (fun log => String.eqb (level_key log) level) logs.

End ServiceSpec.

Module DriftSpec.

Import Drift DriftDetectionChart.
Local Open Scope string_scope.

(** The rows that an alert filter selects. *)
Definition selected (alertFilter : AlertFilter) (data : list DriftRecord) : list DriftRecord :=
  match alertFilter with
  | filter_all => data
  | filter_warning => filter (fun d => alertLevel_eqb (alertLevel d) warning) data
  | filter_critical => filter (fun d => alertLevel_eqb (alertLevel d) critical) data
  end.

(** The rows of a timestamp. *)
Definition rows_at (t : string) (data : list DriftRecord) : list DriftRecord :=
  filter (fun d => String.eqb (timestamp d) t) data.

(** What the rows of the comparison are sorted by. *)
Definition rank (sortBy : BaselineComparisonChart.SortBy)
    (row : BaselineComparisonChart.BaselineComparisonData) : Q :=
  match sortBy with
  | BaselineComparisonChart.by_delta => Qabs (BaselineComparisonChart.delta row)
  | BaselineComparisonChart.by_percentage => Qabs (BaselineComparisonChart.percentageChange row)
  | BaselineComparisonChart.by_current => BaselineComparisonChart.currentPeriod row
  end.

(** A source of random numbers that always gives one half. *)
Definition always_half (k : nat) : Q := 1 # 2.

End DriftSpec.

Module ArcSpec.

Import PieArcs.
Local Open Scope Q_scope.

(** Arcs that tile the angles from one angle to another: each starts where
    the one before it ends, and none is empty. *)
Fixpoint tiled (from : Q) (arcs : list Arc) (to : Q) : Prop :=
  match arcs with
  | [] => from == to
  | a :: rest => startAngle a == from /\ startAngle a < endAngle a /\ tiled (endAngle a) rest to
  end.

End ArcSpec.

(* ------------------------------------------------------------------ *)
(** * Properties of the query model *)

Module QueryModelFacts.

Import JsString QueryBuilder Utils QuerySpec.
Local Open Scope string_scope.

Lemma prefix_empty (s : string) : prefix EmptyString s = true.
Proof. destruct s; reflexivity. Qed.

(** [includes] with a one-character needle is membership of that character. *)
Lemma includes_char (c : ascii) (s : string) :
  includes s (String c EmptyString) = existsb (Ascii.eqb c) (chars s).
Proof.
  induction s as [|b s IH]; [reflexivity|].
  cbn [includes prefix chars list_ascii_of_string existsb].
  destruct (ascii_dec c b) as [->|Hne].
  - rewrite prefix_empty, Ascii.eqb_refl. reflexivity.
  - apply Ascii.eqb_neq in Hne. rewrite Hne. exact IH.
Qed.

Lemma existsb_eqb_In (c : ascii) (l : list ascii) :
  existsb (Ascii.eqb c) l = true <-> In c l.
Proof.
  rewrite existsb_exists. split.
  - intros [x [Hin Heq]]. apply Ascii.eqb_eq in Heq. now subst.
  - intros Hin. exists c. split; [assumption | apply Ascii.eqb_refl].
Qed.

(** The value is quoted exactly when it holds a space or a colon. *)
Lemma needsQuotes_iff (v : string) :
  needsQuotes v = true <-> In " "%char (chars v) \/ In ":"%char (chars v).
Proof.
  unfold needsQuotes. rewrite orb_true_iff, !includes_char, !existsb_eqb_In. reflexivity.
Qed.

Lemma truthy_false_iff (s : string) : truthy s = false <-> s = EmptyString.
Proof. destruct s; split; intros H; try reflexivity; discriminate. Qed.

Lemma truthy_true_iff (s : string) : truthy s = true <-> s <> EmptyString.
Proof. destruct s; split; intros H; try reflexivity; try discriminate. now contradiction H. Qed.

Lemma truthy_eqb (s : string) : truthy s = negb (String.eqb s EmptyString).
Proof. destruct s; reflexivity. Qed.

Lemma valid_filter_eq (filters : list Filter) :
  filter (fun f => truthy (field f) && truthy (value f)) filters = filter is_valid_clause filters.
Proof.
  apply filter_ext. intros f. unfold is_valid_clause. now rewrite !truthy_eqb.
Qed.

(** ** Validation *)

Lemma trimStart_blank (s : string) :
  trimStart s = EmptyString <-> forallb is_whitespace (chars s) = true.
Proof.
  induction s as [|c s IH]; cbn [trimStart chars list_ascii_of_string forallb].
  - split; reflexivity.
  - destruct (is_whitespace c); cbn [andb].
    + exact IH.
    + split; discriminate.
Qed.

Lemma trimEnd_empty (s : string) :
  trimEnd s = EmptyString <-> forallb is_whitespace (chars s) = true.
Proof.
  induction s as [|c s IH]; cbn [trimEnd chars list_ascii_of_string forallb].
  - split; reflexivity.
  - destruct (trimEnd s) as [|d t] eqn:E.
    + destruct (is_whitespace c); cbn [andb].
      * split; intros _; [apply IH|]; reflexivity.
      * split; discriminate.
    + split; [discriminate|].
      intros H. apply andb_true_iff in H as [_ H]. apply IH in H. discriminate.
Qed.

Lemma trimStart_head (s : string) :
  match trimStart s with
  | EmptyString => True
  | String c _ => is_whitespace c = false
  end.
Proof.
  induction s as [|c s IH]; cbn [trimStart]; [exact I|].
  destruct (is_whitespace c) eqn:E; [exact IH | exact E].
Qed.

(** [trim] leaves nothing exactly when every character is white space. *)
Lemma trim_blank (s : string) :
  truthy (trim s) = false <-> forallb is_whitespace (chars s) = true.
Proof.
  rewrite truthy_false_iff. unfold trim. rewrite trimEnd_empty.
  pose proof (trimStart_head s) as Hhead.
  split.
  - intros H. apply trimStart_blank.
    destruct (trimStart s) as [|c t]; [reflexivity|].
    cbn [chars list_ascii_of_string forallb] in H. rewrite Hhead in H. discriminate.
  - intros H. apply trimStart_blank in H. rewrite H. reflexivity.
Qed.

Lemma count_matches_count_occ (c : ascii) (s : string) :
  count_matches c s = count_occ ascii_dec (chars s) c.
Proof.
  induction s as [|d s IH]; [reflexivity|].
  cbn [count_matches chars list_ascii_of_string count_occ].
  destruct (ascii_dec d c) as [->|Hne].
  - rewrite Ascii.eqb_refl. now rewrite IH.
  - apply Ascii.eqb_neq in Hne. rewrite Hne. exact IH.
Qed.

Lemma mod2_odd (n : nat) : negb (n mod 2 =? 0)%nat = Nat.odd n.
Proof.
  rewrite <- Nat.negb_even. f_equal.
  destruct (Nat.even n) eqn:E.
  - apply Nat.even_spec in E. destruct E as [k ->].
    apply Nat.eqb_eq. rewrite Nat.mul_comm. apply Nat.Div0.mod_mul.
  - apply Nat.eqb_neq. intros H.
    assert (Nat.even n = true) as E'.
    { apply Nat.even_spec. exists (n / 2)%nat.
      pose proof (Nat.div_mod_eq n 2). lia. }
    congruence.
Qed.


(** ** The built query *)

Lemma has_space_or_colon_includes (v : string) :
  needsQuotes v = has_space_or_colon v.
Proof.
  unfold needsQuotes, has_space_or_colon. rewrite !includes_char.
  induction (chars v) as [|c l IH]; [reflexivity|].
  cbn [existsb]. rewrite <- IH.
  rewrite (Ascii.eqb_sym " "%char c), (Ascii.eqb_sym ":"%char c).
  destruct (Ascii.eqb c " "), (Ascii.eqb c ":"),
    (existsb (Ascii.eqb " "%char) l), (existsb (Ascii.eqb ":"%char) l); reflexivity.
Qed.

Lemma renderFilter_spec (f : Filter) :
  renderFilter f = render_clause has_space_or_colon f.
Proof.
  unfold renderFilter, render_clause, quoted. now rewrite has_space_or_colon_includes.
Qed.

(** A clause with an empty field or an empty value leaves the query as it
    is without the clause. *)
Lemma buildQuery_skips_invalid (before after : list Filter) (f : Filter) :
  field f = EmptyString \/ value f = EmptyString ->
  buildQueryFromFilters (before ++ f :: after) = buildQueryFromFilters (before ++ after).
Proof.
  intros H. unfold buildQueryFromFilters.
  rewrite !filter_app. cbn [filter].
  assert (truthy (field f) && truthy (value f) = false) as ->; [|reflexivity].
  destruct H as [-> | ->]; [reflexivity | apply andb_false_r].
Qed.

(** (C4, as amended) [buildQueryFromFilters] leaves out every clause whose
    field or value is empty, renders each remaining clause as
    field, operator, value with the value in double quotes exactly when it
    holds a space or a colon, joins the rendered clauses with " AND " in
    input order, and gives the match-all token when no clause remains. *)
Theorem buildQuery_quotes_on_space_or_colon (filters : list Filter) :
  buildQueryFromFilters filters = build_spec has_space_or_colon filters.
Proof.
  unfold buildQueryFromFilters, build_spec.
  rewrite valid_filter_eq.
  destruct (filter is_valid_clause filters) as [|f valid] eqn:E; [reflexivity|].
  cbn [List.length Nat.eqb]. f_equal.
  apply map_ext. exact renderFilter_spec.
Qed.

(** (C4, as stated) A value with a tab holds white space, and the built
    query leaves it unquoted. *)
Lemma buildQuery_tab_value_unquoted :
  let f := mkFilter "1" "msg" "=" (String "a" (String "009" "b")) in
  has_whitespace_or_colon (value f) = true /\
  buildQueryFromFilters [f] = field f ++ operator f ++ value f /\
  build_spec has_whitespace_or_colon [f] = field f ++ operator f ++ quoted (value f) /\
  String.eqb (buildQueryFromFilters [f]) (build_spec has_whitespace_or_colon [f]) = false.
Proof. cbv zeta. repeat split; vm_compute; reflexivity. Qed.

(** ** The operator table *)

(** (C5) The table has six operators with six labels; the labels
    "not contains" and "regex not match" carry the same token, so the
    tokens are five. *)
Theorem operators_share_a_token :
  List.length OPERATORS = 6%nat /\
  NoDup (map op_label OPERATORS) /\
  token_of OPERATORS "not contains" = Some "!~" /\
  token_of OPERATORS "regex not match" = Some "!~" /\
  List.length (nodup string_dec (map op_value OPERATORS)) = 5%nat.
Proof.
  split; [reflexivity|]. split.
  - cbn. repeat constructor; cbn; intuition discriminate.
  - repeat split; vm_compute; reflexivity.
Qed.

(** ** Validation *)

Lemma validate_is_validate_spec (query : string) :
  validateLogsQLQuery query = validate_spec query.
Proof.
  unfold validateLogsQLQuery, validate_spec.
  rewrite !count_matches_count_occ, mod2_odd.
  destruct (forallb is_whitespace (chars query)) eqn:B.
  - apply trim_blank in B. rewrite B. reflexivity.
  - destruct (truthy (trim query)) eqn:T; [reflexivity|].
    apply trim_blank in T. congruence.
Qed.

(** (C8) Validation reports the empty-query reason for a blank query, else
    the parentheses reason when the counts of the two parentheses differ,
    else the quotes reason when the number of double quotes is odd, and is
    valid otherwise; the four examples of the specification follow. *)
Theorem validate_matches_spec :
  (forall query, validateLogsQLQuery query = validate_spec query) /\
  validateLogsQLQuery "(a=1)" = valid_query /\
  validateLogsQLQuery "(a=1" = mismatched_parentheses /\
  validateLogsQLQuery ("a=" ++ dquote ++ "b") = mismatched_quotes /\
  validateLogsQLQuery EmptyString = empty_query /\
  validateLogsQLQuery "   " = empty_query.
Proof.
  split; [exact validate_is_validate_spec|].
  repeat split; vm_compute; reflexivity.
Qed.

End QueryModelFacts.

(* ------------------------------------------------------------------ *)
(** * Properties of the transport adapter *)

Module ApiFacts.

Import JsString Api ApiSpec QueryModelFacts.
Local Open Scope string_scope.

Section Normalize.

Variable JSON_parse : string -> option json.

(** A string body: the truthy parsed values of its non-blank lines, in
    order; a line that does not parse is skipped. *)
Lemma normalize_string (body : string) :
  normalize JSON_parse (JString body) = JArray (parse_jsonl JSON_parse body)
  /\ is_array (normalize JSON_parse (JString body)) = true.
Proof. split; reflexivity. Qed.

Lemma parse_jsonl_members (body : string) (v : json) :
  In v (parse_jsonl JSON_parse body) <->
  truthy v = true /\
  exists line, In line (split LF (trim body)) /\ truthy (JString (trim line)) = true
               /\ parse_line JSON_parse line = v.
Proof.
  unfold parse_jsonl. rewrite filter_In, in_map_iff.
  split.
  - intros [[line [Hv Hin]] Ht]. apply filter_In in Hin as [Hin Hnb].
    split; [assumption|]. exists line. auto.
  - intros [Ht [line [Hin [Hnb Hv]]]]. split; [|assumption].
    exists line. split; [assumption|]. apply filter_In. auto.
Qed.

(** An array body is taken as it is. *)
Lemma normalize_array (items : list json) :
  normalize JSON_parse (JArray items) = JArray items.
Proof. reflexivity. Qed.

(** An object whose [values] property is an array is unwrapped to it. *)
Lemma normalize_object_values (fields : list (string * json)) (items : list json) :
  lookup "values" fields = Some (JArray items) ->
  normalize JSON_parse (JObject fields) = JArray items.
Proof. intros H. cbn [normalize]. rewrite H. reflexivity. Qed.

(** An object without a [values] property, or with a falsy one, becomes a
    sequence of one. *)
Lemma normalize_object_single (fields : list (string * json)) :
  match lookup "values" fields with Some v => truthy v = false | None => True end ->
  normalize JSON_parse (JObject fields) = JArray [JObject fields].
Proof.
  intros H. cbn [normalize]. destruct (lookup "values" fields) as [v|]; [|reflexivity].
  rewrite H. reflexivity.
Qed.

(** Every other body (null, a number, a boolean) gives the empty sequence. *)
Lemma normalize_scalar (data : json) :
  match data with JString _ | JArray _ | JObject _ => False | _ => True end ->
  normalize JSON_parse data = JArray [].
Proof. destruct data; intros H; try contradiction; reflexivity. Qed.

(** The result is a sequence unless the body is an object whose [values]
    property is truthy and no array. *)
Lemma normalize_is_array (data : json) :
  is_array (normalize JSON_parse data) = false ->
  exists fields v, data = JObject fields /\ lookup "values" fields = Some v
                   /\ truthy v = true /\ is_array v = false.
Proof.
  destruct data; cbn [normalize is_array]; try discriminate.
  destruct (lookup "values" fields) as [v|] eqn:E; [|discriminate].
  destruct (truthy v) eqn:T; [|discriminate].
  intros H. exists fields, v. auto.
Qed.

End Normalize.

(** ** Lines *)

Lemma split_app_sep (sep : ascii) (s1 s2 : string) :
  existsb (Ascii.eqb sep) (chars s1) = false ->
  split sep (s1 ++ String sep s2) = s1 :: split sep s2.
Proof.
  induction s1 as [|c s1 IH]; intros H.
  - cbn [append split]. now rewrite Ascii.eqb_refl.
  - cbn [chars list_ascii_of_string existsb] in H.
    apply orb_false_iff in H as [Hc H].
    cbn [append split]. rewrite Ascii.eqb_sym, Hc.
    fold (chars s1) in H. rewrite (IH H). reflexivity.
Qed.

Lemma split_no_sep (sep : ascii) (s : string) :
  existsb (Ascii.eqb sep) (chars s) = false -> split sep s = [s].
Proof.
  induction s as [|c s IH]; intros H; [reflexivity|].
  cbn [chars list_ascii_of_string existsb] in H.
  apply orb_false_iff in H as [Hc H].
  cbn [split]. rewrite Ascii.eqb_sym, Hc.
  fold (chars s) in H. rewrite (IH H). reflexivity.
Qed.

Lemma trimStart_clean (s rest : string) :
  starts_clean s = true -> trimStart (s ++ rest) = s ++ rest.
Proof.
  destruct s as [|c s]; [discriminate|].
  cbn [starts_clean append trimStart]. intros H.
  apply negb_true_iff in H. now rewrite H.
Qed.

Lemma append_empty_r (s t : string) : s ++ t = EmptyString -> t = EmptyString.
Proof. destruct s; [trivial | discriminate]. Qed.

Lemma trimEnd_app (s t : string) :
  trimEnd t <> EmptyString -> trimEnd (s ++ t) = s ++ trimEnd t.
Proof.
  intros Ht. induction s as [|c s IH]; [reflexivity|].
  cbn [append trimEnd]. rewrite IH.
  destruct (s ++ trimEnd t) eqn:E; [|reflexivity].
  apply append_empty_r in E. contradiction.
Qed.

Lemma ends_clean_trimEnd (s : string) :
  ends_clean s = true -> trimEnd s = s /\ s <> EmptyString.
Proof.
  unfold ends_clean. intros H. apply andb_true_iff in H as [Hne Heq].
  apply String.eqb_eq in Heq. apply truthy_true_iff in Hne. auto.
Qed.

Lemma clean_line_trim (s : string) :
  clean_line s = true -> trim s = s /\ JsString.truthy (trim s) = true.
Proof.
  unfold clean_line. intros H.
  apply andb_true_iff in H as [H _]. apply andb_true_iff in H as [Hs He].
  apply ends_clean_trimEnd in He as [He Hne].
  assert (trim s = s) as E.
  { unfold trim. replace s with (s ++ EmptyString) at 1.
    - rewrite (trimStart_clean _ _ Hs).
      replace (s ++ EmptyString) with s; [exact He|].
      clear. induction s; cbn; congruence.
    - clear. induction s; cbn; congruence. }
  split; [exact E|]. rewrite E. now apply truthy_true_iff.
Qed.


Section Shapes.

Variable JSON_parse : string -> option json.

Lemma trim_two_lines (l1 l2 : string) :
  clean_line l1 = true -> clean_line l2 = true ->
  trim (l1 ++ String LF l2) = l1 ++ String LF l2.
Proof.
  intros H1 H2. unfold clean_line in H1, H2.
  apply andb_true_iff in H1 as [H1 _]. apply andb_true_iff in H1 as [Hs1 _].
  apply andb_true_iff in H2 as [H2 _]. apply andb_true_iff in H2 as [_ He2].
  apply ends_clean_trimEnd in He2 as [He2 Hne2].
  unfold trim. rewrite (trimStart_clean _ _ Hs1).
  assert (trimEnd (String LF l2) = String LF l2) as E.
  { cbn [trimEnd]. rewrite He2. destruct l2; [contradiction | reflexivity]. }
  rewrite trimEnd_app; rewrite E; [reflexivity | discriminate].
Qed.

Lemma parse_jsonl_one_line (line : string) (r : json) :
  clean_line line = true -> JSON_parse line = Some r -> truthy r = true ->
  parse_jsonl JSON_parse line = [r].
Proof.
  intros Hc Hp Ht. unfold parse_jsonl.
  destruct (clean_line_trim _ Hc) as [Etrim Hnb].
  rewrite Etrim.
  assert (no_line_feed line = true) as Hlf.
  { unfold clean_line in Hc. now apply andb_true_iff in Hc as [_ Hc]. }
  apply negb_true_iff in Hlf. rewrite (split_no_sep _ _ Hlf).
  cbn [filter]. rewrite Hnb. cbn [map filter].
  unfold parse_line. rewrite Hp, Ht. reflexivity.
Qed.

Lemma parse_jsonl_two_lines (l1 l2 : string) (r1 r2 : json) :
  clean_line l1 = true -> clean_line l2 = true ->
  JSON_parse l1 = Some r1 -> JSON_parse l2 = Some r2 ->
  truthy r1 = true -> truthy r2 = true ->
  parse_jsonl JSON_parse (l1 ++ String LF l2) = [r1; r2].
Proof.
  intros Hc1 Hc2 Hp1 Hp2 Ht1 Ht2. unfold parse_jsonl.
  rewrite (trim_two_lines _ _ Hc1 Hc2).
  destruct (clean_line_trim _ Hc1) as [_ Hnb1].
  destruct (clean_line_trim _ Hc2) as [_ Hnb2].
  assert (no_line_feed l1 = true) as Hlf1.
  { unfold clean_line in Hc1. now apply andb_true_iff in Hc1 as [_ Hc1]. }
  assert (no_line_feed l2 = true) as Hlf2.
  { unfold clean_line in Hc2. now apply andb_true_iff in Hc2 as [_ Hc2]. }
  apply negb_true_iff in Hlf1, Hlf2.
  rewrite (split_app_sep _ _ _ Hlf1), (split_no_sep _ _ Hlf2).
  cbn [filter]. rewrite Hnb1, Hnb2. cbn [map filter].
  unfold parse_line. rewrite Hp1, Hp2, Ht1, Ht2. reflexivity.
Qed.

(** The three shapes of the specification: two lines of JSON objects and
    the array of the two objects give the same sequence; so do one line,
    the array of its object, and the object itself when it has no [values]
    property. *)
Lemma three_shapes_agree (l1 l2 : string) (o1 o2 : list (string * json)) :
  clean_line l1 = true -> clean_line l2 = true ->
  JSON_parse l1 = Some (JObject o1) -> JSON_parse l2 = Some (JObject o2) ->
  normalize JSON_parse (JString (l1 ++ String LF l2))
    = normalize JSON_parse (JArray [JObject o1; JObject o2])
  /\ normalize JSON_parse (JString l1) = normalize JSON_parse (JArray [JObject o1])
  /\ (lookup "values" o1 = None ->
       normalize JSON_parse (JObject o1) = normalize JSON_parse (JArray [JObject o1])).
Proof.
  intros Hc1 Hc2 Hp1 Hp2. repeat split.
  - cbn [normalize]. f_equal. now apply parse_jsonl_two_lines.
  - cbn [normalize]. f_equal. now apply parse_jsonl_one_line.
  - intros Hv. cbn [normalize]. now rewrite Hv.
Qed.

End Shapes.

(** The three shapes on two example lines. *)
Lemma three_shapes_example :
  normalize example_parse (JString (line_of "1" ++ String LF (line_of "2")))
    = JArray [JObject [("n", JNumber 1)]; JObject [("n", JNumber 2)]]
  /\ normalize example_parse (JString (line_of "1")) = JArray [JObject [("n", JNumber 1)]]
  /\ normalize example_parse (JObject [("n", JNumber 1)]) = JArray [JObject [("n", JNumber 1)]].
Proof.
  destruct (three_shapes_agree example_parse (line_of "1") (line_of "2")
              [("n", JNumber 1)] [("n", JNumber 2)] eq_refl eq_refl eq_refl eq_refl)
    as [H2 [H1 H0]].
  split; [exact H2 | split; [exact H1 | exact (H0 eq_refl)]].
Defined.

(** A line that does not parse is skipped. *)
Example unparseable_line_skipped :
  normalize example_parse
    (JString (line_of "1" ++ String LF "oops" ++ String LF (line_of "2")))
    = JArray [JObject [("n", JNumber 1)]; JObject [("n", JNumber 2)]].
Proof. reflexivity. Qed.

(** The record with a [values] field is such a body. *)
Lemma normalize_is_array_example :
  exists fields v,
    record_with_values_field = JObject fields /\ lookup "values" fields = Some v
    /\ truthy v = true /\ is_array v = false.
Proof. exact (normalize_is_array example_parse record_with_values_field eq_refl). Defined.

(** (C1) A body of one log record that has a field named [values]: the
    result holds the field's string, which is no sequence of records, and
    the record itself is lost.  When the [values] property is a number the
    call throws. *)
Theorem queryLogs_values_property_escapes (JSON_parse : string -> option json) :
  queryLogs JSON_parse record_with_values_field
    = Ok (mkLogsResponse (JString "abc") 3 0)
  /\ is_array (normalize JSON_parse record_with_values_field) = false
  /\ queryLogs JSON_parse object_with_numeric_values
    = Thrown "Failed to query logs: TypeError: values.slice is not a function".
Proof. repeat split. Qed.

End ApiFacts.

(* ------------------------------------------------------------------ *)
(** * Properties of maps, sums and sorting *)

Module MapFacts.

Import JsMap CountSpec.

Section Laws.

Context {K V : Type}.
Variable eqb : K -> K -> bool.
Hypothesis eqb_eq : forall a b, eqb a b = true <-> a = b.

Lemma eqb_refl (a : K) : eqb a a = true.
Proof. now apply eqb_eq. Qed.

Lemma eqb_neq (a b : K) : a <> b -> eqb a b = false.
Proof.
  intros H. destruct (eqb a b) eqn:E; [|reflexivity].
  apply eqb_eq in E. contradiction.
Qed.

Lemma get_set_same (m : list (K * V)) (k : K) (v : V) :
  get eqb (set eqb m k v) k = Some v.
Proof.
  induction m as [|[k' v'] m IH]; cbn [set get].
  - now rewrite eqb_refl.
  - destruct (eqb k' k) eqn:E; cbn [get]; rewrite E; [reflexivity | exact IH].
Qed.

Lemma get_set_other (m : list (K * V)) (k k' : K) (v : V) :
  k <> k' -> get eqb (set eqb m k v) k' = get eqb m k'.
Proof.
  intros Hne. induction m as [|[k0 v0] m IH]; cbn [set get].
  - rewrite (eqb_neq _ _ Hne). reflexivity.
  - destruct (eqb k0 k) eqn:E; cbn [get].
    + apply eqb_eq in E. subst k0. now rewrite (eqb_neq _ _ Hne).
    + destruct (eqb k0 k'); [reflexivity | exact IH].
Qed.

Lemma get_None_not_in (m : list (K * V)) (k : K) :
  get eqb m k = None <-> ~ In k (keys m).
Proof.
  induction m as [|[k' v'] m IH]; cbn [get keys map fst In].
  - tauto.
  - destruct (eqb k' k) eqn:E.
    + apply eqb_eq in E. split; [discriminate | tauto].
    + fold (keys m). rewrite IH. split.
      * intros H [H'|H']; [|tauto]. subst. rewrite eqb_refl in E. discriminate.
      * tauto.
Qed.

(** Setting a key that is there keeps the order of the keys. *)
Lemma keys_set_present (m : list (K * V)) (k : K) (v : V) :
  In k (keys m) -> keys (set eqb m k v) = keys m.
Proof.
  induction m as [|[k' v'] m IH]; cbn [set keys map fst In]; [tauto|].
  intros H. destruct (eqb k' k) eqn:E; [reflexivity|].
  cbn [map fst]. f_equal. apply IH.
  destruct H as [H|H]; [|exact H]. subst. rewrite eqb_refl in E. discriminate.
Qed.

(** Setting a new key puts it last. *)
Lemma keys_set_absent (m : list (K * V)) (k : K) (v : V) :
  ~ In k (keys m) -> keys (set eqb m k v) = keys m ++ [k].
Proof.
  induction m as [|[k' v'] m IH]; cbn [set keys map fst In app]; [reflexivity|].
  intros H. destruct (eqb k' k) eqn:E.
  - apply eqb_eq in E. tauto.
  - cbn [map fst]. f_equal. apply IH. tauto.
Qed.

Lemma get_Some_in (m : list (K * V)) (k : K) (v : V) :
  get eqb m k = Some v -> In k (keys m).
Proof.
  induction m as [|[k' v'] m IH]; cbn [get keys map fst In]; [discriminate|].
  destruct (eqb k' k) eqn:E.
  - intros _. left. now apply eqb_eq.
  - intros H. right. now apply IH.
Qed.

Lemma in_keys_set (m : list (K * V)) (k k' : K) (v : V) :
  In k' (keys (set eqb m k v)) <-> k' = k \/ In k' (keys m).
Proof.
  destruct (get eqb m k) eqn:E.
  - apply get_Some_in in E.
    rewrite (keys_set_present _ _ _ E). split; [tauto|].
    intros [->|H]; assumption.
  - apply get_None_not_in in E. rewrite (keys_set_absent _ _ _ E), in_app_iff.
    cbn [In]. split; [intros [H|[H|[]]]; auto | intros [H|H]; auto].
Qed.

Lemma NoDup_keys_set (m : list (K * V)) (k : K) (v : V) :
  NoDup (keys m) -> NoDup (keys (set eqb m k v)).
Proof.
  intros Hnd. destruct (get eqb m k) eqn:E.
  - apply get_Some_in in E. now rewrite (keys_set_present _ _ _ E).
  - apply get_None_not_in in E. rewrite (keys_set_absent _ _ _ E).
    apply NoDup_app; [assumption | repeat constructor; intros [] | ].
    intros a Ha [Hb|[]]. now subst.
Qed.

(** Setting fresh keys one after the other appends them. *)
Lemma fold_set_fresh (v : V) (ks : list K) (m : list (K * V)) :
  NoDup (keys m ++ ks) ->
  fold_left (fun m k => set eqb m k v) ks m = m ++ map (fun k => (k, v)) ks.
Proof.
  revert m. induction ks as [|k ks IH]; intros m H; cbn [fold_left map].
  - now rewrite app_nil_r.
  - assert (set eqb m k v = m ++ [(k, v)]) as E.
    { apply NoDup_remove_2 in H.
      assert (~ In k (keys m)) as Hk by (intros Hin; apply H, in_or_app; now left).
      clear -Hk eqb_eq. induction m as [|[k' v'] m IHm]; [reflexivity|].
      cbn [set app]. cbn [keys map fst In] in Hk.
      destruct (eqb k' k) eqn:E'; [apply eqb_eq in E'; tauto|].
      f_equal. apply IHm. tauto. }
    rewrite E, IH.
    + rewrite <- app_assoc. reflexivity.
    + unfold keys. rewrite map_app. cbn [map fst].
      rewrite <- app_assoc. exact H.
Qed.

End Laws.


(** ** Sums *)

Lemma fold_add_shift (l : list Z) (a : Z) : fold_left Z.add l a = a + fold_left Z.add l 0.
Proof.
  revert a. induction l as [|x l IH]; intros a; cbn [fold_left]; [lia|].
  rewrite (IH (a + x)), (IH (0 + x)). lia.
Qed.

Lemma sum_nil : Js.sum [] = 0.
Proof. reflexivity. Qed.

Lemma sum_cons (x : Z) (l : list Z) : Js.sum (x :: l) = x + Js.sum l.
Proof. unfold Js.sum. cbn [fold_left]. rewrite fold_add_shift. lia. Qed.

Lemma sum_app (l1 l2 : list Z) : Js.sum (l1 ++ l2) = Js.sum l1 + Js.sum l2.
Proof.
  induction l1 as [|x l1 IH]; cbn [app]; [rewrite sum_nil; lia|].
  rewrite !sum_cons, IH. lia.
Qed.

(** ** The counting loop *)

Section Counting.

Context {K A : Type}.
Variable eqb : K -> K -> bool.
Hypothesis eqb_eq : forall a b, eqb a b = true <-> a = b.
Variable key : A -> K.

Local Abbreviation bump := (CountSpec.bump eqb key).
Local Abbreviation occurrences := (CountSpec.occurrences eqb key).

Lemma sum_values_set (m : list (K * Z)) (k : K) (v : Z) :
  Js.sum (values (set eqb m k v)) = Js.sum (values m) - or0 (get eqb m k) + v.
Proof.
  induction m as [|[k' v'] m IH]; cbn [set get values map snd].
  - rewrite sum_cons, sum_nil. cbn [or0]. lia.
  - destruct (eqb k' k); cbn [values map snd or0].
    + rewrite !sum_cons. lia.
    + fold (values (set eqb m k v)). fold (values m). rewrite !sum_cons, IH. lia.
Qed.

(** Each record adds one to the total of the counts. *)
Lemma sum_values_bump (m : list (K * Z)) (a : A) :
  Js.sum (values (bump m a)) = Js.sum (values m) + 1.
Proof. unfold CountSpec.bump. rewrite sum_values_set. lia. Qed.

Lemma sum_values_fold (l : list A) (m : list (K * Z)) :
  Js.sum (values (fold_left bump l m)) = Js.sum (values m) + Z.of_nat (List.length l).
Proof.
  revert m. induction l as [|a l IH]; intros m; cbn [fold_left List.length]; [lia|].
  rewrite IH, sum_values_bump. lia.
Qed.

Lemma get_bump (m : list (K * Z)) (a : A) (k : K) :
  or0 (get eqb (bump m a) k) = or0 (get eqb m k) + (if eqb (key a) k then 1 else 0).
Proof.
  unfold CountSpec.bump. destruct (eqb (key a) k) eqn:E.
  - apply eqb_eq in E. subst k. rewrite (get_set_same eqb eqb_eq). reflexivity.
  - rewrite (get_set_other eqb eqb_eq); [lia|].
    intros H. apply eqb_eq in H. congruence.
Qed.

(** A key's count is its count before the loop plus its records. *)
Lemma get_fold (l : list A) (m : list (K * Z)) (k : K) :
  or0 (get eqb (fold_left bump l m) k) = or0 (get eqb m k) + occurrences k l.
Proof.
  unfold CountSpec.occurrences.
  revert m. induction l as [|a l IH]; intros m; cbn [fold_left filter List.length]; [lia|].
  rewrite IH, get_bump. destruct (eqb (key a) k); cbn [List.length]; lia.
Qed.

Lemma NoDup_keys_fold (l : list A) (m : list (K * Z)) :
  NoDup (keys m) -> NoDup (keys (fold_left bump l m)).
Proof.
  revert m. induction l as [|a l IH]; intros m H; cbn [fold_left]; [exact H|].
  apply IH. now apply NoDup_keys_set.
Qed.

Lemma in_keys_fold (l : list A) (m : list (K * Z)) (k : K) :
  In k (keys (fold_left bump l m)) <-> In k (keys m) \/ exists a, In a l /\ key a = k.
Proof.
  revert m. induction l as [|a l IH]; intros m; cbn [fold_left In].
  - split; [auto | intros [H|[a [[] _]]]; exact H].
  - rewrite IH. unfold CountSpec.bump at 1. rewrite (in_keys_set eqb eqb_eq). split.
    + intros [[->|H]|[a' [H1 H2]]]; eauto.
    + intros [H|[a' [[->|H1] H2]]]; eauto.
Qed.

(** Records whose keys are all there leave the order of the keys alone. *)
Lemma keys_fold_present (l : list A) (m : list (K * Z)) :
  (forall a, In a l -> In (key a) (keys m)) -> keys (fold_left bump l m) = keys m.
Proof.
  revert m. induction l as [|a l IH]; intros m H; cbn [fold_left]; [reflexivity|].
  assert (keys (bump m a) = keys m) as E.
  { apply (keys_set_present eqb eqb_eq). apply H. now left. }
  rewrite IH; [exact E|]. intros a' Ha'. rewrite E. apply H. now right.
Qed.

(** A map with distinct keys is the list of its keys with their values. *)
Lemma map_by_keys (m : list (K * Z)) :
  NoDup (keys m) -> m = map (fun k => (k, or0 (get eqb m k))) (keys m).
Proof.
  induction m as [|[k v] m IH]; intros H; [reflexivity|].
  cbn [keys map fst get]. rewrite (eqb_refl eqb eqb_eq). cbn [or0]. f_equal.
  inversion H as [|? ? Hnot Hnd]; subst.
  rewrite (IH Hnd) at 1. apply map_ext_in. intros k' Hk'.
  destruct (eqb k k') eqn:E; [|reflexivity].
  apply eqb_eq in E. subst. contradiction.
Qed.

End Counting.


(** ** Sorting *)

Lemma insert_by_perm {A : Type} (before : A -> A -> bool) (x : A) (l : list A) :
  Permutation (Js.insert_by before x l) (x :: l).
Proof.
  induction l as [|y l IH]; cbn [Js.insert_by]; [apply Permutation_refl|].
  destruct (before x y); [apply Permutation_refl|].
  apply perm_trans with (y :: x :: l); [now apply perm_skip | apply perm_swap].
Qed.

(** [sort] rearranges: nothing is lost, nothing is added. *)
Lemma sort_by_perm {A : Type} (before : A -> A -> bool) (l : list A) :
  Permutation (Js.sort_by before l) l.
Proof.
  induction l as [|x l IH]; cbn [Js.sort_by]; [apply perm_nil|].
  apply perm_trans with (x :: Js.sort_by before l);
    [apply insert_by_perm | now apply perm_skip].
Qed.

Lemma sum_perm (l l' : list Z) : Permutation l l' -> Js.sum l = Js.sum l'.
Proof.
  induction 1 as [|x l l' _ IH|x y l|l l' l'' _ IH1 _ IH2].
  - reflexivity.
  - rewrite !sum_cons, IH. reflexivity.
  - rewrite !sum_cons. lia.
  - congruence.
Qed.

Lemma filter_partition_perm {A : Type} (p : A -> bool) (l : list A) :
  Permutation (filter p l ++ filter (fun a => negb (p a)) l) l.
Proof.
  induction l as [|x l IH]; cbn [filter app]; [apply perm_nil|].
  destruct (p x); cbn [negb app].
  - now apply perm_skip.
  - apply Permutation_sym, Permutation_cons_app, Permutation_sym, IH.
Qed.

(** [Object.entries] enumerates every own property once. *)
Lemma entries_perm {V : Type} (o : list (string * V)) :
  Permutation (JsObject.entries o) o.
Proof.
  unfold JsObject.entries.
  eapply perm_trans; [|apply (filter_partition_perm JsObject.is_index)].
  apply Permutation_app_tail, sort_by_perm.
Qed.

(** A list sorted already is left as it is. *)
Lemma sort_by_sorted {A : Type} (before : A -> A -> bool) (l : list A) :
  StronglySorted (fun a b => before a b = true) l -> Js.sort_by before l = l.
Proof.
  induction 1 as [|x l Hs IH Hall]; [reflexivity|].
  cbn [Js.sort_by]. rewrite IH.
  destruct l as [|y l]; [reflexivity|].
  cbn [Js.insert_by]. inversion Hall as [|? ? Hxy _]; subst. now rewrite Hxy.
Qed.

End MapFacts.

(* ------------------------------------------------------------------ *)
(** * Decimal numerals and their order as strings *)

Module NumeralFacts.

Import Decimal Numeral.
Local Open Scope Z_scope.


Lemma of_lu_ldigit (d : Z) (tail : uint) :
  0 <= d < 10 -> DecimalPos.Unsigned.of_lu (ldigit d tail) = (Z.to_N d + 10 * DecimalPos.Unsigned.of_lu tail)%N.
Proof.
  intros Hd. digit_cases d H; cbn [ldigit DecimalPos.Unsigned.of_lu Z.to_N]; lia.
Qed.

Lemma of_lu_ldigits (k : nat) (n : Z) :
  0 <= n < 10 ^ Z.of_nat k -> DecimalPos.Unsigned.of_lu (ldigits k n) = Z.to_N n.
Proof.
  revert n. induction k as [|k IH]; intros n Hn.
  - cbn in *. assert (n = 0) by lia. now subst.
  - cbn [ldigits]. rewrite of_lu_ldigit by (apply Z.mod_pos_bound; lia).
    rewrite IH.
    + pose proof (Z.div_mod n 10). pose proof (Z.mod_pos_bound n 10).
      assert (0 <= n / 10) by (apply Z.div_pos; lia). lia.
    + rewrite Nat2Z.inj_succ, Z.pow_succ_r in Hn by lia.
      split; [apply Z.div_pos; lia | apply Z.div_lt_upper_bound; lia].
Qed.

Lemma revapp_ldigit (d : Z) (rest acc : uint) :
  revapp (ldigit d rest) acc = revapp rest (ldigit d acc).
Proof. unfold ldigit. destruct d as [|p|p]; try reflexivity.
  do 4 (destruct p as [p|p|]; try reflexivity). Qed.

Lemma nzhead_ldigit (d : Z) (acc : uint) :
  1 <= d < 10 -> nzhead (ldigit d acc) = ldigit d acc.
Proof. intros Hd. digit_cases d H; try lia; reflexivity. Qed.

Lemma nzhead_revapp_ldigits (k : nat) (n : Z) (acc : uint) :
  10 ^ Z.of_nat k <= n < 10 ^ Z.of_nat (S k) ->
  nzhead (revapp (ldigits (S k) n) acc) = revapp (ldigits (S k) n) acc.
Proof.
  revert n acc. induction k as [|k IH]; intros n acc Hn.
  - cbn [ldigits]. rewrite revapp_ldigit. cbn [revapp].
    change (10 ^ Z.of_nat 0) with 1 in Hn. change (10 ^ Z.of_nat 1) with 10 in Hn.
    rewrite Z.mod_small by lia. apply nzhead_ldigit. lia.
  - cbn [ldigits]. rewrite revapp_ldigit.
    change (ldigit ((n / 10) mod 10) (ldigits k (n / 10 / 10))) with (ldigits (S k) (n / 10)).
    apply IH.
    rewrite !Nat2Z.inj_succ in Hn. rewrite !Z.pow_succ_r in Hn by lia.
    rewrite Nat2Z.inj_succ, Z.pow_succ_r by lia.
    split; [apply Z.div_le_lower_bound; lia | apply Z.div_lt_upper_bound; lia].
Qed.

Lemma to_uint_ldigits (k : nat) (p : positive) :
  10 ^ Z.of_nat k <= Z.pos p < 10 ^ Z.of_nat (S k) ->
  Pos.to_uint p = rev (ldigits (S k) (Z.pos p)).
Proof.
  intros Hp.
  assert (Pos.of_uint (rev (ldigits (S k) (Z.pos p))) = N.pos p) as E.
  { rewrite DecimalPos.Unsigned.of_uint_alt, DecimalFacts.rev_rev, of_lu_ldigits by lia. reflexivity. }
  pose proof (DecimalPos.Unsigned.to_of (rev (ldigits (S k) (Z.pos p)))) as H.
  rewrite E in H. cbn [N.to_uint] in H. rewrite H.
  pose proof (nzhead_revapp_ldigits k (Z.pos p) Nil Hp) as Hnz.
  fold (rev (ldigits (S k) (Z.pos p))) in Hnz.
  rewrite DecimalFacts.unorm_nzhead; rewrite Hnz; [reflexivity|].
  intros Hnil. apply DecimalFacts.rev_nil_inv in Hnil. cbn [ldigits] in Hnil.
  unfold ldigit in Hnil. destruct (Z.pos p mod 10) as [|q|q]; try discriminate.
  do 4 (destruct q as [q|q|]; try discriminate).
Qed.

Lemma append_assoc (a b c : string) : ((a ++ b) ++ c = a ++ (b ++ c))%string.
Proof. induction a; cbn; congruence. Qed.

Lemma length_append (a b : string) :
  String.length (a ++ b) = (String.length a + String.length b)%nat.
Proof. induction a; cbn; congruence. Qed.

Lemma string_of_revapp (k : nat) (n : Z) (acc : uint) :
  NilEmpty.string_of_uint (revapp (ldigits k n) acc)
  = (fixed k n ++ NilEmpty.string_of_uint acc)%string.
Proof.
  revert n acc. induction k as [|k IH]; intros n acc; [reflexivity|].
  cbn [ldigits fixed]. rewrite revapp_ldigit, IH.
  rewrite append_assoc. f_equal.
  unfold ldigit, digit_char. destruct (n mod 10) as [|q|q]; try reflexivity.
  do 4 (destruct q as [q|q|]; try reflexivity).
Qed.

Lemma append_empty (s : string) : (s ++ EmptyString)%string = s.
Proof. induction s; cbn; congruence. Qed.

(** The decimal numeral of a number of [k + 1] digits. *)
Lemma toString_fixed (k : nat) (n : Z) :
  10 ^ Z.of_nat k <= n < 10 ^ Z.of_nat (S k) -> Js.toString n = fixed (S k) n.
Proof.
  intros Hn. assert (0 < 10 ^ Z.of_nat k) by (apply Z.pow_pos_nonneg; lia).
  destruct n as [|p|p]; try lia.
  unfold Js.toString. cbn [Z.to_int NilZero.string_of_int].
  rewrite (to_uint_ldigits k p Hn). unfold NilZero.string_of_uint.
  assert (rev (ldigits (S k) (Z.pos p)) <> Nil) as Hne.
  { intros Hnil. apply DecimalFacts.rev_nil_inv in Hnil. cbn [ldigits] in Hnil.
    unfold ldigit in Hnil. destruct (Z.pos p mod 10) as [|q|q]; try discriminate.
    do 4 (destruct q as [q|q|]; try discriminate). }
  destruct (rev (ldigits (S k) (Z.pos p))) eqn:E; try contradiction;
    rewrite <- E; unfold rev; rewrite string_of_revapp; apply append_empty.
Qed.

Lemma fixed_length (k : nat) (n : Z) : String.length (fixed k n) = k.
Proof.
  revert n. induction k as [|k IH]; intros n; [reflexivity|].
  cbn [fixed]. rewrite length_append, IH. cbn. lia.
Qed.

Lemma compare_append (s1 s2 t1 t2 : string) :
  String.length s1 = String.length s2 ->
  String.compare (s1 ++ t1) (s2 ++ t2)
  = match String.compare s1 s2 with Eq => String.compare t1 t2 | c => c end.
Proof.
  revert s2. induction s1 as [|c1 s1 IH]; intros [|c2 s2] Hlen; try discriminate.
  - reflexivity.
  - cbn [append String.compare]. destruct (Ascii.compare c1 c2); try reflexivity.
    apply IH. now injection Hlen.
Qed.

Lemma digit_char_compare (x y : Z) :
  0 <= x < 10 -> 0 <= y < 10 -> Ascii.compare (digit_char x) (digit_char y) = (x ?= y).
Proof.
  intros Hx Hy. digit_cases x H; digit_cases y H0; reflexivity.
Qed.

Lemma fixed_compare (k : nat) (a b : Z) :
  0 <= a < 10 ^ Z.of_nat k -> 0 <= b < 10 ^ Z.of_nat k ->
  String.compare (fixed k a) (fixed k b) = (a ?= b).
Proof.
  revert a b. induction k as [|k IH]; intros a b Ha Hb.
  - cbn in *. assert (a = 0) by lia. assert (b = 0) by lia. now subst.
  - rewrite Nat2Z.inj_succ, Z.pow_succ_r in Ha, Hb by lia.
    cbn [fixed]. rewrite compare_append by (now rewrite !fixed_length).
    rewrite IH by (split; [apply Z.div_pos; lia | apply Z.div_lt_upper_bound; lia]).
    cbn [String.compare].
    rewrite digit_char_compare by (apply Z.mod_pos_bound; lia).
    pose proof (Z.div_mod a 10). pose proof (Z.mod_pos_bound a 10).
    pose proof (Z.div_mod b 10). pose proof (Z.mod_pos_bound b 10).
    destruct (Z.compare_spec (a / 10) (b / 10));
      destruct (Z.compare_spec (a mod 10) (b mod 10));
      destruct (Z.compare_spec a b); try reflexivity; lia.
Qed.

(** Numbers with equally many digits are ordered as their numerals. *)
Lemma toString_leb (k : nat) (a b : Z) :
  10 ^ Z.of_nat k <= a -> a <= b -> b < 10 ^ Z.of_nat (S k) ->
  String.leb (Js.toString a) (Js.toString b) = true.
Proof.
  intros Ha Hab Hb. rewrite !(toString_fixed k) by lia.
  assert (0 < 10 ^ Z.of_nat k) by (apply Z.pow_pos_nonneg; lia).
  unfold String.leb. rewrite fixed_compare by lia.
  destruct (Z.compare_spec a b); try reflexivity; lia.
Qed.

End NumeralFacts.

(* ------------------------------------------------------------------ *)
(** * Properties of the grouped charts *)

Module GroupFacts.

Import Log Chart MapFacts CountSpec GroupSpec.
Local Open Scope string_scope.

Lemma string_eqb_eq (a b : string) : String.eqb a b = true <-> a = b.
Proof. apply String.eqb_eq. Qed.

(** The counting loop of the charts is the generic one, keyed by the
    grouping field or the placeholder. *)
Lemma count_by_fold (groupBy : GroupBy) (placeholder : string) (logs : list LogEntry) :
  count_by groupBy placeholder logs
  = fold_left (bump String.eqb (group_key groupBy placeholder)) logs [].
Proof. reflexivity. Qed.

Lemma count_by_total (groupBy : GroupBy) (placeholder : string) (logs : list LogEntry) :
  Js.sum (JsMap.values (count_by groupBy placeholder logs)) = Z.of_nat (List.length logs).
Proof. rewrite count_by_fold, sum_values_fold. reflexivity. Qed.

Lemma count_by_key (groupBy : GroupBy) (placeholder key : string) (logs : list LogEntry) :
  JsMap.or0 (JsMap.get String.eqb (count_by groupBy placeholder logs) key)
  = records_in_group groupBy placeholder key logs.
Proof. rewrite count_by_fold, (get_fold _ string_eqb_eq). reflexivity. Qed.

Lemma count_by_NoDup (groupBy : GroupBy) (placeholder : string) (logs : list LogEntry) :
  NoDup (JsMap.keys (count_by groupBy placeholder logs)).
Proof. rewrite count_by_fold. apply (NoDup_keys_fold _ string_eqb_eq). constructor. Qed.

Lemma count_by_keys (groupBy : GroupBy) (placeholder key : string) (logs : list LogEntry) :
  In key (JsMap.keys (count_by groupBy placeholder logs))
  <-> exists log, In log logs /\ group_key groupBy placeholder log = key.
Proof.
  rewrite count_by_fold, (in_keys_fold _ string_eqb_eq). cbn [JsMap.keys map In]. tauto.
Qed.

(** A record without the grouping field, or with an empty one, is counted
    under the placeholder. *)
Lemma absent_field_placeholder (groupBy : GroupBy) (placeholder : string) (log : LogEntry) :
  field_of groupBy log = None \/ field_of groupBy log = Some EmptyString ->
  group_key groupBy placeholder log = placeholder.
Proof. unfold group_key. intros [-> | ->]; reflexivity. Qed.


End GroupFacts.

(* ------------------------------------------------------------------ *)
(** * Empty input *)

Module EmptyInputFacts.

Import Log Chart.
Local Open Scope string_scope.

(** (C9) On a sequence of no records every aggregation returns its empty
    result: the error analysis has no errors, rate 0 and trend "stable";
    each gauge has value 0; the frequency counts, the time bucketings, the
    heatmap and the pie, donut, treemap and radar groupings are empty.
    Each is a value of its result type, so none throws and none is NaN. *)
Theorem empty_input_results
    (now timezoneOffset : Z) (chartHeight : Q)
    (layoutTreemap : list TreemapChart.TreemapItem -> Q -> Q -> list TreemapChart.TreemapItem) :
  ErrorChart.ErrorChart now []
    = ErrorChart.mkErrorData [] ErrorChart.TrendStable 0 None None
  /\ ErrorChart.trend_name (ErrorChart.trend (ErrorChart.ErrorChart now [])) = "stable"
  /\ (forall metric, GaugeChart.GaugeChart metric [] = GaugeChart.mkGaugeData 0 "#10b981")
  /\ LogLevelChart.LogLevelChart [] = ([], [])
  /\ ServiceChart.ServiceChart [] = []
  /\ HostChart.HostChart now [] = []
  /\ TimelineChart.TimelineChart [] = mkChartData [] [[]]
  /\ (forall groupBy, StackedAreaChart.StackedAreaChart groupBy [] = mkChartData [] [[]])
  /\ HeatmapChart.HeatmapChart timezoneOffset [] = HeatmapChart.mkHeatmapData [] 0 None
  /\ (forall groupBy, PieChart.PieChart groupBy [] = PieChart.mkPieData [] [] [])
  /\ (forall groupBy, PieChart.DonutChart groupBy [] = PieChart.mkPieData [] [] [])
  /\ (forall groupBy, TreemapChart.TreemapChart layoutTreemap groupBy chartHeight [] = [])
  /\ RadarChart.RadarChart [] = [].
Proof. repeat split. Qed.

End EmptyInputFacts.

(* ------------------------------------------------------------------ *)
(** * Properties of numbers and of the drift classification *)

Module NumberFacts.

Local Open Scope Q_scope.

Lemma gt_iff (a b : Q) : negb (Qle_bool a b) = true <-> b < a.
Proof.
  rewrite negb_true_iff. split.
  - intros H. apply Qnot_le_lt. intros Hle. apply Qle_bool_iff in Hle. congruence.
  - intros H. destruct (Qle_bool a b) eqn:E; [|reflexivity].
    apply Qle_bool_iff in E. exfalso. exact (Qlt_not_le _ _ H E).
Qed.

Lemma gt_false_iff (a b : Q) : negb (Qle_bool a b) = false <-> a <= b.
Proof. rewrite negb_false_iff. apply Qle_bool_iff. Qed.

(** [Math.round] is within one half of its argument, a tie going up. *)
Lemma Math_round_bounds (x : Q) :
  x - (1 # 2) < inject_Z (Js.Math_round x) /\ inject_Z (Js.Math_round x) <= x + (1 # 2).
Proof.
  unfold Js.Math_round. split.
  - pose proof (Qlt_floor (x + (1 # 2))) as H.
    rewrite inject_Z_plus in H. cbn [inject_Z] in H.
    apply Qplus_lt_l with (z := 1).
    setoid_replace (x - (1 # 2) + 1) with (x + (1 # 2)) by ring.
    exact H.
  - apply Qfloor_le.
Qed.

(** Rounding to two decimals moves a number by at most five thousandths. *)
Lemma round2_close (x : Q) :
  x - (1 # 200) < Js.round2 x /\ Js.round2 x <= x + (1 # 200).
Proof.
  unfold Js.round2. destruct (Math_round_bounds (x * 100)) as [Hlo Hhi].
  set (r := inject_Z (Js.Math_round (x * 100))) in *.
  split.
  - apply Qlt_shift_div_l; [reflexivity|].
    setoid_replace ((x - (1 # 200)) * 100) with (x * 100 - (1 # 2)) by ring.
    exact Hlo.
  - apply Qle_shift_div_r; [reflexivity|].
    setoid_replace ((x + (1 # 200)) * 100) with (x * 100 + (1 # 2)) by ring.
    exact Hhi.
Qed.

(** [toFixed(1)] moves a number by at most one twentieth. *)
Lemma toFixed1_close (x : Q) :
  x - (1 # 20) < Js.toFixed1 x /\ Js.toFixed1 x <= x + (1 # 20).
Proof.
  unfold Js.toFixed1.
  pose proof (Qlt_floor (x * 10 + (1 # 2))) as Hlo.
  pose proof (Qfloor_le (x * 10 + (1 # 2))) as Hhi.
  rewrite inject_Z_plus in Hlo. cbn [inject_Z] in Hlo.
  set (r := inject_Z (Qfloor (x * 10 + (1 # 2)))) in *.
  split.
  - apply Qlt_shift_div_l; [reflexivity|].
    apply Qplus_lt_l with (z := 1).
    setoid_replace ((x - (1 # 20)) * 10 + 1) with (x * 10 + (1 # 2)) by ring.
    exact Hlo.
  - apply Qle_shift_div_r; [reflexivity|].
    setoid_replace ((x + (1 # 20)) * 10) with (x * 10 + (1 # 2)) by ring.
    exact Hhi.
Qed.

(** A whole number is its own rounding to a tenth. *)
Lemma toFixed1_integer (z : Z) : Js.toFixed1 (inject_Z z) == inject_Z z.
Proof.
  unfold Js.toFixed1.
  assert (Qfloor (inject_Z z * 10 + (1 # 2)) = (z * 10)%Z) as ->.
  { unfold Qfloor, Qplus, Qmult, inject_Z. cbn [Qnum Qden].
    change (Z.pos (1 * 1 * 2)) with 2%Z. change (Z.pos (1 * 1)) with 1%Z.
    replace (z * 10 * 2 + 1 * 1)%Z with (1 + (z * 10) * 2)%Z by lia.
    rewrite Z.div_add by lia. reflexivity. }
  rewrite inject_Z_mult. field.
Qed.

End NumberFacts.

Module DriftFacts.

Import Drift NumberFacts.
Local Open Scope string_scope.
Local Open Scope Q_scope.




Section Generated.

Variable random : nat -> Q.

(** Every generated record is the record of a baseline and a current count
    drawn as the code draws them. *)
Lemma generateDriftData_records (w k : Q) (r : DriftRecord) :
  In r (generateDriftData random w k) ->
  exists i service severity timestamp,
    r = driftRecord w k service severity timestamp
          (random (2 * i) * 100 + 10)
          ((random (2 * i) * 100 + 10) * ((3 # 10) + random (2 * i + 1) * (14 # 10))).
Proof.
  unfold generateDriftData. intros H. apply in_map_iff in H.
  destruct H as [[i [[service severity] timestamp]] [Hr _]].
  exists i, service, severity, timestamp. now symmetry.
Qed.

Lemma generateDriftData_length (w k : Q) :
  List.length (generateDriftData random w k) = 112%nat.
Proof. reflexivity. Qed.

End Generated.

End DriftFacts.

(* ------------------------------------------------------------------ *)
(** * Properties of the gauges *)

Module GaugeFacts.

Import Log GaugeChart RateSpec NumberFacts.
Local Open Scope string_scope.
Local Open Scope Q_scope.

Lemma Qmin_le (a b : Q) : a <= b -> Js.Qmin a b = a.
Proof. intros H. unfold Js.Qmin. apply Qle_bool_iff in H. now rewrite H. Qed.

Lemma Qmin_upper (a b : Q) : Js.Qmin a b <= b.
Proof.
  unfold Js.Qmin. destruct (Qle_bool a b) eqn:E.
  - now apply Qle_bool_iff.
  - apply Qle_refl.
Qed.

(** A share of a positive total is at most 100 percent. *)
Lemma percent_le_100 (count total : Z) :
  (0 <= count <= total)%Z -> (0 < total)%Z -> percent count total <= 100.
Proof.
  intros Hc Ht. unfold percent.
  assert (0 < inject_Z total) as HtQ.
  { change (inject_Z 0 < inject_Z total). rewrite <- Zlt_Qlt. exact Ht. }
  assert (inject_Z count / inject_Z total <= 1) as H1.
  { apply Qle_shift_div_r; [exact HtQ|]. rewrite Qmult_1_l.
    rewrite <- Zle_Qle. lia. }
  setoid_replace 100 with (1 * 100) at 2 by ring.
  apply Qmult_le_compat_r; [exact H1 | discriminate].
Qed.

Lemma count_level_spec (name : string) (logs : list LogEntry) :
  count_level name logs = count_where (has_level name) logs.
Proof. reflexivity. Qed.

Lemma count_where_bounds (test : LogEntry -> bool) (logs : list LogEntry) :
  (0 <= count_where test logs <= Z.of_nat (List.length logs))%Z.
Proof.
  unfold count_where. pose proof (filter_length_le test logs). lia.
Qed.

Lemma last_is_nth (logs : list LogEntry) (d : LogEntry) :
  last logs d = nth (List.length logs - 1) logs d.
Proof.
  induction logs as [|a logs IH]; [reflexivity|].
  destruct logs as [|b logs]; [reflexivity|].
  change (last (a :: b :: logs) d) with (last (b :: logs) d). rewrite IH.
  cbn [List.length Nat.sub nth]. now rewrite Nat.sub_0_r.
Qed.

Lemma timeSpan_observed (logs : list LogEntry) : timeSpan logs == observed_span logs.
Proof.
  destruct logs as [|first [|second rest]]; try reflexivity.
  unfold timeSpan, observed_span.
  change (1 <? List.length (first :: second :: rest))%nat with true. cbv iota.
  rewrite last_is_nth. reflexivity.
Qed.

Lemma gauge_value_rate (name : string) (logs : list LogEntry) :
  logs <> [] ->
  Js.Qmin (inject_Z (count_level name logs) / inject_Z (Z.of_nat (List.length logs)) * 100) 100
  == percent (count_where (has_level name) logs) (Z.of_nat (List.length logs)).
Proof.
  intros Hne. rewrite count_level_spec.
  rewrite Qmin_le; [reflexivity|].
  apply percent_le_100; [apply count_where_bounds|].
  destruct logs; [contradiction | cbn [List.length]; lia].
Qed.

(** (C7, as amended) For a sequence with at least one record the
    error-rate gauge is the share of the records whose level is exactly
    ERROR, in percent; the warning-rate gauge is the share of the records
    whose level is exactly WARN; the activity gauge is the number of records
    per minute over the span from the first record to the last, against the
    reference of 10 per minute, at most 100, and 100 when the span is zero. *)
Theorem gauge_metric_values (logs : list LogEntry) :
  logs <> [] ->
  let total := Z.of_nat (List.length logs) in
  value (GaugeChart error_rate logs) == percent (count_where (has_level "ERROR") logs) total
  /\ value (GaugeChart warning_rate logs) == percent (count_where (has_level "WARN") logs) total
  /\ (~ observed_span logs == 0 ->
      value (GaugeChart activity_level logs)
      == activity_percent (List.length logs) (observed_span logs))
  /\ (observed_span logs == 0 -> value (GaugeChart activity_level logs) == 100)
  /\ value (GaugeChart activity_level logs) <= 100.
Proof.
  intros Hne total.
  destruct logs as [|log logs]; [contradiction|].
  set (all := log :: logs) in *.
  assert (value (GaugeChart activity_level all) = Js.Qmin (activity_value all) 100) as Ea
    by reflexivity.
  assert (activity_value all <= 100) as Hle.
  { unfold activity_value. destruct (Qeq_bool (timeSpan all) 0); [apply Qle_refl|].
    apply Qmin_upper. }
  repeat split.
  - apply (gauge_value_rate "ERROR" all Hne).
  - apply (gauge_value_rate "WARN" all Hne).
  - intros Hspan. rewrite Ea, (Qmin_le _ _ Hle).
    unfold activity_value, activity_percent.
    destruct (Qeq_bool (timeSpan all) 0) eqn:E.
    + apply Qeq_bool_iff in E. rewrite timeSpan_observed in E. contradiction.
    + unfold Js.Qmin.
      assert (inject_Z (Z.of_nat (List.length all)) / timeSpan all / 10 * 100
              == inject_Z (Z.of_nat (List.length all)) / observed_span all / 10 * 100) as Eq
        by (now rewrite timeSpan_observed).
      destruct (Qle_bool (inject_Z (Z.of_nat (List.length all)) / timeSpan all / 10 * 100) 100) eqn:L1;
      destruct (Qle_bool (inject_Z (Z.of_nat (List.length all)) / observed_span all / 10 * 100) 100) eqn:L2;
        try exact Eq; try reflexivity.
      * apply Qle_bool_iff in L1. rewrite Eq in L1. apply Qle_bool_iff in L1. congruence.
      * apply Qle_bool_iff in L2. rewrite <- Eq in L2. apply Qle_bool_iff in L2. congruence.
  - intros Hspan. rewrite Ea, (Qmin_le _ _ Hle).
    unfold activity_value. rewrite <- timeSpan_observed in Hspan.
    apply Qeq_bool_iff in Hspan. rewrite Hspan. reflexivity.
  - rewrite Ea. apply Qmin_upper.
Qed.


(** Three records over two minutes: a third of them ERROR, a third WARN,
    one and a half records per minute. *)
Lemma gauge_metric_values_example :
  let logs := [mkLog 1754956800000 "payment failed" (Some "ERROR") (Some "payment-service") None;
               mkLog 1754956860000 "slow response" (Some "WARN") (Some "api-gateway") None;
               mkLog 1754956920000 "request served" (Some "INFO") (Some "api-gateway") None] in
  value (GaugeChart error_rate logs) == 100 # 3
  /\ value (GaugeChart warning_rate logs) == 100 # 3
  /\ value (GaugeChart activity_level logs) == 15.
Proof.
  cbv zeta.
  match goal with
  | |- value (GaugeChart error_rate ?l) == _ /\ _ =>
      destruct (gauge_metric_values l) as (H1 & H2 & H3 & _); [discriminate|]
  end.
  cbv zeta in H1, H2. split; [|split].
  - rewrite H1. reflexivity.
  - rewrite H2. reflexivity.
  - rewrite H3; [reflexivity | discriminate].
Defined.

(** (C7, as stated) A FATAL record and a record with level "error" are in
    the error tier, yet the error-rate gauge of each alone is 0; so is the
    warning-rate gauge of a record with level "warn". *)
Lemma gauge_error_rate_ignores_fatal :
  let fatal := mkLog 1754956800000 "disk failure" (Some "FATAL") (Some "database-service") None in
  let lower := mkLog 1754956800000 "payment failed" (Some "error") (Some "payment-service") None in
  let warn := mkLog 1754956800000 "slow response" (Some "warn") (Some "api-gateway") None in
  is_error fatal = true
  /\ value (GaugeChart error_rate [fatal]) == 0
  /\ percent (count_where is_error [fatal]) 1 == 100
  /\ is_error lower = true
  /\ value (GaugeChart error_rate [lower]) == 0
  /\ value (GaugeChart warning_rate [warn]) == 0.
Proof. cbv zeta. repeat split. Qed.

End GaugeFacts.

(* ------------------------------------------------------------------ *)
(** * Properties of the error analysis *)

Module ErrorFacts.

Import Log ErrorChart RateSpec ErrorSpec MapFacts CountSpec NumberFacts.
Local Open Scope Z_scope.

(** A record counts as an error exactly when its level, upper-cased, is
    ERROR, FATAL or CRITICAL. *)
Lemma is_error_iff (log : LogEntry) : is_error log = true <-> in_error_tier log.
Proof.
  unfold is_error, in_error_tier. destruct (level log) as [s|].
  - cbn [existsb]. rewrite andb_true_iff, !orb_true_iff, !String.eqb_eq. split.
    + intros [_ H]. exists s. split; [reflexivity|]. intuition (auto; discriminate).
    + intros [s' [E H]]. injection E as <-. split.
      * destruct s; [|reflexivity]. cbn in H. intuition discriminate.
      * intuition auto.
  - split; [discriminate|]. intros [s [E _]]. discriminate.
Qed.

Lemma z_eqb_eq (a b : Z) : Z.eqb a b = true <-> a = b.
Proof. apply Z.eqb_eq. Qed.

Lemma hour_key (now i : Z) : (now - i * oneHour) / oneHour = current_hour now - i.
Proof.
  unfold current_hour.
  replace (now - i * oneHour) with (now + (- i) * oneHour) by lia.
  rewrite Z.div_add by (unfold oneHour; lia). lia.
Qed.

Lemma window_NoDup (now : Z) : NoDup (window now).
Proof.
  unfold window. apply Finite.Injective_map_NoDup.
  - intros a b H. lia.
  - apply NoDup_rev, seq_NoDup.
Qed.

(** The loop over the 24 hours leaves a zero per hour of the window. *)
Lemma init_hours_window (now : Z) :
  init_hours now = map (fun k => (k, 0)) (window now).
Proof.
  transitivity (fold_left (fun m k => JsMap.set Z.eqb m k 0) (window now) []).
  - unfold init_hours, window.
    generalize (@nil (Z * Z)). generalize (rev (seq 0 24)).
    induction l as [|i l IH]; intros m; [reflexivity|].
    cbn [map fold_left]. rewrite hour_key. apply IH.
  - rewrite (fold_set_fresh Z.eqb z_eqb_eq); [reflexivity|].
    cbn [JsMap.keys map app]. apply window_NoDup.
Qed.

Lemma keys_init_hours (now : Z) : JsMap.keys (init_hours now) = window now.
Proof.
  rewrite init_hours_window. unfold JsMap.keys. rewrite map_map. cbn [fst]. apply map_id.
Qed.

Lemma get_init_hours (now k : Z) : JsMap.or0 (JsMap.get Z.eqb (init_hours now) k) = 0.
Proof.
  rewrite init_hours_window. induction (window now) as [|h w IH]; [reflexivity|].
  cbn [map JsMap.get]. destruct (Z.eqb h k); [reflexivity | exact IH].
Qed.

Lemma in_window_iff (now h : Z) :
  In h (window now) <-> current_hour now - 23 <= h <= current_hour now.
Proof.
  unfold window. rewrite in_map_iff. split.
  - intros [i [<- Hi]]. apply in_rev, in_seq in Hi. lia.
  - intros H. exists (Z.to_nat (current_hour now - h)). split; [lia|].
    apply -> in_rev. apply in_seq. lia.
Qed.

(** When every error record falls in the window, [hourlyData] lists the
    error records of each hour of the window, the oldest hour first. *)
Lemma hourly_in_window (now : Z) (errorLogs : list LogEntry) :
  (forall log, In log errorLogs -> In (hour_of log) (window now)) ->
  hourly now errorLogs
  = map (fun h => occurrences Z.eqb hour_of h errorLogs) (window now).
Proof.
  intros Hin. unfold hourly.
  change (fold_left count_hour errorLogs (init_hours now))
    with (fold_left (bump Z.eqb hour_of) errorLogs (init_hours now)).
  set (final := fold_left (bump Z.eqb hour_of) errorLogs (init_hours now)).
  assert (JsMap.keys final = window now) as Hkeys.
  { unfold final. rewrite (keys_fold_present _ z_eqb_eq); [apply keys_init_hours|].
    intros log Hlog. rewrite keys_init_hours. now apply Hin. }
  assert (NoDup (JsMap.keys final)) as Hnd by (rewrite Hkeys; apply window_NoDup).
  rewrite (map_by_keys _ z_eqb_eq final Hnd) at 1.
  unfold JsMap.values. rewrite map_map. cbn [snd]. rewrite Hkeys.
  apply map_ext. intros h. unfold final.
  rewrite (get_fold _ z_eqb_eq), get_init_hours. lia.
Qed.

Lemma filter_filter_and {A : Type} (p q : A -> bool) (l : list A) :
  filter q (filter p l) = filter (fun a => p a && q a) l.
Proof.
  induction l as [|a l IH]; [reflexivity|].
  cbn [filter]. destruct (p a); cbn [filter andb]; [destruct (q a)|]; now rewrite IH.
Qed.

Lemma occurrences_errors (h : Z) (logs : list LogEntry) :
  occurrences Z.eqb hour_of h (filter is_error logs) = errors_in_hour h logs.
Proof.
  unfold occurrences, errors_in_hour, count_where. now rewrite filter_filter_and.
Qed.

Lemma errors_in_window_spec (now : Z) (logs : list LogEntry) :
  errors_in_window now logs = true ->
  forall log, In log (filter is_error logs) -> In (hour_of log) (window now).
Proof.
  unfold errors_in_window. intros H log Hlog.
  apply filter_In in Hlog as [Hin Herr].
  rewrite forallb_forall in H. specialize (H log Hin).
  rewrite Herr in H. cbn [negb orb] in H.
  apply andb_true_iff in H as [H1 H2].
  apply in_window_iff. lia.
Qed.

(** The two sums the trend compares. *)
Lemma recent_and_previous (now : Z) (logs : list LogEntry) :
  errors_in_window now logs = true ->
  Js.sum (Js.slice_last 3 (hourly now (filter is_error logs))) = recent_errors now logs
  /\ Js.sum (Js.slice_neg 6 3 (hourly now (filter is_error logs))) = previous_errors now logs.
Proof.
  intros H. rewrite (hourly_in_window _ _ (errors_in_window_spec _ _ H)).
  unfold window, recent_errors, previous_errors.
  set (H0 := current_hour now).
  cbn [seq rev app map Js.slice_last Js.slice_neg List.length Nat.sub skipn firstn Z.of_nat
       Pos.of_succ_nat Pos.succ].
  rewrite !occurrences_errors, Z.sub_0_r.
  unfold Js.sum. cbn [fold_left]. split; lia.
Qed.

Lemma trend_of_spec (recent previous : Z) :
  0 <= previous ->
  (trend_of recent previous = TrendUp <-> (inject_Z previous * (12 # 10) < inject_Z recent)%Q)
  /\ (trend_of recent previous = TrendDown
      <-> (inject_Z recent < inject_Z previous * (8 # 10))%Q)
  /\ (trend_of recent previous = TrendStable
      <-> (inject_Z previous * (8 # 10) <= inject_Z recent)%Q
          /\ (inject_Z recent <= inject_Z previous * (12 # 10))%Q).
Proof.
  intros Hp. unfold trend_of.
  destruct (negb (Qle_bool (inject_Z recent) (inject_Z previous * (12 # 10)))) eqn:Eup.
  - apply gt_iff in Eup. repeat split; try discriminate; auto.
    + intros Hd. exfalso. apply (Qlt_irrefl (inject_Z recent)).
      eapply Qlt_trans; [exact Hd|]. eapply Qle_lt_trans; [|exact Eup].
      unfold Qle, Qmult, inject_Z. cbn. lia.
    + intros [_ Hle]. exfalso. exact (Qlt_not_le _ _ Eup Hle).
  - apply gt_false_iff in Eup.
    destruct (negb (Qle_bool (inject_Z previous * (8 # 10)) (inject_Z recent))) eqn:Edown.
    + apply gt_iff in Edown. repeat split; try discriminate; auto.
      * intros Hu. exfalso. exact (Qlt_not_le _ _ Hu Eup).
      * intros [Hle _]. exfalso. exact (Qlt_not_le _ _ Edown Hle).
    + apply gt_false_iff in Edown. repeat split; try discriminate; auto.
      * intros Hu. exfalso. exact (Qlt_not_le _ _ Hu Eup).
      * intros Hd. exfalso. exact (Qlt_not_le _ _ Hd Edown).
Qed.


Lemma toFixed1_comp (x y : Q) : (x == y)%Q -> (Js.toFixed1 x == Js.toFixed1 y)%Q.
Proof. intros H. unfold Js.toFixed1. now rewrite H. Qed.

Lemma percent_of_hundred (e : Z) : (percent e 100 == inject_Z e)%Q.
Proof. unfold percent. change (inject_Z 100) with 100%Q. field. Qed.




(** An error record older than the 24 hours gets a bucket of its own after
    the 24, among the last three of [hourlyData]: the trend is up although
    none of the 6 most recent hourly buckets holds an error. *)
Lemma error_trend_counts_old_record :
  let logs := [mkLog 1754780400000 "connection refused"%string (Some "ERROR"%string) None None] in
  errors_in_window 1754956801000 logs = false
  /\ recent_errors 1754956801000 logs = 0
  /\ previous_errors 1754956801000 logs = 0
  /\ trend (ErrorChart 1754956801000 logs) = TrendUp.
Proof. cbv zeta. repeat split. Qed.

End ErrorFacts.

(* ------------------------------------------------------------------ *)
(** * Properties of the time bucketing *)

Module BucketFacts.

Import Log Chart BucketSpec MapFacts CountSpec.
Local Open Scope Z_scope.

(** (C2) The stacked chart over two records of 2025-08-12, 00:03 and 00:25:
    the buckets between them start at 00:00, 00:10 and 00:20, but the chart
    emits 00:00, 00:03, 00:13, 00:20 and 00:23, so keys that are no bucket
    starts, and no key for 00:10.  The timeline over two records either
    side of 10^12 ms emits its two buckets in descending order. *)
Theorem stacked_buckets_not_aligned :
  bucket_range StackedAreaChart.bucketSize 1754956980000 1754958300000
    = [1754956800000; 1754957400000; 1754958000000]
  /\ StackedAreaChart.timestamps ByLevel two_records_2025
     = [1754956800000; 1754956980000; 1754957580000; 1754958000000; 1754958180000]
  /\ forallb (aligned StackedAreaChart.bucketSize)
       (StackedAreaChart.timestamps ByLevel two_records_2025) = false
  /\ existsb (Z.eqb 1754957400000) (StackedAreaChart.timestamps ByLevel two_records_2025) = false
  /\ StackedAreaChart.stackedData ByLevel two_records_2025
     = [[1; 0; 0; 0; 0]; [1; 0; 0; 1; 0]]
  /\ TimelineChart.timestamps two_records_2001 = [1000000020000; 999999960000]
  /\ ascending (TimelineChart.timestamps two_records_2001) = false.
Proof. repeat split; vm_compute; reflexivity. Qed.


(** ** The loop over time *)

Section Loop.

Context {S : Type}.
Variables (width from to : Z) (body : Z -> S -> S).
Hypothesis width_pos : 0 < width.

Lemma for_time_steps (n : nat) (start : Z) (s : S) :
  (forall k, (k < n)%nat -> start + Z.of_nat k * width <= to) ->
  for_time n width start to body s
  = fold_left (fun s t => body t s) (progression start width n) s.
Proof.
  revert start s. induction n as [|n IH]; intros start s H; [reflexivity|].
  cbn [for_time]. assert ((start <=? to) = true) as ->.
  { apply Z.leb_le. specialize (H 0%nat). cbn in H. lia. }
  unfold progression. cbn [seq map fold_left].
  replace (start + Z.of_nat 0 * width) with start by lia.
  rewrite IH.
  - unfold progression. rewrite <- seq_shift, map_map. f_equal.
    apply map_ext. intros k. lia.
  - intros k Hk. specialize (H (Datatypes.S k)). lia.
Qed.

(** The fuel is the number of times the loop runs its body ... *)
Lemma for_time_iterations (s : S) :
  for_time (iterations width from to) width from to body s
  = fold_left (fun s t => body t s) (progression from width (iterations width from to)) s.
Proof.
  apply for_time_steps. unfold iterations. intros k Hk.
  destruct (from <=? to) eqn:E; [|lia]. apply Z.leb_le in E.
  assert (Z.of_nat k <= (to - from) / width).
  { assert (0 <= (to - from) / width) by (apply Z.div_pos; lia). lia. }
  assert (width * ((to - from) / width) <= to - from)
    by (apply Z.mul_div_le; lia).
  nia.
Qed.

(** ... and the loop has ended by then: more fuel changes nothing. *)
Lemma for_time_fuel (extra : nat) (s : S) :
  for_time (iterations width from to + extra) width from to body s
  = for_time (iterations width from to) width from to body s.
Proof.
  unfold iterations. destruct (from <=? to) eqn:E.
  - apply Z.leb_le in E.
    assert (0 <= (to - from) / width) as Hq by (apply Z.div_pos; lia).
    assert (to - from < width * ((to - from) / width + 1)) as Hend.
    { pose proof (Z.mod_pos_bound (to - from) width width_pos).
      pose proof (Z.div_mod (to - from) width). lia. }
    remember (Z.to_nat ((to - from) / width + 1)) as n eqn:En.
    assert (to < from + Z.of_nat n * width) as Hn by (subst n; nia).
    clear En Hend Hq E. revert from s Hn.
    induction n as [|n IH]; intros start s Hn.
    + cbn [Nat.add for_time]. destruct extra; [reflexivity|].
      cbn [for_time]. assert ((start <=? to) = false) as -> by (apply Z.leb_gt; lia).
      reflexivity.
    + cbn [Nat.add for_time]. destruct (start <=? to); [|reflexivity].
      apply IH. lia.
  - cbn [Nat.add]. destruct extra; [reflexivity|].
    cbn [for_time]. now rewrite E.
Qed.

End Loop.

(** ** Smallest and largest instant *)

Lemma Math_min_spec (x : Z) (l : list Z) :
  In (Js.Math_min x l) (x :: l) /\ forall y, In y (x :: l) -> Js.Math_min x l <= y.
Proof.
  unfold Js.Math_min. revert x. induction l as [|a l IH]; intros x; cbn [fold_left].
  - split; [now left|]. intros y [<-|[]]. lia.
  - destruct (IH (Z.min x a)) as [Hin Hle]. split.
    + destruct Hin as [Hin|Hin]; [|right; now right].
      rewrite <- Hin. destruct (Z.min_spec x a) as [[_ ->]|[_ ->]]; [now left | right; now left].
    + intros y [<-|[<-|Hy]].
      * etransitivity; [apply Hle; now left | apply Z.le_min_l].
      * etransitivity; [apply Hle; now left | apply Z.le_min_r].
      * apply Hle. now right.
Qed.

Lemma Math_max_spec (x : Z) (l : list Z) :
  In (Js.Math_max x l) (x :: l) /\ forall y, In y (x :: l) -> y <= Js.Math_max x l.
Proof.
  unfold Js.Math_max. revert x. induction l as [|a l IH]; intros x; cbn [fold_left].
  - split; [now left|]. intros y [<-|[]]. lia.
  - destruct (IH (Z.max x a)) as [Hin Hle]. split.
    + destruct Hin as [Hin|Hin]; [|right; now right].
      rewrite <- Hin. destruct (Z.max_spec x a) as [[_ ->]|[_ ->]]; [right; now left | now left].
    + intros y [<-|[<-|Hy]].
      * etransitivity; [apply Z.le_max_l | apply Hle; now left].
      * etransitivity; [apply Z.le_max_r | apply Hle; now left].
      * apply Hle. now right.
Qed.


(** ** The buckets of the timeline *)

Section Timeline.

Import TimelineChart.

Local Abbreviation width := TimelineChart.bucketSize.
Local Abbreviation bucket := (fun log : LogEntry => bucket_of width (_time log)).

Lemma width_pos : 0 < width.
Proof. reflexivity. Qed.

Lemma bucket_of_step (t : Z) (k : nat) :
  bucket_of width (t + Z.of_nat k * width) = bucket_of width t + Z.of_nat k * width.
Proof. unfold bucket_of. rewrite Z.div_add by (unfold width; lia). lia. Qed.

Lemma progression_In (start : Z) (n : nat) (b : Z) :
  In b (progression start width n) <-> exists k, (k < n)%nat /\ b = start + Z.of_nat k * width.
Proof.
  unfold progression. rewrite in_map_iff. split.
  - intros [k [<- Hk]]. apply in_seq in Hk. exists k. split; [lia | reflexivity].
  - intros [k [Hk ->]]. exists k. split; [reflexivity | apply in_seq; lia].
Qed.

Lemma progression_NoDup (start : Z) (n : nat) : NoDup (progression start width n).
Proof.
  unfold progression. apply Finite.Injective_map_NoDup; [|apply seq_NoDup].
  intros a b H. unfold width, TimelineChart.bucketSize in H. lia.
Qed.

Lemma progression_S (start : Z) (n : nat) :
  progression start width (Datatypes.S n)
  = progression start width n ++ [start + Z.of_nat n * width].
Proof. unfold progression. rewrite seq_S, map_app. reflexivity. Qed.

(** After the initialisation: a zero for the bucket of every step. *)
Lemma init_buckets_progression (minTime maxTime : Z) :
  init_buckets minTime maxTime
  = map (fun b => (b, 0))
        (progression (bucket_of width minTime) width (iterations width minTime maxTime)).
Proof.
  unfold init_buckets. rewrite (for_time_iterations _ _ _ _ width_pos).
  set (n := iterations width minTime maxTime).
  transitivity (fold_left (fun m b => JsMap.set Z.eqb m b 0)
                  (progression (bucket_of width minTime) width n) []).
  - unfold progression. generalize (@nil (Z * Z)). generalize (seq 0 n).
    induction l as [|k l IH]; intros m; [reflexivity|].
    cbn [map fold_left]. unfold Js.floor_to at 2.
    fold (bucket_of width (minTime + Z.of_nat k * width)).
    rewrite bucket_of_step. apply IH.
  - rewrite (fold_set_fresh Z.eqb Z.eqb_eq); [reflexivity|].
    cbn [JsMap.keys map app]. apply progression_NoDup.
Qed.

Lemma div_sub_bounds (a b : Z) :
  (a - b) / width <= a / width - b / width <= (a - b) / width + 1.
Proof.
  pose proof width_pos as Hw.
  pose proof (Z.div_mod a width) as Ha. pose proof (Z.mod_pos_bound a width Hw) as Ha'.
  pose proof (Z.div_mod b width) as Hb. pose proof (Z.mod_pos_bound b width Hw) as Hb'.
  pose proof (Z.div_mod (a - b) width) as Hc.
  pose proof (Z.mod_pos_bound (a - b) width Hw) as Hc'.
  unfold width, TimelineChart.bucketSize in *. nia.
Qed.

Lemma bucket_index (minTime t : Z) :
  minTime <= t ->
  bucket_of width t
  = bucket_of width minTime + Z.of_nat (Z.to_nat (t / width - minTime / width)) * width.
Proof.
  intros H. unfold bucket_of.
  assert (minTime / width <= t / width) by (apply Z.div_le_mono; [apply width_pos | exact H]).
  rewrite Z2Nat.id by lia. lia.
Qed.

(** Filling keeps the keys an arithmetic progression from the first bucket;
    only the bucket of the latest record may still have to be added. *)
Lemma fill_keys (minTime maxTime : Z) (logs : list LogEntry) :
  (forall log, In log logs -> minTime <= _time log <= maxTime) ->
  forall (m : list (Z * Z)) (len : nat),
    JsMap.keys m = progression (bucket_of width minTime) width len ->
    (iterations width minTime maxTime <= len
     <= Z.to_nat (maxTime / width - minTime / width) + 1)%nat ->
    exists len',
      (len <= len' <= Z.to_nat (maxTime / width - minTime / width) + 1)%nat
      /\ JsMap.keys (fold_left fill_step logs m)
         = progression (bucket_of width minTime) width len'.
Proof.
  induction logs as [|log logs IH]; intros Hrange m len Hkeys Hlen; cbn [fold_left].
  - exists len. split; [lia | exact Hkeys].
  - assert (minTime <= _time log <= maxTime) as Ht by (apply Hrange; now left).
    assert (minTime <= maxTime) as Hmm by lia.
    set (j := Z.to_nat (_time log / width - minTime / width)).
    assert (bucket_of width (_time log) = bucket_of width minTime + Z.of_nat j * width) as Eb
      by (apply bucket_index; lia).
    assert (j <= Z.to_nat (maxTime / width - minTime / width))%nat as Hj.
    { unfold j. apply Z2Nat.inj_le.
      - assert (minTime / width <= _time log / width)
          by (apply Z.div_le_mono; [apply width_pos | lia]). lia.
      - assert (minTime / width <= maxTime / width)
          by (apply Z.div_le_mono; [apply width_pos | lia]). lia.
      - assert (_time log / width <= maxTime / width)
          by (apply Z.div_le_mono; [apply width_pos | lia]). lia. }
    assert (Z.to_nat (maxTime / width - minTime / width) <= iterations width minTime maxTime)%nat
      as Hiter.
    { unfold iterations. assert ((minTime <=? maxTime) = true) as -> by (apply Z.leb_le; lia).
      pose proof (div_sub_bounds maxTime minTime). lia. }
    unfold fill_step at 2. fold (bucket_of width (_time log)). unfold Js.floor_to.
    fold (bucket_of width (_time log)).
    destruct (Nat.lt_ge_cases j len) as [Hlt|Hge].
    + apply (IH (fun l H => Hrange l (or_intror H)) _ len); [|exact Hlen].
      rewrite (keys_set_present Z.eqb Z.eqb_eq); [exact Hkeys|].
      rewrite Hkeys, Eb. apply progression_In. exists j. auto.
    + assert (j = len) as Ej by lia. subst len.
      destruct (IH (fun l H => Hrange l (or_intror H))
                  (JsMap.set Z.eqb m (bucket_of width (_time log))
                     (JsMap.or0 (JsMap.get Z.eqb m (bucket_of width (_time log))) + 1))
                  (Datatypes.S j)) as [len' [Hlen' Hk']].
      * rewrite (keys_set_absent Z.eqb Z.eqb_eq).
        -- rewrite Hkeys, Eb, progression_S. reflexivity.
        -- rewrite Hkeys, Eb. intros Hin. apply progression_In in Hin as [k [Hk Hin]].
           unfold width, TimelineChart.bucketSize in Hin. lia.
      * lia.
      * exists len'. split; [lia | exact Hk'].
Qed.

Lemma get_zeros (keys : list Z) (b : Z) :
  JsMap.or0 (JsMap.get Z.eqb (map (fun k => (k, 0)) keys) b) = 0.
Proof.
  induction keys as [|h keys IH]; [reflexivity|].
  cbn [map JsMap.get]. destruct (Z.eqb h b); [reflexivity | exact IH].
Qed.

Lemma fill_is_bump (logs : list LogEntry) (m : list (Z * Z)) :
  fold_left fill_step logs m = fold_left (CountSpec.bump Z.eqb bucket) logs m.
Proof. reflexivity. Qed.

(** The keys of the timeline's Map are the buckets from the bucket of the
    earliest record to the bucket of the latest, ascending, none missing. *)
Lemma timeline_keys (log : LogEntry) (logs : list LogEntry) :
  JsMap.keys (buckets_of (log :: logs))
  = bucket_range width
      (Js.Math_min (_time log) (map _time logs)) (Js.Math_max (_time log) (map _time logs)).
Proof.
  set (minTime := Js.Math_min (_time log) (map _time logs)).
  set (maxTime := Js.Math_max (_time log) (map _time logs)).
  set (all := log :: logs).
  change (buckets_of all) with (fold_left fill_step all (init_buckets minTime maxTime)).
  destruct (Math_min_spec (_time log) (map _time logs)) as [Hmin_in Hmin].
  destruct (Math_max_spec (_time log) (map _time logs)) as [Hmax_in Hmax].
  fold minTime in Hmin_in, Hmin. fold maxTime in Hmax_in, Hmax.
  change (_time log :: map _time logs) with (map _time all) in *.
  assert (forall l, In l all -> minTime <= _time l <= maxTime) as Hrange.
  { intros l Hl. split; [apply Hmin | apply Hmax]; now apply in_map. }
  assert (minTime <= maxTime) as Hmm.
  { apply in_map_iff in Hmin_in as [l [<- Hl]]. apply Hrange, Hl. }
  assert (minTime / width <= maxTime / width) as Hdiv
    by (apply Z.div_le_mono; [apply width_pos | exact Hmm]).
  destruct (fill_keys minTime maxTime all Hrange (init_buckets minTime maxTime)
              (iterations width minTime maxTime)) as [len [Hlen Hkeys]].
  - rewrite init_buckets_progression. unfold JsMap.keys. rewrite map_map. apply map_id.
  - split; [lia|]. unfold iterations.
    assert ((minTime <=? maxTime) = true) as -> by (apply Z.leb_le; lia).
    pose proof (div_sub_bounds maxTime minTime). lia.
  - rewrite Hkeys. unfold bucket_range. f_equal.
    assert (In (bucket_of width maxTime) (JsMap.keys (fold_left fill_step all (init_buckets minTime maxTime))))
      as Hin.
    { rewrite fill_is_bump. apply (in_keys_fold Z.eqb Z.eqb_eq). right.
      apply in_map_iff in Hmax_in as [l [El Hl]]. exists l. split; [exact Hl|].
      cbn beta. now rewrite El. }
    rewrite Hkeys in Hin. apply progression_In in Hin as [k [Hk Ek]].
    rewrite (bucket_index minTime maxTime Hmm) in Ek.
    pose proof width_pos as Hw.
    assert (Z.of_nat (Z.to_nat (maxTime / width - minTime / width)) = Z.of_nat k) as E by nia.
    lia.
Qed.

(** The count of a bucket is the number of its records: zero when it has
    none. *)
Lemma timeline_count (logs : list LogEntry) (b : Z) :
  JsMap.or0 (JsMap.get Z.eqb (buckets_of logs) b) = records_in_bucket width b logs.
Proof.
  destruct logs as [|log logs]; [reflexivity|].
  set (all := log :: logs).
  change (buckets_of all)
    with (fold_left fill_step all
            (init_buckets (Js.Math_min (_time log) (map _time logs))
                          (Js.Math_max (_time log) (map _time logs)))).
  rewrite fill_is_bump, (get_fold Z.eqb Z.eqb_eq).
  rewrite init_buckets_progression, get_zeros. reflexivity.
Qed.

(** The timeline emits exactly the buckets between its earliest and latest
    record, each once, with the number of its records; it emits them in
    ascending order whenever the decimal numerals of the bucket starts are
    ordered as strings the way the numbers are. *)
Lemma timeline_buckets_complete (log : LogEntry) (logs : list LogEntry) :
  let all := log :: logs in
  let range := bucket_range width
                 (Js.Math_min (_time log) (map _time logs))
                 (Js.Math_max (_time log) (map _time logs)) in
  Permutation (timestamps all) range
  /\ counts all = map (fun b => records_in_bucket width b all) (timestamps all)
  /\ (StronglySorted (fun a b => String.leb (Js.toString a) (Js.toString b) = true) range ->
      timestamps all = range).
Proof.
  intros all range.
  assert (JsMap.keys (buckets_of all) = range) as Hk by apply timeline_keys.
  repeat split.
  - unfold timestamps, Js.sort_default. rewrite Hk. apply sort_by_perm.
  - unfold counts. apply map_ext. intros b. apply timeline_count.
  - intros Hs. unfold timestamps, Js.sort_default. rewrite Hk. now apply sort_by_sorted.
Qed.

Lemma progression_cons (start : Z) (n : nat) :
  progression start width (Datatypes.S n) = start :: progression (start + width) width n.
Proof.
  unfold progression. cbn [seq map]. rewrite <- seq_shift, map_map. f_equal; [lia|].
  apply map_ext. intros k. lia.
Qed.

Lemma progression_ascending (start : Z) (n : nat) :
  ascending (progression start width n) = true.
Proof.
  destruct n as [|n]; [reflexivity|]. rewrite progression_cons.
  revert start. induction n as [|n IH]; intros start; [reflexivity|].
  rewrite progression_cons.
  change (ascending (start :: start + width :: progression (start + width + width) width n))
    with ((start <? start + width)
          && ascending (start + width :: progression (start + width + width) width n)).
  rewrite (IH (start + width)).
  assert ((start <? start + width) = true) as ->; [|reflexivity].
  apply Z.ltb_lt. pose proof width_pos. lia.
Qed.

(** Bucket starts of thirteen digits are ordered as their numerals. *)
Lemma progression_sorted (start : Z) (n : nat) :
  10 ^ 12 <= start -> start + Z.of_nat n * width < 10 ^ 13 + width ->
  StronglySorted (fun a b => String.leb (Js.toString a) (Js.toString b) = true)
    (progression start width n).
Proof.
  pose proof width_pos as Hw.
  revert start. induction n as [|n IH]; intros start Hlo Hhi; [constructor|].
  rewrite progression_cons. constructor.
  - apply IH; lia.
  - apply Forall_forall. intros b Hb. apply progression_In in Hb as [k [Hk ->]].
    apply (NumeralFacts.toString_leb 12); [exact Hlo | nia | ].
    change (10 ^ Z.of_nat 13) with (10 ^ 13). nia.
Qed.

(** For records of thirteen-digit instants (from the first bucket at or
    after 10^12 ms, in 2001, to before 10^13 ms, in 2286) the timeline
    emits exactly the buckets from the bucket of its earliest record to the
    bucket of its latest, ascending, none missing, each with the number of
    its records, which is 0 for a bucket without records. *)
Lemma timeline_ascending (log : LogEntry) (logs : list LogEntry) :
  let all := log :: logs in
  let minTime := Js.Math_min (_time log) (map _time logs) in
  let maxTime := Js.Math_max (_time log) (map _time logs) in
  10 ^ 12 <= bucket_of width minTime -> maxTime < 10 ^ 13 ->
  timestamps all = bucket_range width minTime maxTime
  /\ ascending (timestamps all) = true
  /\ Forall (fun b => aligned width b = true) (timestamps all)
  /\ counts all = map (fun b => records_in_bucket width b all) (timestamps all)
  /\ TimelineChart all
     = mkChartData (map to_seconds (bucket_range width minTime maxTime))
         [map (fun b => records_in_bucket width b all) (bucket_range width minTime maxTime)].
Proof.
  intros all minTime maxTime Hlo Hhi.
  destruct (timeline_buckets_complete log logs) as (_ & Hcounts & Hsorted).
  fold all minTime maxTime in Hcounts, Hsorted.
  pose proof width_pos as Hw.
  assert (minTime <= maxTime) as Hmm.
  { destruct (Math_min_spec (_time log) (map _time logs)) as [_ Hmin].
    destruct (Math_max_spec (_time log) (map _time logs)) as [Hin _].
    apply Hmin, Hin. }
  assert (minTime / width <= maxTime / width) as Hdiv
    by (apply Z.div_le_mono; [exact Hw | exact Hmm]).
  assert (timestamps all = bucket_range width minTime maxTime) as E.
  { apply Hsorted. unfold bucket_range. apply progression_sorted; [exact Hlo|].
    unfold bucket_of. pose proof (Z.mul_div_le maxTime width Hw). 
    rewrite Nat2Z.inj_add, Z2Nat.id by lia. nia. }
  split; [exact E|]. split; [rewrite E; apply progression_ascending|]. split.
  - rewrite E. apply Forall_forall. intros b Hb.
    apply progression_In in Hb as [k [_ ->]].
    unfold aligned, bucket_of. apply Z.eqb_eq.
    rewrite <- Z.mul_add_distr_r. apply Z.mod_mul. lia.
  - split; [exact Hcounts|].
    change (TimelineChart all) with (mkChartData (map to_seconds (timestamps all)) [counts all]).
    rewrite Hcounts, E. reflexivity.
Qed.

(** Three records of 2025-08-12 within four minutes: four buckets, the
    empty ones with count 0, in ascending order. *)
Lemma timeline_ascending_example :
  TimelineChart
    [mkLog 1754956985000 "request served"%string None None None;
     mkLog 1754957170000 "payment failed"%string None None None;
     mkLog 1754956990000 "request served"%string None None None]
  = mkChartData
      (map to_seconds [1754956980000; 1754957040000; 1754957100000; 1754957160000])
      [[2; 0; 0; 1]].
Proof.
  match goal with
  | |- TimelineChart (?l :: ?ls) = _ =>
      destruct (timeline_ascending l ls) as (_ & _ & _ & _ & H);
        [vm_compute; discriminate | reflexivity | rewrite H; reflexivity]
  end.
Defined.

End Timeline.

End BucketFacts.
From Stdlib Require Import Lqa.

(* ------------------------------------------------------------------ *)
(** * Sorting by a total preorder, and the first elements of a sorted list *)

Module SortFacts.

Import MapFacts.

Section Sorted.

Context {A : Type}.
Variable before : A -> A -> bool.
Hypothesis before_total : forall a b, before a b = true \/ before b a = true.
Hypothesis before_trans :
  forall a b c, before a b = true -> before b c = true -> before a c = true.

Local Abbreviation R := (fun a b : A => before a b = true).

Lemma insert_by_sorted (x : A) (l : list A) :
  StronglySorted R l -> StronglySorted R (Js.insert_by before x l).
Proof.
  induction 1 as [|y l Hs IH Hall]; cbn [Js.insert_by].
  - constructor; constructor.
  - destruct (before x y) eqn:E.
    + constructor; [constructor; assumption|].
      constructor; [exact E|].
      eapply Forall_impl; [|exact Hall]. intros z Hz. cbn beta in *.
      eapply before_trans; eassumption.
    + constructor; [exact IH|].
      apply Forall_forall. intros z Hz.
      apply (Permutation_in _ (insert_by_perm before x l)) in Hz.
      destruct Hz as [<-|Hz].
      * destruct (before_total y x) as [H|H]; [exact H | congruence].
      * rewrite Forall_forall in Hall. now apply Hall.
Qed.

(** [sort] with a comparison function that is a total preorder sorts. *)
Lemma sort_by_StronglySorted (l : list A) : StronglySorted R (Js.sort_by before l).
Proof.
  induction l as [|x l IH]; cbn [Js.sort_by]; [constructor|].
  now apply insert_by_sorted.
Qed.

End Sorted.

Lemma sort_by_In {A : Type} (before : A -> A -> bool) (l : list A) (x : A) :
  In x (Js.sort_by before l) <-> In x l.
Proof.
  split; apply Permutation_in; [|apply Permutation_sym]; apply sort_by_perm.
Qed.

Lemma sort_by_length {A : Type} (before : A -> A -> bool) (l : list A) :
  List.length (Js.sort_by before l) = List.length l.
Proof. apply Permutation_length, sort_by_perm. Qed.

(** In a sorted list every element among the first [n] comes before every
    element after them. *)
Lemma sorted_firstn_skipn {A : Type} (R : A -> A -> Prop) (l : list A) (n : nat) :
  StronglySorted R l ->
  forall x y, In x (firstn n l) -> In y (skipn n l) -> R x y.
Proof.
  intros Hs. revert n. induction Hs as [|a l Hs IH Hall]; intros n x y Hx Hy.
  - destruct n; destruct Hx.
  - destruct n as [|n]; [destruct Hx|].
    cbn [firstn skipn In] in Hx, Hy. destruct Hx as [<-|Hx].
    + rewrite Forall_forall in Hall. apply Hall.
      rewrite <- (firstn_skipn n l). apply in_or_app. now right.
    + now apply (IH n).
Qed.

Lemma sorted_firstn {A : Type} (R : A -> A -> Prop) (l : list A) (n : nat) :
  StronglySorted R l -> StronglySorted R (firstn n l).
Proof.
  intros Hs. revert n. induction Hs as [|a l Hs IH Hall]; intros [|n]; cbn [firstn];
    try constructor.
  - apply IH.
  - rewrite Forall_forall in *. intros z Hz. apply Hall.
    rewrite <- (firstn_skipn n l). apply in_or_app. now left.
Qed.

Lemma sorted_map {A B : Type} (f : A -> B) (R : B -> B -> Prop) (l : list A) :
  StronglySorted (fun a b => R (f a) (f b)) l -> StronglySorted R (map f l).
Proof.
  induction 1 as [|a l Hs IH Hall]; cbn [map]; constructor; [exact IH|].
  rewrite Forall_forall in *. intros b Hb.
  apply in_map_iff in Hb as [c [<- Hc]]. now apply Hall.
Qed.

Lemma sorted_impl {A : Type} (R R' : A -> A -> Prop) (l : list A) :
  (forall a b, R a b -> R' a b) -> StronglySorted R l -> StronglySorted R' l.
Proof.
  intros H. induction 1 as [|a l Hs IH Hall]; constructor; [exact IH|].
  eapply Forall_impl; [|exact Hall]. intros b. apply H.
Qed.

Lemma In_firstn {A : Type} (l : list A) (n : nat) (x : A) : In x (firstn n l) -> In x l.
Proof. intros H. rewrite <- (firstn_skipn n l). apply in_or_app. now left. Qed.

Lemma In_skipn {A : Type} (l : list A) (n : nat) (x : A) : In x (skipn n l) -> In x l.
Proof. intros H. rewrite <- (firstn_skipn n l). apply in_or_app. now right. Qed.

Lemma NoDup_firstn {A : Type} (l : list A) (n : nat) : NoDup l -> NoDup (firstn n l).
Proof.
  intros H. rewrite <- (firstn_skipn n l) in H. now apply NoDup_app_remove_r in H.
Qed.

Lemma combine_fst_snd {A B : Type} (l : list (A * B)) :
  combine (map fst l) (map snd l) = l.
Proof.
  induction l as [|[a b] l IH]; [reflexivity|]. cbn [map combine fst snd]. now rewrite IH.
Qed.

Lemma sum_nonneg (l : list Z) : (forall x, In x l -> 0 <= x) -> 0 <= Js.sum l.
Proof.
  induction l as [|x l IH]; intros H; [rewrite sum_nil; lia|].
  rewrite sum_cons. assert (0 <= x) by (apply H; now left).
  assert (0 <= Js.sum l) by (apply IH; intros y Hy; apply H; now right). lia.
Qed.

(** A sum of positive numbers is zero only when there is none. *)
Lemma sum_pos_zero (l : list Z) : (forall x, In x l -> 0 < x) -> Js.sum l = 0 -> l = [].
Proof.
  destruct l as [|x l]; [reflexivity|]. intros H. rewrite sum_cons.
  assert (0 < x) by (apply H; now left).
  assert (0 <= Js.sum l) by (apply sum_nonneg; intros y Hy; apply Z.lt_le_incl, H; now right).
  lia.
Qed.

(** The order of the default [sort] on strings is transitive. *)
Lemma string_leb_trans (a b c : string) :
  String.leb a b = true -> String.leb b c = true -> String.leb a c = true.
Proof.
  revert b c. induction a as [|x a IH]; intros [|y b] [|z c]; try reflexivity;
    try discriminate.
  unfold String.leb. cbn [String.compare]. unfold Ascii.compare.
  intros Hab Hbc.
  destruct (N.compare_spec (N_of_ascii x) (N_of_ascii y)) as [Exy|Lxy|Gxy];
    destruct (N.compare_spec (N_of_ascii y) (N_of_ascii z)) as [Eyz|Lyz|Gyz];
    destruct (N.compare_spec (N_of_ascii x) (N_of_ascii z)) as [Exz|Lxz|Gxz];
    try reflexivity; try discriminate; try lia.
  apply (IH b c); assumption.
Qed.

Lemma sort_strings_sorted (l : list string) :
  StronglySorted (fun a b => String.leb a b = true) (Js.sort_strings l).
Proof.
  apply sort_by_StronglySorted; [apply String.leb_total | apply string_leb_trans].
Qed.

End SortFacts.

(* ------------------------------------------------------------------ *)
(** * The slices of the pie and the donut *)

Module PieFacts.

Import Log Chart GroupSpec PieChart TopSpec MapFacts SortFacts GroupFacts.

Lemma get_of_entry {K V : Type} (eqb : K -> K -> bool)
    (eqb_eq : forall a b, eqb a b = true <-> a = b) (m : list (K * V)) (k : K) (v : V) :
  NoDup (JsMap.keys m) -> In (k, v) m -> JsMap.get eqb m k = Some v.
Proof.
  induction m as [|[k' v'] m IH]; intros Hnd Hin; [destruct Hin|].
  cbn [JsMap.keys map fst] in Hnd. inversion Hnd as [|? ? Hnot Hnd']; subst.
  cbn [JsMap.get]. destruct Hin as [E|Hin].
  - inversion E; subst. now rewrite (eqb_refl eqb eqb_eq).
  - destruct (eqb k' k) eqn:E.
    + apply eqb_eq in E. subst k'. exfalso. apply Hnot.
      apply in_map_iff. exists (k, v). split; [reflexivity | exact Hin].
    + now apply IH.
Qed.

(** An entry of the counts is a group with the number of its records, and
    a group has a record. *)
Lemma entry_count (groupBy : GroupBy) (placeholder : string) (logs : list LogEntry)
    (key : string) (count : Z) :
  In (key, count) (count_by groupBy placeholder logs) ->
  count = records_in_group groupBy placeholder key logs /\ 0 < count.
Proof.
  intros Hin.
  assert (count = records_in_group groupBy placeholder key logs) as E.
  { rewrite <- count_by_key.
    rewrite (get_of_entry String.eqb string_eqb_eq _ key count);
      [reflexivity | apply count_by_NoDup | exact Hin]. }
  split; [exact E|]. rewrite E.
  assert (In key (JsMap.keys (count_by groupBy placeholder logs))) as Hk.
  { apply in_map_iff. exists (key, count). split; [reflexivity | exact Hin]. }
  apply count_by_keys in Hk as [log [Hlog Hkey]].
  unfold records_in_group, CountSpec.occurrences.
  assert (In log (filter (fun a => String.eqb (group_key groupBy placeholder a) key) logs)) as Hf.
  { apply filter_In. split; [exact Hlog|]. now apply String.eqb_eq. }
  destruct (filter _ logs); [destruct Hf | cbn [List.length]; lia].
Qed.

Lemma absent_group (groupBy : GroupBy) (placeholder : string) (logs : list LogEntry)
    (key : string) :
  ~ In key (JsMap.keys (count_by groupBy placeholder logs)) ->
  records_in_group groupBy placeholder key logs = 0.
Proof.
  intros H. rewrite <- count_by_key.
  apply (get_None_not_in String.eqb string_eqb_eq) in H. now rewrite H.
Qed.

Lemma count_desc_sorted {K : Type} (l : list (K * Z)) :
  StronglySorted (fun a b => snd b <= snd a) (Js.sort_by_count_desc l).
Proof.
  apply sorted_impl with (R := fun a b => (snd b <=? snd a) = true).
  - intros a b H. now apply Z.leb_le.
  - apply sort_by_StronglySorted.
    + intros a b. rewrite !Z.leb_le. lia.
    + intros a b c. rewrite !Z.leb_le. lia.
Qed.

Section Top.

Variables (top : nat) (groupBy : GroupBy) (logs : list LogEntry).

Local Abbreviation sorted := (Js.sort_by_count_desc (counts groupBy logs)).
Local Abbreviation shown := (firstn top sorted).

Lemma top_groups_shown :
  top_groups top groupBy logs
  = mkPieData (map snd shown) (map fst shown) (map getLogLevelColor (map fst shown)).
Proof. destruct logs; [destruct top; reflexivity | reflexivity]. Qed.

Lemma sorted_counts : Permutation sorted (counts groupBy logs).
Proof. apply sort_by_perm. Qed.

Lemma sorted_length : List.length sorted = List.length (counts groupBy logs).
Proof. apply sort_by_length. Qed.

Lemma sorted_entry (key : string) (count : Z) :
  In (key, count) sorted ->
  count = records_in_group groupBy "unknown" key logs /\ 0 < count.
Proof.
  intros H. apply entry_count. apply (Permutation_in _ sorted_counts), H.
Qed.

Lemma sorted_keys_NoDup : NoDup (map fst sorted).
Proof.
  apply (Permutation_NoDup (l := JsMap.keys (counts groupBy logs))).
  - apply Permutation_sym, Permutation_map, sorted_counts.
  - apply count_by_NoDup.
Qed.

(** The grouping with the [top] largest groups shows the top slices. *)
Lemma top_groups_slices : top_slices top groupBy logs (top_groups top groupBy logs).
Proof.
  unfold top_slices, slices. rewrite top_groups_shown. cbn [labels data colors].
  rewrite combine_fst_snd.
  split; [|split; [|split; [|split; [|split; [|split]]]]].
  - rewrite length_map, length_firstn, sorted_length. reflexivity.
  - now rewrite !length_map.
  - rewrite <- firstn_map. apply NoDup_firstn, sorted_keys_NoDup.
  - intros label count H. apply sorted_entry. eapply In_firstn, H.
  - apply sorted_map, sorted_firstn. apply count_desc_sorted.
  - intros key count Hkey Hcount.
    apply in_map_iff in Hcount as [[k v] [Ev Hin]]. cbn [snd] in Ev. subst v.
    destruct (in_dec string_dec key (JsMap.keys (counts groupBy logs))) as [Hk|Hk].
    + apply in_map_iff in Hk as [[key' v] [Ek Hentry]]. cbn [fst] in Ek. subst key'.
      apply (Permutation_in _ (Permutation_sym sorted_counts)) in Hentry.
      destruct (sorted_entry _ _ Hentry) as [<- _].
      rewrite <- (firstn_skipn top sorted) in Hentry.
      apply in_app_or in Hentry as [Hfirst|Hlast].
      * exfalso. apply Hkey. apply in_map_iff. exists (key, v). now split.
      * apply (sorted_firstn_skipn _ sorted top (count_desc_sorted _) _ _ Hin Hlast).
    + unfold counts in Hk. rewrite (absent_group _ _ _ _ Hk).
      apply In_firstn, sorted_entry in Hin. lia.
  - reflexivity.
Qed.

(** The slices never add up to more than the records, and to the number of
    records exactly when no group is left out. *)
Lemma top_groups_total :
  Js.sum (data (top_groups top groupBy logs)) <= Z.of_nat (List.length logs)
  /\ (Js.sum (data (top_groups top groupBy logs)) = Z.of_nat (List.length logs)
      <-> (List.length (counts groupBy logs) <= top)%nat).
Proof.
  rewrite top_groups_shown. cbn [data].
  assert (Js.sum (map snd sorted) = Z.of_nat (List.length logs)) as Htotal.
  { rewrite <- (count_by_total groupBy "unknown" logs).
    apply sum_perm, Permutation_map, sorted_counts. }
  rewrite <- (firstn_skipn top sorted), map_app, sum_app in Htotal.
  assert (forall x, In x (map snd (skipn top sorted)) -> 0 < x) as Hpos.
  { intros x Hx. apply in_map_iff in Hx as [[k v] [Ev Hin]]. cbn [snd] in Ev. subst v.
    apply In_skipn, sorted_entry in Hin. lia. }
  assert (0 <= Js.sum (map snd (skipn top sorted))) as Hge
    by (apply sum_nonneg; intros x Hx; apply Z.lt_le_incl, Hpos, Hx).
  split; [lia|]. split.
  - intros E. assert (Js.sum (map snd (skipn top sorted)) = 0) as E0 by lia.
    apply (sum_pos_zero _ Hpos) in E0. apply map_eq_nil in E0.
    apply (f_equal (@List.length _)) in E0.
    rewrite length_skipn, sorted_length in E0. cbn [List.length] in E0. lia.
  - intros Hle. rewrite (skipn_all2 sorted) in Htotal
      by (rewrite sorted_length; exact Hle).
    cbn [map] in Htotal. rewrite sum_nil in Htotal. lia.
Qed.

End Top.


(** The slices of the pie chart never add up to more than the number of
    records, and they add up to it exactly when there are at most 8 groups;
    likewise for the donut chart with 6. *)
Theorem pie_total_iff_no_group_left_out (groupBy : GroupBy) (logs : list LogEntry) :
  Js.sum (data (PieChart groupBy logs)) <= Z.of_nat (List.length logs)
  /\ (Js.sum (data (PieChart groupBy logs)) = Z.of_nat (List.length logs)
      <-> (List.length (counts groupBy logs) <= 8)%nat)
  /\ Js.sum (data (DonutChart groupBy logs)) <= Z.of_nat (List.length logs)
  /\ (Js.sum (data (DonutChart groupBy logs)) = Z.of_nat (List.length logs)
      <-> (List.length (counts groupBy logs) <= 6)%nat).
Proof.
  destruct (top_groups_total 8 groupBy logs) as [H1 H2].
  destruct (top_groups_total 6 groupBy logs) as [H3 H4].
  repeat split; try apply H2; try apply H4; assumption.
Qed.

End PieFacts.

(* ------------------------------------------------------------------ *)
(** * The timeline and the heatmap count every record *)

Module HistogramFacts.

Import Log Chart MapFacts SortFacts BucketFacts CountSpec BucketSpec HeatmapSpec.
Local Open Scope Z_scope.

Lemma keys_of_zeros {K : Type} (keys : list K) :
  JsMap.keys (map (fun k => (k, 0)) keys) = keys.
Proof. unfold JsMap.keys. rewrite map_map. apply map_id. Qed.

Lemma sum_of_zeros {K : Type} (keys : list K) :
  Js.sum (JsMap.values (map (fun k => (k, 0)) keys)) = 0.
Proof.
  induction keys as [|k keys IH]; [reflexivity|].
  cbn [map JsMap.values snd]. rewrite sum_cons. exact IH.
Qed.

(** The values of a map with distinct keys, key by key. *)
Lemma values_by_keys {K : Type} (eqb : K -> K -> bool)
    (eqb_eq : forall a b, eqb a b = true <-> a = b) (m : list (K * Z)) :
  NoDup (JsMap.keys m) ->
  JsMap.values m = map (fun k => JsMap.or0 (JsMap.get eqb m k)) (JsMap.keys m).
Proof.
  intros H. rewrite (map_by_keys eqb eqb_eq m H) at 1.
  unfold JsMap.values. rewrite map_map. reflexivity.
Qed.

Section Timeline.

Import TimelineChart.

Lemma timeline_buckets_NoDup (logs : list LogEntry) : NoDup (JsMap.keys (buckets_of logs)).
Proof.
  destruct logs as [|log logs]; [constructor|].
  change (buckets_of (log :: logs))
    with (fold_left fill_step (log :: logs)
            (init_buckets (Js.Math_min (_time log) (map _time logs))
                          (Js.Math_max (_time log) (map _time logs)))).
  rewrite fill_is_bump. apply (NoDup_keys_fold _ Z.eqb_eq).
  rewrite init_buckets_progression, keys_of_zeros. apply progression_NoDup.
Qed.

Lemma timeline_buckets_total (logs : list LogEntry) :
  Js.sum (JsMap.values (buckets_of logs)) = Z.of_nat (List.length logs).
Proof.
  destruct logs as [|log logs]; [reflexivity|].
  change (buckets_of (log :: logs))
    with (fold_left fill_step (log :: logs)
            (init_buckets (Js.Math_min (_time log) (map _time logs))
                          (Js.Math_max (_time log) (map _time logs)))).
  rewrite fill_is_bump, sum_values_fold, init_buckets_progression, sum_of_zeros. lia.
Qed.

(** The timeline loses no record and counts none twice: the counts of
    its buckets add up to the number of records, whatever the order the
    buckets are emitted in; there is one count per bucket, no bucket occurs
    twice and no count is negative. *)
Theorem timeline_counts_every_record (logs : list LogEntry) :
  Js.sum (counts logs) = Z.of_nat (List.length logs)
  /\ List.length (counts logs) = List.length (timestamps logs)
  /\ NoDup (timestamps logs)
  /\ Forall (fun c => 0 <= c) (counts logs).
Proof.
  assert (Permutation (timestamps logs) (JsMap.keys (buckets_of logs))) as Hperm
    by apply sort_by_perm.
  split; [|split; [|split]].
  - rewrite <- timeline_buckets_total.
    rewrite (values_by_keys Z.eqb Z.eqb_eq _ (timeline_buckets_NoDup logs)).
    unfold counts. apply sum_perm, Permutation_map, Hperm.
  - unfold counts. apply length_map.
  - apply (Permutation_NoDup (Permutation_sym Hperm)), timeline_buckets_NoDup.
  - unfold counts. apply Forall_forall. intros c Hc.
    apply in_map_iff in Hc as [b [<- _]]. rewrite timeline_count.
    unfold records_in_bucket, CountSpec.occurrences. lia.
Qed.

End Timeline.

Section Heatmap.

Import HeatmapChart.

Variable timezoneOffset : Z.

Local Abbreviation day_of := (fun log : LogEntry => getDay timezoneOffset (_time log)).
Local Abbreviation hour_of := (fun log : LogEntry => getHours timezoneOffset (_time log)).
Local Abbreviation shaped :=
  (fun grid : list (list Z) =>
     List.length grid = 7%nat /\ Forall (fun row => List.length row = 24%nat) grid).

Lemma getDay_range (t : Z) : (getDay timezoneOffset t < 7)%nat.
Proof.
  unfold getDay.
  pose proof (Z.mod_pos_bound ((t + timezoneOffset) / 86400000 + 4) 7). lia.
Qed.

Lemma getHours_range (t : Z) : (getHours timezoneOffset t < 24)%nat.
Proof.
  unfold getHours.
  pose proof (Z.mod_pos_bound ((t + timezoneOffset) / 3600000) 24). lia.
Qed.

Lemma increment_length (i : nat) (row : list Z) :
  List.length (increment i row) = List.length row.
Proof.
  revert i. induction row as [|v row IH]; intros [|i]; cbn [increment List.length];
    try reflexivity. now rewrite IH.
Qed.

Lemma increment_nth (i j : nat) (row : list Z) :
  (i < List.length row)%nat ->
  nth j (increment i row) 0 = nth j row 0 + (if (i =? j)%nat then 1 else 0).
Proof.
  revert i j. induction row as [|v row IH]; intros i j Hi; [cbn in Hi; lia|].
  destruct i as [|i], j as [|j]; cbn [increment nth Nat.eqb]; try lia.
  apply IH. cbn [List.length] in Hi. lia.
Qed.

Lemma increment_sum (i : nat) (row : list Z) :
  (i < List.length row)%nat -> Js.sum (increment i row) = Js.sum row + 1.
Proof.
  revert i. induction row as [|v row IH]; intros i Hi; [cbn in Hi; lia|].
  destruct i as [|i]; cbn [increment]; rewrite !sum_cons; [lia|].
  rewrite IH; [lia|]. cbn [List.length] in Hi. lia.
Qed.

Lemma increment_nonneg (i : nat) (row : list Z) :
  Forall (fun v => 0 <= v) row -> Forall (fun v => 0 <= v) (increment i row).
Proof.
  intros H. revert i. induction H as [|v row Hv Hrow IH]; intros [|i]; cbn [increment];
    constructor; auto; lia.
Qed.

Lemma increment_cell_rows (day hour : nat) (grid : list (list Z)) :
  List.length (increment_cell day hour grid) = List.length grid
  /\ (Forall (fun row => List.length row = 24%nat) grid ->
      Forall (fun row => List.length row = 24%nat) (increment_cell day hour grid))
  /\ (Forall (Forall (fun v => 0 <= v)) grid ->
      Forall (Forall (fun v => 0 <= v)) (increment_cell day hour grid)).
Proof.
  revert day. induction grid as [|row grid IH]; intros [|day]; cbn [increment_cell List.length];
    try (repeat split; auto; fail).
  - repeat split; intros H; inversion H; subst; constructor; auto.
    + now rewrite increment_length.
    + now apply increment_nonneg.
  - destruct (IH day) as (Hl & Hr & Hn). rewrite Hl.
    repeat split; intros H; inversion H; subst; constructor; auto.
Qed.

Lemma increment_cell_nth (day hour i j : nat) (grid : list (list Z)) :
  (day < List.length grid)%nat ->
  Forall (fun row => List.length row = 24%nat) grid -> (hour < 24)%nat ->
  cell (increment_cell day hour grid) i j
  = cell grid i j + (if (day =? i)%nat && (hour =? j)%nat then 1 else 0).
Proof.
  unfold cell. revert day i. induction grid as [|row grid IH]; intros day i Hd Hrows Hh;
    [cbn in Hd; lia|].
  inversion Hrows as [|? ? Hrow Hrest]; subst.
  destruct day as [|day], i as [|i]; cbn [increment_cell nth Nat.eqb andb].
  - apply increment_nth. lia.
  - lia.
  - lia.
  - apply IH; [cbn [List.length] in Hd; lia | assumption | assumption].
Qed.

Lemma sum_concat_cons (row : list Z) (grid : list (list Z)) :
  Js.sum (List.concat (row :: grid)) = Js.sum row + Js.sum (List.concat grid).
Proof. cbn [List.concat]. apply sum_app. Qed.

Lemma increment_cell_sum (day hour : nat) (grid : list (list Z)) :
  (day < List.length grid)%nat ->
  Forall (fun row => List.length row = 24%nat) grid -> (hour < 24)%nat ->
  Js.sum (List.concat (increment_cell day hour grid)) = Js.sum (List.concat grid) + 1.
Proof.
  revert day. induction grid as [|row grid IH]; intros day Hd Hrows Hh; [cbn in Hd; lia|].
  inversion Hrows as [|? ? Hrow Hrest]; subst.
  destruct day as [|day]; cbn [increment_cell]; rewrite !sum_concat_cons.
  - rewrite increment_sum; lia.
  - rewrite IH; [lia | cbn [List.length] in Hd; lia | assumption | assumption].
Qed.

Local Abbreviation fill :=
  (fun (grid : list (list Z)) (log : LogEntry) =>
     increment_cell (day_of log) (hour_of log) grid).

Lemma fill_grid (logs : list LogEntry) (grid : list (list Z)) :
  shaped grid -> Forall (Forall (fun v => 0 <= v)) grid ->
  let final := fold_left fill logs grid in
  shaped final
  /\ Forall (Forall (fun v => 0 <= v)) final
  /\ Js.sum (List.concat final) = Js.sum (List.concat grid) + Z.of_nat (List.length logs)
  /\ forall day hour,
       cell final day hour = cell grid day hour + records_at timezoneOffset day hour logs.
Proof.
  revert grid. induction logs as [|log logs IH]; intros grid [Hlen Hrows] Hnn; cbn zeta.
  - cbn [fold_left List.length]. repeat split; try assumption; [lia|].
    intros day hour. unfold records_at. cbn [filter List.length]. lia.
  - cbn [fold_left].
    destruct (increment_cell_rows (day_of log) (hour_of log) grid) as (Hl & Hr & Hn).
    pose proof (getDay_range (_time log)) as Hday.
    pose proof (getHours_range (_time log)) as Hhour.
    destruct (IH (fill grid log)) as (Hs & Hnn' & Hsum & Hcell).
    + split; [now rewrite Hl | now apply Hr].
    + now apply Hn.
    + split; [exact Hs|]. split; [exact Hnn'|]. split.
      * rewrite Hsum, increment_cell_sum by (try assumption; lia).
        cbn [List.length]. lia.
      * intros day hour. rewrite Hcell, increment_cell_nth by (try assumption; lia).
        unfold records_at. cbn [filter].
        destruct ((day_of log =? day)%nat && (hour_of log =? hour)%nat);
          cbn [List.length]; lia.
Qed.

Lemma empty_grid_shaped :
  shaped empty_grid /\ Forall (Forall (fun v => 0 <= v)) empty_grid
  /\ Js.sum (List.concat empty_grid) = 0
  /\ forall day hour, cell empty_grid day hour = 0.
Proof.
  split; [split; [reflexivity | repeat constructor]|].
  split; [repeat constructor; lia|]. split; [reflexivity|].
  intros day hour. unfold cell, empty_grid.
  do 7 (destruct day as [|day]; [do 24 (destruct hour as [|hour]; [reflexivity|]);
                                 destruct hour; reflexivity|]).
  destruct day; destruct hour; reflexivity.
Qed.

Lemma in_le_sum (l : list Z) (x : Z) :
  (forall y, In y l -> 0 <= y) -> In x l -> x <= Js.sum l.
Proof.
  induction l as [|a l IH]; intros Hnn Hin; [destruct Hin|].
  rewrite sum_cons. destruct Hin as [<-|Hin].
  - assert (0 <= Js.sum l) by (apply sum_nonneg; intros y Hy; apply Hnn; now right). lia.
  - assert (0 <= a) by (apply Hnn; now left).
    assert (x <= Js.sum l) by (apply IH; [intros y Hy; apply Hnn; now right | exact Hin]).
    lia.
Qed.

Lemma sum_le_zero (l : list Z) : (forall y, In y l -> y <= 0) -> Js.sum l <= 0.
Proof.
  induction l as [|a l IH]; intros H; [rewrite sum_nil; lia|].
  rewrite sum_cons. assert (a <= 0) by (apply H; now left).
  assert (Js.sum l <= 0) by (apply IH; intros y Hy; apply H; now right). lia.
Qed.

Lemma color_of_maximum (m : Z) :
  1 <= m -> HeatmapCell.getHeatmapColor m m = "bg-blue-600"%string.
Proof.
  intros Hm. unfold HeatmapCell.getHeatmapColor, HeatmapCell.lt.
  assert ((m =? 0) = false) as -> by (apply Z.eqb_neq; lia).
  assert (inject_Z m / inject_Z m == 1)%Q as E.
  { unfold Qdiv. apply Qmult_inv_r. intros H.
    unfold Qeq in H. cbn in H. lia. }
  assert (forall q : Q, (q <= 1)%Q -> Qle_bool q (inject_Z m / inject_Z m) = true) as H.
  { intros q Hq. apply Qle_bool_iff. now rewrite E. }
  rewrite !H by (unfold Qle; cbn; lia). reflexivity.
Qed.

Lemma color_of_empty_cell (v m : Z) :
  HeatmapCell.getHeatmapColor v m = "bg-slate-100"%string <-> v = 0.
Proof.
  unfold HeatmapCell.getHeatmapColor. destruct (v =? 0) eqn:E.
  - apply Z.eqb_eq in E. tauto.
  - apply Z.eqb_neq in E. split; [|tauto].
    repeat match goal with
           | |- context [if ?b then _ else _] => destruct b
           end; discriminate.
Qed.

(** The heatmap of one or more records is a grid of 7 days by 24 hours;
    the cell of a day and an hour holds the number of records that fall on
    them, so the cells add up to the number of records; the maximum is the
    largest cell, at least 1 and at most the number of records; the cell
    that holds the maximum gets the darkest colour and exactly the empty
    cells get the colour of no activity. *)
Theorem heatmap_counts_every_record (log : LogEntry) (logs : list LogEntry) :
  let all := log :: logs in
  let h := HeatmapChart timezoneOffset all in
  let cells := List.concat (data h) in
  List.length (data h) = 7%nat
  /\ Forall (fun row => List.length row = 24%nat) (data h)
  /\ (forall day hour, cell (data h) day hour = records_at timezoneOffset day hour all)
  /\ Js.sum cells = Z.of_nat (List.length all)
  /\ In (maxValue h) cells
  /\ (forall v, In v cells -> 0 <= v <= maxValue h)
  /\ 1 <= maxValue h <= Z.of_nat (List.length all)
  /\ HeatmapCell.getHeatmapColor (maxValue h) (maxValue h) = "bg-blue-600"%string
  /\ (forall v, HeatmapCell.getHeatmapColor v (maxValue h) = "bg-slate-100"%string <-> v = 0).
Proof.
  intros all h cells.
  destruct empty_grid_shaped as (Hs0 & Hn0 & Hsum0 & Hcell0).
  destruct (fill_grid all empty_grid Hs0 Hn0) as ([Hlen Hrows] & Hnn & Hsum & Hcell).
  set (grid := fold_left fill all empty_grid) in *.
  assert (data h = grid) as Ed by reflexivity.
  assert (Js.sum (List.concat grid) = Z.of_nat (List.length all)) as Hsum' by lia.
  assert (forall v, In v (List.concat grid) -> 0 <= v) as Hcells.
  { intros v Hv. apply in_concat in Hv as [row [Hrow Hv]].
    rewrite Forall_forall in Hnn. specialize (Hnn row Hrow).
    rewrite Forall_forall in Hnn. now apply Hnn. }
  assert (exists v rest, List.concat grid = v :: rest /\ maxValue h = Js.Math_max v rest)
    as (v0 & rest & Ecells & Emax).
  { destruct (List.concat grid) as [|v rest] eqn:E.
    - exfalso. rewrite sum_nil in Hsum'. cbn [all List.length] in Hsum'. lia.
    - exists v, rest. split; [reflexivity|].
      unfold h, all, HeatmapChart. cbn [maxValue]. fold all. fold grid. now rewrite E. }
  destruct (Math_max_spec v0 rest) as [Hin Hmax]. rewrite <- Emax, <- Ecells in Hin, Hmax.
  assert (1 <= maxValue h) as Hone.
  { destruct (Z_lt_le_dec (maxValue h) 1) as [Hlt|]; [|assumption]. exfalso.
    assert (Js.sum (List.concat grid) <= 0) as Hle.
    { apply sum_le_zero. intros y Hy. specialize (Hmax y Hy). lia. }
    cbn [all List.length] in Hsum'. lia. }
  unfold cells. rewrite Ed.
  split; [exact Hlen|]. split; [exact Hrows|]. split.
  { intros day hour. rewrite Hcell, Hcell0. lia. }
  split; [exact Hsum'|]. split; [exact Hin|]. split.
  { intros v Hv. split; [now apply Hcells | now apply Hmax]. }
  split.
  { split; [exact Hone|]. rewrite <- Hsum'. now apply in_le_sum. }
  split; [now apply color_of_maximum | intros v; apply color_of_empty_cell].
Qed.

End Heatmap.

End HistogramFacts.

(* ------------------------------------------------------------------ *)
(** * The range of the gauges and of the radar metrics *)

Module RangeFacts.

Import Log RateSpec NumberFacts GaugeFacts.
Local Open Scope Q_scope.

Lemma percent_nonneg (count total : Z) :
  (0 <= count)%Z -> (0 < total)%Z -> 0 <= percent count total.
Proof.
  intros Hc Ht. unfold percent.
  assert (0 < inject_Z total) as HtQ.
  { change (inject_Z 0 < inject_Z total). rewrite <- Zlt_Qlt. exact Ht. }
  assert (0 <= inject_Z count / inject_Z total) as H.
  { apply Qle_shift_div_l; [exact HtQ|]. rewrite Qmult_0_l.
    change (inject_Z 0 <= inject_Z count). rewrite <- Zle_Qle. exact Hc. }
  lra.
Qed.

Lemma Qmin_lower (a b c : Q) : c <= a -> c <= b -> c <= Js.Qmin a b.
Proof. intros Ha Hb. unfold Js.Qmin. now destruct (Qle_bool a b). Qed.

Lemma filter_share (test : LogEntry -> bool) (log : LogEntry) (logs : list LogEntry) :
  let all := log :: logs in
  let share := percent (Z.of_nat (List.length (filter test all))) (Z.of_nat (List.length all)) in
  0 <= share /\ share <= 100.
Proof.
  intros all share.
  pose proof (filter_length_le test all) as Hle.
  assert (0 < Z.of_nat (List.length all))%Z as Hpos by (cbn [all List.length]; lia).
  split; [apply percent_nonneg | apply percent_le_100]; lia.
Qed.

Lemma last_cons (log : LogEntry) (logs : list LogEntry) :
  last (log :: logs) log = last logs log.
Proof. destruct logs; [reflexivity|]. reflexivity. Qed.

Section Gauge.

Import GaugeChart.

Variables (log : LogEntry) (logs : list LogEntry).

Local Abbreviation all := (log :: logs).

Lemma gauge_rate (name : string) :
  let share := inject_Z (count_level name all) / inject_Z (Z.of_nat (List.length all)) * 100 in
  0 <= Js.Qmin share 100 /\ Js.Qmin share 100 <= 100.
Proof.
  intros share. destruct (filter_share (level_is name) log logs) as [H0 H1].
  split; [apply Qmin_lower; [exact H0 | lra] | apply Qmin_upper].
Qed.

Lemma activity_upper : activity_value all <= 100.
Proof.
  unfold activity_value. destruct (Qeq_bool (timeSpan all) 0); [lra | apply Qmin_upper].
Qed.

Lemma records_positive : 0 < inject_Z (Z.of_nat (List.length all)).
Proof.
  change (inject_Z 0 < inject_Z (Z.of_nat (List.length all))). rewrite <- Zlt_Qlt.
  cbn [List.length]. lia.
Qed.

Lemma timeSpan_sign :
  (timeSpan all == 1 /\ logs = [])
  \/ (timeSpan all == inject_Z (_time (last logs log) - _time log) / 60000 /\ logs <> []).
Proof.
  unfold timeSpan. destruct logs as [|second rest] eqn:E.
  - left. split; reflexivity.
  - right. split; [|discriminate].
    change (1 <? List.length (log :: second :: rest))%nat with true. cbv iota.
    rewrite last_cons. reflexivity.
Qed.

Lemma activity_of_span (span : Q) :
  ~ span == 0 -> timeSpan all == span ->
  activity_value all
  == Js.Qmin ((inject_Z (Z.of_nat (List.length all)) / span / 10) * 100) 100.
Proof.
  intros Hne E. unfold activity_value.
  destruct (Qeq_bool (timeSpan all) 0) eqn:E0.
  - apply Qeq_bool_iff in E0. rewrite E in E0. contradiction.
  - unfold Js.Qmin.
    assert (inject_Z (Z.of_nat (List.length all)) / timeSpan all / 10 * 100
            == inject_Z (Z.of_nat (List.length all)) / span / 10 * 100) as Eq
      by (now rewrite E).
    destruct (Qle_bool (inject_Z (Z.of_nat (List.length all)) / timeSpan all / 10 * 100) 100) eqn:L1;
    destruct (Qle_bool (inject_Z (Z.of_nat (List.length all)) / span / 10 * 100) 100) eqn:L2;
      try exact Eq; try reflexivity.
    + apply Qle_bool_iff in L1. rewrite Eq in L1. apply Qle_bool_iff in L1. congruence.
    + apply Qle_bool_iff in L2. rewrite <- Eq in L2. apply Qle_bool_iff in L2. congruence.
Qed.

Lemma activity_nonneg : (_time log <= _time (last logs log))%Z -> 0 <= activity_value all.
Proof.
  intros Hle. pose proof records_positive as Hn.
  destruct (Qeq_dec (timeSpan all) 0) as [E0|Hne].
  - unfold activity_value. apply Qeq_bool_iff in E0. rewrite E0. lra.
  - rewrite (activity_of_span (timeSpan all) Hne (Qeq_refl _)).
    assert (0 < timeSpan all) as Hpos.
    { destruct timeSpan_sign as [[E _]|[E _]]; [rewrite E; lra|].
      assert (0 <= timeSpan all); [|lra]. rewrite E.
      apply Qle_shift_div_l; [lra|]. rewrite Qmult_0_l.
      change (inject_Z 0 <= inject_Z (_time (last logs log) - _time log)).
      rewrite <- Zle_Qle. lia. }
    apply Qmin_lower; [|lra].
    assert (0 < inject_Z (Z.of_nat (List.length all)) / timeSpan all) as Hq.
    { apply Qlt_shift_div_l; [exact Hpos|]. now rewrite Qmult_0_l. }
    set (perMinute := inject_Z (Z.of_nat (List.length all)) / timeSpan all) in *.
    constant_divisions. lra.
Qed.

Lemma activity_negative :
  (_time (last logs log) < _time log)%Z ->
  activity_value all < 0 /\ Js.Qmin (activity_value all) 100 == activity_value all.
Proof.
  intros Hlt. pose proof records_positive as Hn.
  destruct timeSpan_sign as [[_ E]|[E _]].
  { exfalso. rewrite E in Hlt. cbn [last] in Hlt. lia. }
  assert (timeSpan all < 0) as Hneg.
  { rewrite E. apply Qlt_shift_div_r; [lra|]. rewrite Qmult_0_l.
    change (inject_Z (_time (last logs log) - _time log) < inject_Z 0).
    rewrite <- Zlt_Qlt. lia. }
  assert (~ timeSpan all == 0) as Hne by lra.
  assert (activity_value all < 0) as Hv.
  { rewrite (activity_of_span (timeSpan all) Hne (Qeq_refl _)).
    assert (inject_Z (Z.of_nat (List.length all)) / timeSpan all
            == - (inject_Z (Z.of_nat (List.length all)) / (- timeSpan all))) as Ediv
      by (field; exact Hne).
    assert (0 < inject_Z (Z.of_nat (List.length all)) / (- timeSpan all)) as Hq.
    { apply Qlt_shift_div_l; [lra|]. now rewrite Qmult_0_l. }
    assert (inject_Z (Z.of_nat (List.length all)) / timeSpan all / 10 * 100 < 0) as Hx.
    { rewrite Ediv.
      set (perMinute := inject_Z (Z.of_nat (List.length all)) / - timeSpan all) in *.
      constant_divisions. lra. }
    rewrite Qmin_le; [exact Hx | lra]. }
  split; [exact Hv|]. rewrite Qmin_le; [reflexivity | lra].
Qed.

End Gauge.

(** For one or more records the error-rate and the warning-rate gauge
    lie between 0 and 100 and the activity gauge is at most 100.  The
    activity gauge is not negative when the last record of the sequence is
    not earlier than the first one; when it is earlier, as in a sequence
    that lists the newest record first, the activity gauge is negative and
    shown in the colour of low activity. *)
Theorem gauge_value_range (log : LogEntry) (logs : list LogEntry) :
  let all := log :: logs in
  let gauge := fun metric => GaugeChart.GaugeChart metric all in
  (0 <= GaugeChart.value (gauge GaugeChart.error_rate) /\
   GaugeChart.value (gauge GaugeChart.error_rate) <= 100)
  /\ (0 <= GaugeChart.value (gauge GaugeChart.warning_rate) /\
      GaugeChart.value (gauge GaugeChart.warning_rate) <= 100)
  /\ GaugeChart.value (gauge GaugeChart.activity_level) <= 100
  /\ ((_time log <= _time (last logs log))%Z ->
      0 <= GaugeChart.value (gauge GaugeChart.activity_level))
  /\ ((_time (last logs log) < _time log)%Z ->
      GaugeChart.value (gauge GaugeChart.activity_level) < 0
      /\ GaugeChart.color (gauge GaugeChart.activity_level) = "#10b981"%string).
Proof.
  intros all gauge.
  assert (GaugeChart.value (gauge GaugeChart.activity_level)
          = Js.Qmin (GaugeChart.activity_value all) 100) as Ea by reflexivity.
  split; [apply (gauge_rate log logs "ERROR")|].
  split; [apply (gauge_rate log logs "WARN")|].
  split; [rewrite Ea; apply Qmin_upper|].
  split.
  - intros H. rewrite Ea. apply Qmin_lower; [now apply activity_nonneg | lra].
  - intros H. destruct (activity_negative log logs H) as [Hneg Emin]. split.
    + rewrite Ea. unfold all. lra.
    + unfold gauge, all, GaugeChart.GaugeChart. cbn [GaugeChart.color].
      unfold GaugeChart.gt.
      assert (forall q, 0 <= q -> Qle_bool (GaugeChart.activity_value (log :: logs)) q = true)
        as Hle by (intros q Hq; apply Qle_bool_iff; lra).
      rewrite !Hle by lra. reflexivity.
Qed.

(** The radar of one or more records has the six metrics Activity, Info
    Rate, Debug Rate, Service Dist, Warn Rate and Error Rate, each between
    0 and its maximum of 100. *)
Theorem radar_metrics_in_range (log : LogEntry) (logs : list LogEntry) :
  let metrics := RadarChart.RadarChart (log :: logs) in
  map RadarChart.label metrics
  = ["Activity"; "Info Rate"; "Debug Rate"; "Service Dist"; "Warn Rate"; "Error Rate"]%string
  /\ Forall (fun m => 0 <= RadarChart.value m
                      /\ RadarChart.value m <= RadarChart.maxValue m
                      /\ RadarChart.maxValue m == 100) metrics.
Proof.
  intros metrics. split; [reflexivity|].
  pose proof (records_positive log logs) as Hn.
  assert (forall n : nat,
            0 <= Js.Qmin (inject_Z (Z.of_nat n) / 10 * 100) 100
            /\ Js.Qmin (inject_Z (Z.of_nat n) / 10 * 100) 100 <= 100) as Hten.
  { intros n. split; [|apply Qmin_upper]. apply Qmin_lower; [|lra].
    assert (0 <= inject_Z (Z.of_nat n)) as H
      by (change (inject_Z 0 <= inject_Z (Z.of_nat n)); rewrite <- Zle_Qle; lia).
    constant_divisions. lra. }
  assert (0 <= Js.Qmin (inject_Z (Z.of_nat (List.length (log :: logs))) / 1000 * 100) 100
          /\ Js.Qmin (inject_Z (Z.of_nat (List.length (log :: logs))) / 1000 * 100) 100 <= 100)
    as Hact.
  { split; [|apply Qmin_upper]. apply Qmin_lower; [|lra]. constant_divisions. lra. }
  pose proof (fun test => filter_share test log logs) as Hshare. cbn zeta in Hshare.
  unfold metrics, RadarChart.RadarChart.
  repeat constructor; cbn [RadarChart.value RadarChart.maxValue];
    try reflexivity; try lra;
    try apply Hten; try apply Hact;
    try (unfold RadarChart.rate;
         match goal with
         | |- context [filter ?t _] => destruct (Hshare t) as [H0 H1]; unfold percent in H0, H1
         end; lra).
Qed.

End RangeFacts.

(* ------------------------------------------------------------------ *)
(** * The hourly series of the error analysis and the rows of the host chart *)

Module SeriesFacts.

Import Log Chart RateSpec ErrorSpec GroupSpec CountSpec.
Import MapFacts SortFacts GroupFacts PieFacts HistogramFacts ErrorFacts.
Local Open Scope Z_scope.

Lemma length_set_ge {K V : Type} (eqb : K -> K -> bool) (m : list (K * V)) (k : K) (v : V) :
  (List.length m <= List.length (JsMap.set eqb m k v))%nat.
Proof.
  induction m as [|[k' v'] m IH]; cbn [JsMap.set List.length]; [lia|].
  destruct (eqb k' k); cbn [List.length]; lia.
Qed.

Lemma length_fold_bump_ge {K A : Type} (eqb : K -> K -> bool) (key : A -> K)
    (l : list A) (m : list (K * Z)) :
  (List.length m <= List.length (fold_left (bump eqb key) l m))%nat.
Proof.
  revert m. induction l as [|a l IH]; intros m; cbn [fold_left]; [lia|].
  etransitivity; [|apply IH]. apply length_set_ge.
Qed.

Lemma slice_last_length {A : Type} (n : nat) (l : list A) :
  List.length (Js.slice_last n l) = Nat.min n (List.length l).
Proof. unfold Js.slice_last. rewrite length_skipn. lia. Qed.

Lemma slice_last_map {A B : Type} (f : A -> B) (n : nat) (l : list A) :
  map f (Js.slice_last n l) = Js.slice_last n (map f l).
Proof. unfold Js.slice_last. now rewrite skipn_map, length_map. Qed.

Section Hourly.

Import ErrorChart.

Variables (now : Z) (errorLogs : list LogEntry).

Local Abbreviation final := (fold_left (bump Z.eqb hour_of) errorLogs (init_hours now)).

Lemma hourly_is_values : hourly now errorLogs = JsMap.values final.
Proof. reflexivity. Qed.

Lemma hourly_length : (24 <= List.length (hourly now errorLogs))%nat.
Proof.
  rewrite hourly_is_values. unfold JsMap.values. rewrite length_map.
  etransitivity; [|apply length_fold_bump_ge].
  rewrite init_hours_window, length_map. unfold window. rewrite length_map, length_rev, length_seq.
  lia.
Qed.

Lemma hourly_sum : Js.sum (hourly now errorLogs) = Z.of_nat (List.length errorLogs).
Proof.
  rewrite hourly_is_values, sum_values_fold, init_hours_window, sum_of_zeros. lia.
Qed.

Lemma hourly_nonneg : Forall (fun v => 0 <= v) (hourly now errorLogs).
Proof.
  rewrite hourly_is_values.
  rewrite (values_by_keys Z.eqb z_eqb_eq).
  - apply Forall_forall. intros v Hv. apply in_map_iff in Hv as [k [<- _]].
    rewrite (get_fold _ z_eqb_eq), get_init_hours. unfold occurrences. lia.
  - apply (NoDup_keys_fold _ z_eqb_eq). rewrite keys_init_hours. apply window_NoDup.
Qed.

End Hourly.

(** The error analysis of one or more records has an hourly series of at
    least 24 counts, none negative, that add up to the number of error
    records, whether the records fall in the last 24 hours or not; and it
    lists the last error records of the sequence, five at most, the last
    one first. *)
Theorem error_hourly_series (now : Z) (log : LogEntry) (logs : list LogEntry) :
  let all := log :: logs in
  let r := ErrorChart.ErrorChart now all in
  (exists hourly,
     ErrorChart.hourlyData r = Some hourly
     /\ (24 <= List.length hourly)%nat
     /\ Forall (fun v => 0 <= v) hourly
     /\ Js.sum hourly = count_where is_error all)
  /\ List.length (ErrorChart.errors r) = Nat.min 5 (List.length (filter is_error all))
  /\ map ErrorChart.err_time (ErrorChart.errors r)
     = rev (Js.slice_last 5 (map _time (filter is_error all))).
Proof.
  intros all r. split; [|split].
  - exists (ErrorChart.hourly now (filter is_error all)).
    split; [reflexivity|]. split; [apply hourly_length|].
    split; [apply hourly_nonneg | apply hourly_sum].
  - unfold r, all, ErrorChart.ErrorChart. cbn [ErrorChart.errors].
    now rewrite length_map, length_rev, slice_last_length.
  - unfold r, all, ErrorChart.ErrorChart. cbn [ErrorChart.errors].
    rewrite map_map. cbn [ErrorChart.err_time].
    now rewrite <- slice_last_map, map_rev.
Qed.

Section Host.

Import HostChart.

Variables (now : Z) (logs : list LogEntry).

Local Abbreviation recent_logs := (filter (fun log => (now - 5 * 60 * 1000 <? _time log)%Z) logs).
Local Abbreviation recent := (count_by ByHost "Unknown" recent_logs).
Local Abbreviation row_of :=
  (fun entry : string * Z =>
     let activity := JsMap.get String.eqb recent (fst entry) in
     mkHostCount (fst entry) (snd entry) (JsMap.or0 activity)
       (match activity with
        | Some n => if (0 <? n)%Z then "active"%string else "inactive"%string
        | None => "inactive"%string
        end)).
Local Abbreviation rows := (map row_of (JsObject.entries (hostCounts logs))).
Local Abbreviation by_count := (fun a b : HostCount => (count b <=? count a)%Z).

Lemma HostChart_rows : HostChart now logs = Js.slice0 8 (Js.sort_by by_count rows).
Proof. destruct logs; reflexivity. Qed.

Lemma occurrences_filter_le {A K : Type} (eqb : K -> K -> bool) (key : A -> K) (k : K)
    (p : A -> bool) (l : list A) :
  occurrences eqb key k (filter p l) <= occurrences eqb key k l.
Proof.
  unfold occurrences. induction l as [|a l IH]; cbn [filter List.length]; [lia|].
  destruct (p a); cbn [filter]; destruct (eqb (key a) k); cbn [List.length]; lia.
Qed.

Lemma host_row (entry : string * Z) :
  In entry (hostCounts logs) ->
  let row := row_of entry in
  count row = records_in_group ByHost "Unknown" (host_name row) logs
  /\ 0 < count row
  /\ recentActivity row = records_in_group ByHost "Unknown" (host_name row) recent_logs
  /\ 0 <= recentActivity row <= count row
  /\ (status row = "active"%string <-> 0 < recentActivity row).
Proof.
  destruct entry as [host n]. intros Hin row.
  destruct (entry_count ByHost "Unknown" logs host n Hin) as [En Hpos].
  assert (recentActivity row = records_in_group ByHost "Unknown" host recent_logs) as Er
    by apply count_by_key.
  cbn [row count host_name fst snd].
  split; [exact En|]. split; [exact Hpos|]. split; [exact Er|]. split.
  - rewrite Er, En. unfold records_in_group. split; [unfold occurrences; lia|].
    apply occurrences_filter_le.
  - cbn [row recentActivity status fst].
    destruct (JsMap.get String.eqb recent host) as [m|]; cbn [JsMap.or0].
    + destruct (0 <? m) eqn:E.
      * apply Z.ltb_lt in E. tauto.
      * apply Z.ltb_ge in E. split; [discriminate | lia].
    + split; [discriminate | lia].
Qed.

Lemma rows_names : map host_name rows = map fst (JsObject.entries (hostCounts logs)).
Proof. rewrite map_map. reflexivity. Qed.

End Host.


End SeriesFacts.

(* ------------------------------------------------------------------ *)
(** * The handlers of the query builder *)

Module BuilderFacts.

Import JsString QueryBuilder Utils QuerySpec QueryTextSpec QueryBuilderState QueryModelFacts.
Local Open Scope string_scope.

Lemma removeFilter_app (id : string) (l1 l2 : list Filter) :
  removeFilter id (l1 ++ l2) = (removeFilter id l1 ++ removeFilter id l2)%list.
Proof. apply filter_app. Qed.

Lemma removeFilter_fresh (id : string) (filters : list Filter) :
  (forall f, In f filters -> QueryBuilder.id f <> id) -> removeFilter id filters = filters.
Proof.
  intros H. unfold removeFilter. induction filters as [|f filters IH]; [reflexivity|].
  cbn [filter]. assert (String.eqb (QueryBuilder.id f) id = false) as ->.
  { apply String.eqb_neq, H. now left. }
  cbn [negb]. f_equal. apply IH. intros g Hg. apply H. now right.
Qed.

(** Removing the filter that was just added gives back the filters there
    were, but for those that carry the same id, the decimal numeral of the
    same millisecond: they are removed with it.  An update or a removal by
    an id that no filter carries changes nothing. *)
Theorem removeFilter_undoes_addFilter
    (now : Z) (fieldNames : list string) (filters : list Filter) :
  let id := Js.toString now in
  removeFilter id (addFilter now fieldNames filters) = removeFilter id filters
  /\ ((forall f, In f filters -> QueryBuilder.id f <> id) ->
      removeFilter id (addFilter now fieldNames filters) = filters)
  /\ (forall other updates,
        (forall f, In f filters -> QueryBuilder.id f <> other) ->
        removeFilter other filters = filters /\ updateFilter other updates filters = filters).
Proof.
  intros id.
  assert (removeFilter id (addFilter now fieldNames filters) = removeFilter id filters) as E.
  { unfold addFilter. rewrite removeFilter_app. unfold removeFilter at 2.
    cbn [filter QueryBuilder.id]. fold id. rewrite String.eqb_refl. cbn [negb].
    apply app_nil_r. }
  split; [exact E|]. split.
  - intros H. rewrite E. now apply removeFilter_fresh.
  - intros other updates H. split; [now apply removeFilter_fresh|].
    unfold updateFilter. rewrite <- (map_id filters) at 2.
    apply map_ext_in. intros f Hf.
    assert (String.eqb (QueryBuilder.id f) other = false) as ->; [|reflexivity].
    apply String.eqb_neq, H, Hf.
Qed.

(** A filter that was just added has no value yet, so it leaves the built
    query as it was; the query of a builder that holds nothing but added
    filters is the match-all query. *)
Theorem addFilter_keeps_query (now : Z) (fieldNames : list string) (filters : list Filter) :
  buildQueryFromFilters (addFilter now fieldNames filters) = buildQueryFromFilters filters
  /\ buildQueryFromFilters (addFilter now fieldNames []) = "*"
  /\ (buildQueryFromFilters filters = "*" ->
      buildQueryFromFilters (addFilter now fieldNames filters) = "*").
Proof.
  assert (forall l, buildQueryFromFilters (addFilter now fieldNames l) = buildQueryFromFilters l)
    as E.
  { intros l. unfold addFilter.
    rewrite (buildQuery_skips_invalid l [] _); [now rewrite app_nil_r | now right]. }
  split; [apply E|]. split; [rewrite E; reflexivity|].
  intros H. now rewrite E.
Qed.

(** After the raw query is edited, Execute calls [onExecute] exactly when
    the edited text is valid; the edit stores the text and the reason of
    an invalid one, and leaves the mode and the filters alone. *)
Theorem execute_runs_only_valid_raw_query (value : string) (st : State) :
  let st' := handleRawQueryChange value st in
  handleExecute st' = isValid (validateLogsQLQuery value)
  /\ queryError st' = (if isValid (validateLogsQLQuery value) then None
                       else error (validateLogsQLQuery value))
  /\ rawQuery st' = value
  /\ mode st' = mode st
  /\ QueryBuilderState.filters st' = QueryBuilderState.filters st.
Proof.
  intros st'. unfold st', handleRawQueryChange, handleExecute, error_of.
  cbn [queryError rawQuery mode QueryBuilderState.filters].
  rewrite validate_is_validate_spec. unfold validate_spec.
  destruct (forallb is_whitespace (chars value)); [repeat split; reflexivity|].
  destruct (negb (_ =? _)%nat); [repeat split; reflexivity|].
  destruct (Nat.odd _); repeat split; reflexivity.
Qed.

(** ** The built query under validation *)

Lemma chars_app (a b : string) : chars (a ++ b) = (chars a ++ chars b)%list.
Proof.
  induction a as [|c a IH]; [reflexivity|].
  cbn [append chars list_ascii_of_string app]. f_equal. exact IH.
Qed.

Local Abbreviation cnt := (fun (c : ascii) (s : string) => count_occ ascii_dec (chars s) c).

Lemma cnt_app (c : ascii) (a b : string) : cnt c (a ++ b) = (cnt c a + cnt c b)%nat.
Proof. cbn beta. rewrite chars_app. apply count_occ_app. Qed.

Lemma cnt_render (c : ascii) (f : Filter) :
  exists k, cnt c (renderFilter f) = (cnt c (clause_text f) + 2 * k)%nat
            /\ (c <> dquote_char -> k = 0%nat).
Proof.
  unfold renderFilter, clause_text. destruct (needsQuotes (value f)).
  - exists (cnt c dquote). rewrite !cnt_app. split; [lia|].
    intros Hne. unfold dquote. cbn [chars list_ascii_of_string count_occ].
    destruct (ascii_dec dquote_char c); [congruence | reflexivity].
  - exists 0%nat. split; [lia | reflexivity].
Qed.

Lemma cnt_joined (c : ascii) (l : list Filter) :
  cnt c " AND " = 0%nat ->
  exists k, cnt c (join " AND " (map renderFilter l))
            = (cnt c (String.concat "" (map clause_text l)) + 2 * k)%nat
            /\ (c <> dquote_char -> k = 0%nat).
Proof.
  intros Hsep. induction l as [|f [|g l] IH].
  - exists 0%nat. split; reflexivity.
  - apply cnt_render.
  - destruct IH as [k [Ek Hk]]. destruct (cnt_render c f) as [k' [Ek' Hk']].
    exists (k + k')%nat. split.
    + change (join " AND " (map renderFilter (f :: g :: l)))
        with (renderFilter f ++ " AND " ++ join " AND " (map renderFilter (g :: l))).
      change (String.concat "" (map clause_text (f :: g :: l)))
        with (clause_text f ++ "" ++ String.concat "" (map clause_text (g :: l))).
      rewrite !cnt_app. cbn beta in *. rewrite Ek, Ek', Hsep. cbn [chars list_ascii_of_string count_occ]. lia.
    + intros Hne. rewrite (Hk Hne), (Hk' Hne). reflexivity.
Qed.

Lemma odd_add_even (n k : nat) : Nat.odd (n + 2 * k) = Nat.odd n.
Proof. rewrite Nat.odd_add_mul_2. reflexivity. Qed.

Lemma operator_not_blank (op : string) :
  In op (map op_value OPERATORS) -> forallb is_whitespace (chars op) = false.
Proof.
  cbn. intros H.
  repeat (destruct H as [<-|H]; [reflexivity|]). destruct H.
Qed.

Lemma blank_app (a b : string) :
  forallb is_whitespace (chars (a ++ b))
  = forallb is_whitespace (chars a) && forallb is_whitespace (chars b).
Proof. rewrite chars_app. apply forallb_app. Qed.

Lemma joined_head (sep p : string) (rest : list string) :
  exists tail, join sep (p :: rest) = p ++ tail.
Proof.
  destruct rest as [|q rest].
  - exists "". cbn [join]. induction p as [|c p IH]; [reflexivity|]. cbn [append]. now rewrite <- IH.
  - exists (sep ++ join sep (q :: rest)). reflexivity.
Qed.

Lemma concat_head (p : string) (rest : list string) :
  exists tail, String.concat "" (p :: rest) = p ++ tail.
Proof.
  destruct rest as [|q rest].
  - exists "". cbn [String.concat]. induction p as [|c p IH]; [reflexivity|]. cbn [append]. now rewrite <- IH.
  - exists ("" ++ String.concat "" (q :: rest)). reflexivity.
Qed.

Lemma clause_not_blank (f : Filter) (tail : string) (v : string) :
  forallb is_whitespace (chars (operator f)) = false ->
  forallb is_whitespace (chars ((field f ++ operator f ++ v) ++ tail)) = false.
Proof.
  intros H. rewrite !blank_app, H. now rewrite andb_false_r.
Qed.

(** Quoting the values and joining the clauses decide nothing about the
    validity of the query that the builder builds: with operators of the
    table, the built query is never reported empty, and it passes or
    fails validation, with the same reason, as the text of its valid clauses
    written one after the other without quotes does; without a valid
    clause it is the match-all query, which is valid. *)
Theorem built_query_validation (filters : list Filter) :
  (forall f, In f filters -> In (operator f) (map op_value OPERATORS)) ->
  validateLogsQLQuery (buildQueryFromFilters filters)
  = match filter is_valid_clause filters with
    | [] => valid_query
    | _ => validateLogsQLQuery (clauses_text filters)
    end
  /\ validateLogsQLQuery (buildQueryFromFilters filters) <> empty_query.
Proof.
  intros Hops.
  assert (validateLogsQLQuery (buildQueryFromFilters filters)
          = match filter is_valid_clause filters with
            | [] => valid_query
            | _ => validateLogsQLQuery (clauses_text filters)
            end
          /\ forallb is_whitespace (chars (buildQueryFromFilters filters)) = false) as [E Hnb].
  { unfold buildQueryFromFilters, clauses_text. rewrite valid_filter_eq.
    assert (forall f, In f (filter is_valid_clause filters) ->
                      forallb is_whitespace (chars (operator f)) = false) as Hvalid.
    { intros f Hf. apply filter_In in Hf as [Hf _]. apply operator_not_blank, Hops, Hf. }
    destruct (filter is_valid_clause filters) as [|f valid]; [split; reflexivity|].
    cbn [List.length Nat.eqb].
    set (l := f :: valid) in *.
    assert (forallb is_whitespace (chars (join " AND " (map renderFilter l))) = false) as B1.
    { destruct (joined_head " AND " (renderFilter f) (map renderFilter valid)) as [tail Et].
      unfold l. cbn [map]. rewrite Et. unfold renderFilter.
      apply clause_not_blank, Hvalid. now left. }
    assert (forallb is_whitespace (chars (String.concat "" (map clause_text l))) = false) as B2.
    { destruct (concat_head (clause_text f) (map clause_text valid)) as [tail Et].
      unfold l. cbn [map]. rewrite Et. unfold clause_text.
      apply clause_not_blank, Hvalid. now left. }
    split; [|exact B1].
    rewrite !validate_is_validate_spec. unfold validate_spec. rewrite B1, B2.
    destruct (cnt_joined "("%char l eq_refl) as [k1 [E1 H1]].
    destruct (cnt_joined ")"%char l eq_refl) as [k2 [E2 H2]].
    destruct (cnt_joined dquote_char l eq_refl) as [k3 [E3 _]].
    cbn beta in E1, E2, E3.
    rewrite (H1 ltac:(discriminate)), Nat.add_0_r in E1.
    rewrite (H2 ltac:(discriminate)), Nat.add_0_r in E2.
    rewrite E1, E2, E3, odd_add_even. reflexivity. }
  split; [exact E|].
  rewrite validate_is_validate_spec. unfold validate_spec. rewrite Hnb.
  destruct (negb (_ =? _)%nat); [discriminate|].
  destruct (Nat.odd _); discriminate.
Qed.

(** Two clauses, one of them with a value that is quoted: quoted and
    joined they are valid, as they are unquoted and unjoined. *)
Lemma built_query_validation_example :
  let filters := [mkFilter "1" "service" "=" "api gateway"; mkFilter "2" "level" "!=" "DEBUG"] in
  validateLogsQLQuery (buildQueryFromFilters filters) = valid_query
  /\ validateLogsQLQuery (clauses_text filters) = valid_query.
Proof.
  cbv zeta.
  match goal with
  | |- validateLogsQLQuery (buildQueryFromFilters ?l) = _ /\ _ =>
      destruct (built_query_validation l) as [E _]
  end.
  - intros f [<-|[<-|[]]]; cbn; tauto.
  - split; [rewrite E|]; vm_compute; reflexivity.
Defined.

End BuilderFacts.

(* ------------------------------------------------------------------ *)
(** * The text helpers *)

Module TextFacts.

Import JsString UtilsText LevelSpec QueryModelFacts NumeralFacts.
Local Open Scope string_scope.

(** ** Truncation *)

Lemma substring_length (n : nat) (s : string) :
  String.length (substring 0 n s) = Nat.min n (String.length s).
Proof.
  revert s. induction n as [|n IH]; intros [|c s]; cbn [substring String.length Nat.min];
    try reflexivity. now rewrite IH.
Qed.

Lemma substring_prefix (n : nat) (s : string) : prefix (substring 0 n s) s = true.
Proof.
  revert s. induction n as [|n IH]; intros [|c s]; cbn [substring prefix]; try reflexivity.
  destruct (ascii_dec c c) as [_|Hne]; [apply IH | congruence].
Qed.

(** A text within the limit is returned as it is; a longer one is cut to
    the limit and gets three dots, so the result has the limit plus 3
    characters and begins like the text.  The result is therefore longer
    than the text itself exactly when the text is one or two characters
    over the limit. *)
Theorem truncateText_length (text : string) (maxLength : nat) :
  let result := truncateText text maxLength in
  (String.length text <= maxLength -> result = text)%nat
  /\ (maxLength < String.length text ->
      result = substring 0 maxLength text ++ "..."
      /\ String.length result = maxLength + 3)%nat
  /\ prefix (substring 0 maxLength text) text = true
  /\ (String.length result <= Nat.max (String.length text) (maxLength + 3))%nat
  /\ (String.length text < String.length result
      <-> maxLength < String.length text < maxLength + 3)%nat.
Proof.
  intros result. unfold result, truncateText.
  destruct (String.length text <=? maxLength)%nat eqn:E.
  - apply Nat.leb_le in E. repeat split; try lia; try reflexivity.
    apply substring_prefix.
  - apply Nat.leb_gt in E.
    assert (String.length (substring 0 maxLength text ++ "...") = maxLength + 3)%nat as El.
    { rewrite length_append, substring_length. cbn [String.length]. lia. }
    rewrite El. repeat split; try lia; try reflexivity. apply substring_prefix.
Qed.

(** ** The class and the colour of a level *)

Lemma class_of_tier (level : string) :
  getLogLevelClass level
  = match (if truthy level then tier_of level else tier_info) with
    | tier_debug => "log-level-debug"
    | tier_info => "log-level-info"
    | tier_warn => "log-level-warn"
    | tier_error => "log-level-error"
    | tier_fatal => "log-level-fatal"
    end.
Proof.
  unfold getLogLevelClass, tier_of. destruct (truthy level); [|reflexivity].
  cbn [negb]. cbv zeta.
  repeat match goal with
         | |- context [String.eqb ?a ?b] => destruct (String.eqb a b) eqn:?
         end; try reflexivity;
  repeat match goal with
         | H : String.eqb _ _ = true |- _ => apply String.eqb_eq in H
         end; congruence.
Qed.

Lemma color_of_tier (level : string) :
  Chart.getLogLevelColor level
  = match (if truthy level then tier_of level else tier_info) with
    | tier_debug => "#6b7280"
    | tier_info => "#3b82f6"
    | tier_warn => "#f59e0b"
    | tier_error => "#ef4444"
    | tier_fatal => "#dc2626"
    end.
Proof.
  unfold Chart.getLogLevelColor, tier_of. destruct (truthy level); [|reflexivity].
  cbn [negb]. cbv zeta.
  repeat match goal with
         | |- context [String.eqb ?a ?b] => destruct (String.eqb a b) eqn:?
         end; try reflexivity;
  repeat match goal with
         | H : String.eqb _ _ = true |- _ => apply String.eqb_eq in H
         end; congruence.
Qed.

Lemma upper_char_idempotent (c : ascii) : upper_char (upper_char c) = upper_char c.
Proof.
  unfold upper_char.
  destruct ((97 <=? nat_of_ascii c) && (nat_of_ascii c <=? 122))%nat eqn:E.
  - apply andb_true_iff in E as [E1 E2].
    apply Nat.leb_le in E1. apply Nat.leb_le in E2.
    rewrite nat_ascii_embedding by lia.
    assert ((97 <=? nat_of_ascii c - 32) = false)%nat as -> by (apply Nat.leb_gt; lia).
    reflexivity.
  - now rewrite E.
Qed.

Lemma toUpperCase_idempotent (s : string) : toUpperCase (toUpperCase s) = toUpperCase s.
Proof.
  induction s as [|c s IH]; [reflexivity|].
  cbn [toUpperCase]. now rewrite upper_char_idempotent, IH.
Qed.

Lemma truthy_toUpperCase (s : string) : truthy (toUpperCase s) = truthy s.
Proof. destruct s; reflexivity. Qed.

(** The CSS class and the colour of a level go together: two levels have
    the same class exactly when they have the same colour; and neither
    depends on the case of the letters of the level. *)
Theorem level_class_matches_color (a b : string) :
  (getLogLevelClass a = getLogLevelClass b
   <-> Chart.getLogLevelColor a = Chart.getLogLevelColor b)
  /\ getLogLevelClass (toUpperCase a) = getLogLevelClass a
  /\ Chart.getLogLevelColor (toUpperCase a) = Chart.getLogLevelColor a.
Proof.
  split; [|split].
  - rewrite !class_of_tier, !color_of_tier.
    destruct (if truthy a then tier_of a else tier_info),
             (if truthy b then tier_of b else tier_info);
      split; intros H; try reflexivity; discriminate.
  - rewrite !class_of_tier, truthy_toUpperCase. unfold tier_of.
    now rewrite toUpperCase_idempotent.
  - rewrite !color_of_tier, truthy_toUpperCase. unfold tier_of.
    now rewrite toUpperCase_idempotent.
Qed.

(** ** Splitting a query and joining it again *)

Lemma prefix_app (s rest : string) : prefix s (s ++ rest) = true.
Proof.
  induction s as [|c s IH]; [apply prefix_empty|].
  cbn [append prefix]. destruct (ascii_dec c c); [exact IH | congruence].
Qed.

(** The characters of a separator are passed over. *)
Lemma split_scan_skip (sep t rest : string) :
  split_scan sep (String.length t) (t ++ rest) = split_scan sep 0 rest.
Proof.
  induction t as [|c t IH]; [destruct rest; reflexivity|].
  cbn [String.length append split_scan]. exact IH.
Qed.

Lemma split_scan_sep (rest : string) :
  split_scan " AND " 0 (" AND " ++ rest) = EmptyString :: split_scan " AND " 0 rest.
Proof.
  change (" AND " ++ rest) with (String " " ("AND " ++ rest)).
  cbn [split_scan]. change (String " " ("AND " ++ rest)) with (" AND " ++ rest).
  rewrite prefix_app. reflexivity.
Qed.

Lemma prefix_of_prefix (a b s : string) : prefix (a ++ b) s = true -> prefix a s = true.
Proof.
  revert s. induction a as [|c a IH]; intros s H; [apply prefix_empty|].
  destruct s as [|d s]; [discriminate H|].
  cbn [append prefix] in *. destruct (ascii_dec c d); [now apply IH | discriminate H].
Qed.

Lemma prefix_shorter (s : string) : prefix " AND " s = true -> prefix " AND" s = true.
Proof. apply (prefix_of_prefix " AND" " " s). Qed.

Lemma includes_tail (c : ascii) (s sub : string) :
  includes (String c s) sub = false -> prefix sub (String c s) = false /\ includes s sub = false.
Proof.
  cbn [includes]. destruct (prefix sub (String c s)); [discriminate|]. now split.
Qed.

(** A piece that does not hold " AND" cannot form the separator with the
    characters that follow it. *)
Lemma no_early_separator (c : ascii) (p rest : string) :
  prefix " AND" (String c p) = false ->
  prefix " AND " (String c p ++ " AND " ++ rest) = false.
Proof.
  intros H. destruct (prefix " AND " (String c p ++ " AND " ++ rest)) eqn:E; [|reflexivity].
  exfalso.
  destruct p as [|c1 [|c2 [|c3 p]]]; cbn [append prefix] in E, H;
    repeat match goal with
           | H : context [ascii_dec ?x ?y] |- _ =>
               destruct (ascii_dec x y); try discriminate; subst
           end.
  rewrite prefix_empty in H. discriminate.
Qed.

Lemma split_piece (p rest : string) :
  includes p " AND" = false ->
  split_scan " AND " 0 (p ++ " AND " ++ rest) = p :: split_scan " AND " 0 rest.
Proof.
  induction p as [|c p IH]; intros H.
  - apply split_scan_sep.
  - apply includes_tail in H as [Hp Hi].
    change (String c p ++ " AND " ++ rest) with (String c (p ++ " AND " ++ rest)).
    cbn [split_scan].
    change (String c (p ++ " AND " ++ rest)) with (String c p ++ " AND " ++ rest).
    rewrite (no_early_separator c p rest Hp), (IH Hi). reflexivity.
Qed.

Lemma split_last_piece (p : string) :
  includes p " AND" = false -> split_scan " AND " 0 p = [p].
Proof.
  induction p as [|c p IH]; intros H; [reflexivity|].
  apply includes_tail in H as [Hp Hi]. cbn [split_scan].
  destruct (prefix " AND " (String c p)) eqn:E.
  - apply prefix_shorter in E. congruence.
  - now rewrite (IH Hi).
Qed.

(** Splitting at " AND " undoes joining with it, for pieces without " AND". *)
Lemma split_join (p : string) (pieces : list string) :
  (forall q, In q (p :: pieces) -> includes q " AND" = false) ->
  split_on " AND " (join " AND " (p :: pieces)) = p :: pieces.
Proof.
  unfold split_on. revert p. induction pieces as [|q pieces IH]; intros p H.
  - cbn [join]. apply split_last_piece, H. now left.
  - change (join " AND " (p :: q :: pieces)) with (p ++ " AND " ++ join " AND " (q :: pieces)).
    rewrite split_piece by (apply H; now left).
    f_equal. apply IH. intros r Hr. apply H. now right.
Qed.

Lemma parse_filters (parts : list string) (parsed : ParsedQuery) :
  (forall f, In f parts -> includes f "_time:" = false) ->
  fold_left parse_part parts parsed
  = mkParsedQuery (filters parsed ++ parts) (timeRange parsed).
Proof.
  revert parsed. induction parts as [|f parts IH]; intros parsed H.
  - cbn [fold_left]. rewrite app_nil_r. now destruct parsed.
  - cbn [fold_left]. rewrite IH by (intros g Hg; apply H; now right).
    unfold parse_part. rewrite (H f (or_introl eq_refl)).
    cbn [filters timeRange]. now rewrite <- app_assoc.
Qed.

Lemma map_trim (parts : list string) :
  (forall f, In f parts -> trim f = f) -> map trim parts = parts.
Proof.
  intros H. rewrite <- (map_id parts) at 2. apply map_ext_in. exact H.
Qed.

(** Parsing undoes building: filters that are trimmed and hold neither
    " AND" nor "_time:", with a time range that is trimmed, holds "_time:"
    and no " AND", or with no time range, come back as they were from the
    query built of them, provided there is a filter or a time range.
    Built of no filter and no time range the query is empty, and parses to
    one empty filter. *)
Theorem parse_build_round_trip (filters : list string) (timeRange : option string) :
  (forall f, In f filters ->
     trim f = f /\ includes f " AND" = false /\ includes f "_time:" = false) ->
  (forall t, timeRange = Some t ->
     trim t = t /\ includes t " AND" = false /\ includes t "_time:" = true) ->
  filters <> [] \/ timeRange <> None ->
  parseLogsQLQuery (buildLogsQLQuery filters timeRange) = mkParsedQuery filters timeRange
  /\ parseLogsQLQuery (buildLogsQLQuery [] None) = mkParsedQuery [""] None.
Proof.
  intros Hf Ht Hne. split; [|reflexivity].
  unfold parseLogsQLQuery, buildLogsQLQuery.
  destruct timeRange as [t|].
  - destruct (Ht t eq_refl) as (Htrim & Hand & Htime).
    assert (truthy t = true) as -> by (destruct t; [discriminate Htime | reflexivity]).
    assert (exists p pieces, (filters ++ [t])%list = p :: pieces) as (p & pieces & E).
    { destruct filters as [|f fs]; [exists t, [] | exists f, (fs ++ [t])%list]; reflexivity. }
    rewrite E, split_join.
    + rewrite <- E, map_trim.
      * rewrite fold_left_app, (parse_filters filters) by (intros f H; apply Hf, H).
        cbn [fold_left]. unfold parse_part. rewrite Htime. reflexivity.
      * intros f H. apply in_app_or in H as [H|[<-|[]]]; [apply Hf, H | exact Htrim].
    + intros q Hq. rewrite <- E in Hq.
      apply in_app_or in Hq as [H|[<-|[]]]; [apply Hf, H | exact Hand].
  - destruct filters as [|f fs]; [destruct Hne as [H|H]; contradiction|].
    rewrite split_join by (intros q Hq; apply Hf, Hq).
    rewrite map_trim by (intros q Hq; apply Hf, Hq).
    rewrite parse_filters by (intros q Hq; apply Hf, Hq). reflexivity.
Qed.

(** Two filters and a time range. *)
Lemma parse_build_round_trip_example :
  parseLogsQLQuery (buildLogsQLQuery ["level:error"; "service:api"] (Some "_time:5m"))
  = mkParsedQuery ["level:error"; "service:api"] (Some "_time:5m").
Proof.
  apply (parse_build_round_trip ["level:error"; "service:api"] (Some "_time:5m")).
  - intros f [<-|[<-|[]]]; repeat split; reflexivity.
  - intros t E. injection E as <-. repeat split; reflexivity.
  - left. discriminate.
Defined.

End TextFacts.

(* ------------------------------------------------------------------ *)
(** * The statistics of the services *)

Module ServiceFacts.

Import Log ApiServices ServiceSpec MapFacts SortFacts GroupFacts PieFacts.
Local Open Scope Z_scope.

Local Abbreviation get := (JsMap.get String.eqb).
Local Abbreviation set := (JsMap.set String.eqb).
Local Abbreviation fresh :=
  (fun log : LogEntry => mkServiceInfo (service_key log) 0 (_time log) initial_levels).
Local Abbreviation origin :=
  (fun (o : option ServiceInfo) (log : LogEntry) =>
     match o with Some stats => stats | None => fresh log end).

(** A step of the loop sets the entry of the record's service, after
    creating it when it was not there. *)
Lemma service_step_set (m : list (string * ServiceInfo)) (log : LogEntry) :
  service_step m log
  = set (if JsMap.has String.eqb m (service_key log) then m
         else set m (service_key log) (fresh log))
        (service_key log)
        (record_log (origin (get m (service_key log)) log) log).
Proof.
  unfold service_step, JsMap.has. fold (service_key log).
  destruct (get m (service_key log)) as [stats|] eqn:E; cbn [negb].
  - now rewrite E.
  - now rewrite (get_set_same String.eqb string_eqb_eq).
Qed.

Lemma get_service_step (m : list (string * ServiceInfo)) (log : LogEntry) (k : string) :
  get (service_step m log) k
  = if String.eqb (service_key log) k
    then Some (record_log (origin (get m k) log) log)
    else get m k.
Proof.
  rewrite service_step_set. destruct (String.eqb (service_key log) k) eqn:E.
  - apply String.eqb_eq in E. subst k. apply (get_set_same String.eqb string_eqb_eq).
  - apply String.eqb_neq in E.
    rewrite (get_set_other String.eqb string_eqb_eq) by exact E.
    destruct (JsMap.has String.eqb m (service_key log)); [reflexivity|].
    now rewrite (get_set_other String.eqb string_eqb_eq).
Qed.

Lemma keys_service_step (m : list (string * ServiceInfo)) (log : LogEntry) :
  (forall k, In k (JsMap.keys (service_step m log))
             <-> k = service_key log \/ In k (JsMap.keys m))
  /\ (NoDup (JsMap.keys m) -> NoDup (JsMap.keys (service_step m log))).
Proof.
  rewrite service_step_set. split.
  - intros k. rewrite (in_keys_set String.eqb string_eqb_eq).
    destruct (JsMap.has String.eqb m (service_key log)); [reflexivity|].
    rewrite (in_keys_set String.eqb string_eqb_eq). tauto.
  - intros H. apply (NoDup_keys_set String.eqb string_eqb_eq).
    destruct (JsMap.has String.eqb m (service_key log)); [exact H|].
    now apply (NoDup_keys_set String.eqb string_eqb_eq).
Qed.

Lemma sum_map_set {V : Type} (f : V -> Z) (m : list (string * V)) (k : string) (v : V) :
  Js.sum (map f (JsMap.values (set m k v)))
  = Js.sum (map f (JsMap.values m))
    - match get m k with Some old => f old | None => 0 end + f v.
Proof.
  induction m as [|[k' v'] m IH]; cbn [JsMap.set JsMap.get JsMap.values map snd].
  - rewrite sum_cons, sum_nil. lia.
  - destruct (String.eqb k' k); cbn [JsMap.values map snd].
    + rewrite !sum_cons. lia.
    + fold (JsMap.values (set m k v)). fold (JsMap.values m). rewrite !sum_cons, IH. lia.
Qed.

(** Each record adds one to the total of the log counts. *)
Lemma sum_service_step (m : list (string * ServiceInfo)) (log : LogEntry) :
  Js.sum (map logCount (JsMap.values (service_step m log)))
  = Js.sum (map logCount (JsMap.values m)) + 1.
Proof.
  rewrite service_step_set, sum_map_set. unfold JsMap.has.
  destruct (get m (service_key log)) as [stats|] eqn:E.
  - rewrite E. cbn [record_log logCount]. lia.
  - rewrite (get_set_same String.eqb string_eqb_eq), sum_map_set, E.
    cbn [record_log logCount]. lia.
Qed.

Section Services.

Variable logs : list LogEntry.

Local Abbreviation final := (fold_left service_step logs []).

Lemma final_keys :
  NoDup (JsMap.keys final)
  /\ forall k, In k (JsMap.keys final) <-> exists log, In log logs /\ service_key log = k.
Proof.
  induction logs as [|log l IH] using rev_ind.
  - split; [constructor|]. intros k. split; [intros [] | intros [log [[] _]]].
  - rewrite fold_left_app. cbn [fold_left].
    destruct IH as [Hnd Hin].
    destruct (keys_service_step (fold_left service_step l []) log) as [Hk Hn].
    split; [now apply Hn|]. intros k. rewrite Hk, Hin. split.
    + intros [->|[a [Ha Ea]]].
      * exists log. split; [apply in_or_app; right; now left | reflexivity].
      * exists a. split; [apply in_or_app; now left | exact Ea].
    + intros [a [Ha Ea]]. apply in_app_or in Ha as [Ha|[<-|[]]]; [right; eauto | now left].
Qed.

Lemma final_total : Js.sum (map logCount (JsMap.values final)) = Z.of_nat (List.length logs).
Proof.
  induction logs as [|log l IH] using rev_ind; [reflexivity|].
  rewrite fold_left_app. cbn [fold_left].
  rewrite sum_service_step, IH, length_app. cbn [List.length]. lia.
Qed.

End Services.

Lemma initial_level_zero (level : string) : JsMap.or0 (get initial_levels level) = 0.
Proof.
  unfold initial_levels. cbn [JsMap.get].
  repeat match goal with
         | |- context [String.eqb ?a ?b] => destruct (String.eqb a b)
         end; reflexivity.
Qed.

Lemma records_of_snoc (k : string) (l : list LogEntry) (log : LogEntry) :
  records_of k (l ++ [log])
  = (records_of k l ++ (if String.eqb (service_key log) k then [log] else []))%list.
Proof.
  unfold records_of. rewrite filter_app. cbn [filter].
  now destruct (String.eqb (service_key log) k).
Qed.

Lemma records_at_level_snoc (level : string) (l : list LogEntry) (log : LogEntry) :
  Z.of_nat (List.length (records_at_level level (l ++ [log])))
  = Z.of_nat (List.length (records_at_level level l))
    + (if String.eqb (level_key log) level then 1 else 0).
Proof.
  unfold records_at_level. rewrite filter_app, length_app. cbn [filter].
  destruct (String.eqb (level_key log) level); cbn [List.length]; lia.
Qed.

(** What holds of the entry of a service after some of its records. *)
Local Abbreviation counted :=
  (fun (stats : ServiceInfo) (k : string) (records : list LogEntry) =>
     name stats = k
     /\ logCount stats = Z.of_nat (List.length records)
     /\ Js.sum (JsMap.values (levels stats)) = logCount stats
     /\ (forall level, JsMap.or0 (get (levels stats) level)
                       = Z.of_nat (List.length (records_at_level level records)))
     /\ (forall log, In log records -> _time log <= lastSeen stats)).

Lemma record_log_counted (stats : ServiceInfo) (k : string) (records : list LogEntry)
    (log : LogEntry) :
  counted stats k records ->
  In (lastSeen stats) (map _time records) \/ lastSeen stats = _time log ->
  counted (record_log stats log) k (records ++ [log])
  /\ In (lastSeen (record_log stats log)) (map _time (records ++ [log])).
Proof.
  intros (Hname & Hcount & Hsum & Hlevels & Hlast) Hseen.
  cbn [record_log name logCount lastSeen levels]. fold (level_key log).
  split; [split; [exact Hname|]; split; [|split; [|split]]|].
  - rewrite length_app. cbn [List.length]. lia.
  - rewrite sum_values_set. lia.
  - intros level. rewrite records_at_level_snoc.
    destruct (String.eqb (level_key log) level) eqn:E.
    + apply String.eqb_eq in E. subst level.
      rewrite (get_set_same String.eqb string_eqb_eq). cbn [JsMap.or0].
      rewrite Hlevels. lia.
    + apply String.eqb_neq in E.
      rewrite (get_set_other String.eqb string_eqb_eq) by exact E.
      rewrite Hlevels. lia.
  - intros a Ha. apply in_app_or in Ha as [Ha|[<-|[]]].
    + specialize (Hlast a Ha). destruct (lastSeen stats <? _time log) eqn:E; [|lia].
      apply Z.ltb_lt in E. lia.
    + destruct (lastSeen stats <? _time log) eqn:E; [lia|]. apply Z.ltb_ge in E. lia.
  - rewrite map_app, in_app_iff. cbn [map In].
    destruct (lastSeen stats <? _time log) eqn:E; [right; now left|].
    destruct Hseen as [H|H]; [now left | right; left; now symmetry].
Qed.

Lemma fresh_counted (log : LogEntry) : counted (fresh log) (service_key log) [].
Proof.
  cbn [name logCount levels lastSeen List.length].
  split; [reflexivity|]. split; [reflexivity|]. split; [reflexivity|]. split.
  - intros level. apply initial_level_zero.
  - intros a [].
Qed.

(** The entry of a service after the loop: none when the service has no
    record, else the counts and the latest instant of its records. *)
Lemma final_entry (logs : list LogEntry) (k : string) :
  match get (fold_left service_step logs []) k with
  | None => records_of k logs = []
  | Some stats =>
      records_of k logs <> []
      /\ counted stats k (records_of k logs)
      /\ In (lastSeen stats) (map _time (records_of k logs))
  end.
Proof.
  induction logs as [|log l IH] using rev_ind; [reflexivity|].
  rewrite fold_left_app. cbn [fold_left]. rewrite get_service_step, records_of_snoc.
  destruct (String.eqb (service_key log) k) eqn:E.
  - apply String.eqb_eq in E.
    assert (counted (origin (get (fold_left service_step l []) k) log) k (records_of k l)
            /\ (In (lastSeen (origin (get (fold_left service_step l []) k) log))
                   (map _time (records_of k l))
                \/ lastSeen (origin (get (fold_left service_step l []) k) log) = _time log))
      as [Hc Hs].
    { destruct (get (fold_left service_step l []) k) as [stats|].
      - destruct IH as (_ & Hc & Hs). split; [exact Hc | now left].
      - rewrite IH. subst k. split; [apply fresh_counted | now right]. }
    destruct (record_log_counted _ k _ log Hc Hs) as [Hc' Hs'].
    split; [|split; assumption].
    destruct (records_of k l); discriminate.
  - rewrite app_nil_r. exact IH.
Qed.


End ServiceFacts.

(* ------------------------------------------------------------------ *)
(** * The drift detection chart and the comparison chart *)

Module DriftChartFacts.

Import Drift DriftDetectionChart DriftSpec MapFacts SortFacts GroupFacts PieFacts NumberFacts.
Local Open Scope Z_scope.

Lemma Qle_bool_total (x y : Q) : Qle_bool x y = true \/ Qle_bool y x = true.
Proof.
  rewrite !Qle_bool_iff. destruct (Qlt_le_dec x y) as [H|H]; [left | right]; [|exact H].
  now apply Qlt_le_weak.
Qed.

Lemma Qle_bool_trans (x y z : Q) :
  Qle_bool x y = true -> Qle_bool y z = true -> Qle_bool x z = true.
Proof. rewrite !Qle_bool_iff. apply Qle_trans. Qed.

(** ** The rows *)

Lemma processedData_selected (alertFilter : AlertFilter) (data : list DriftRecord) :
  processedData alertFilter data = Js.sort_by larger_delta_first (selected alertFilter data).
Proof. destruct data; [destruct alertFilter; reflexivity | reflexivity]. Qed.

(** The rows of the drift chart are the rows that the alert filter
    selects, each once, those with the larger absolute delta first. *)
Theorem drift_rows_largest_delta_first (alertFilter : AlertFilter) (data : list DriftRecord) :
  let rows := processedData alertFilter data in
  Permutation rows (selected alertFilter data)
  /\ StronglySorted (fun a b => (Qabs (delta b) <= Qabs (delta a))%Q) rows
  /\ (forall row, In row rows -> In row data)
  /\ (alertFilter = filter_warning -> Forall (fun row => alertLevel row = warning) rows)
  /\ (alertFilter = filter_critical -> Forall (fun row => alertLevel row = critical) rows).
Proof.
  intros rows. unfold rows. rewrite processedData_selected.
  assert (forall row, In row (Js.sort_by larger_delta_first (selected alertFilter data)) ->
                      In row (selected alertFilter data)) as Hin
    by (intros row; apply sort_by_In).
  split; [apply sort_by_perm|]. split; [|split; [|split]].
  - apply sorted_impl with (R := fun a b => larger_delta_first a b = true).
    + intros a b H. now apply Qle_bool_iff.
    + apply sort_by_StronglySorted; unfold larger_delta_first.
      * intros a b. apply Qle_bool_total.
      * intros a b c H1 H2. eapply Qle_bool_trans; eassumption.
  - intros row H. apply Hin in H.
    destruct alertFilter; cbn [selected] in H; [exact H | |]; now apply filter_In in H.
  - intros ->. apply Forall_forall. intros row H. apply Hin, filter_In in H as [_ H].
    now destruct (alertLevel row).
  - intros ->. apply Forall_forall. intros row H. apply Hin, filter_In in H as [_ H].
    now destruct (alertLevel row).
Qed.

(** ** The counts *)

Lemma alertCounts_fold (data : list DriftRecord) (init : AlertCounts) :
  let counts := fold_left count_alert data init in
  normal_count counts
    = normal_count init + Z.of_nat (List.length (filter (DriftPage.has_level normal) data))
  /\ warning_count counts
    = warning_count init + Z.of_nat (List.length (filter (DriftPage.has_level warning) data))
  /\ critical_count counts
    = critical_count init + Z.of_nat (List.length (filter (DriftPage.has_level critical) data)).
Proof.
  revert init. induction data as [|d data IH]; intros init; cbn zeta.
  - cbn [fold_left filter List.length]. lia.
  - cbn [fold_left filter]. destruct (IH (count_alert init d)) as (H1 & H2 & H3).
    rewrite H1, H2, H3. unfold count_alert, DriftPage.has_level.
    destruct (alertLevel d);
      cbn [alertLevel_eqb normal_count warning_count critical_count List.length]; lia.
Qed.

Lemma level_partition (data : list DriftRecord) :
  (List.length (filter (DriftPage.has_level normal) data)
   + List.length (filter (DriftPage.has_level warning) data)
   + List.length (filter (DriftPage.has_level critical) data) = List.length data)%nat.
Proof.
  induction data as [|d data IH]; [reflexivity|].
  cbn [filter].
  assert (forall l, DriftPage.has_level l d = alertLevel_eqb (alertLevel d) l) as E
    by reflexivity.
  rewrite !E. destruct (alertLevel d); cbn [alertLevel_eqb List.length]; lia.
Qed.

(** The three alert counts of the chart add up to the number of rows;
    the warning count and the critical count are the numbers of rows that
    the chart lists under the warning filter and under the critical filter;
    and the summary of the page holds the same three counts and their
    total, which is 112 for the rows the page generates. *)
Theorem alert_counts_match_rows (data : list DriftRecord) :
  let counts := alertCounts data in
  let summary := DriftPage.alertSummary data in
  normal_count counts + warning_count counts + critical_count counts
    = Z.of_nat (List.length data)
  /\ warning_count counts = Z.of_nat (List.length (processedData filter_warning data))
  /\ critical_count counts = Z.of_nat (List.length (processedData filter_critical data))
  /\ Z.of_nat (List.length data) = Z.of_nat (List.length (processedData filter_all data))
  /\ normal_count counts = Z.of_nat (DriftPage.normal_rows summary)
  /\ warning_count counts = Z.of_nat (DriftPage.warning_rows summary)
  /\ critical_count counts = Z.of_nat (DriftPage.critical_rows summary)
  /\ (DriftPage.total summary
      = DriftPage.normal_rows summary + DriftPage.warning_rows summary
        + DriftPage.critical_rows summary)%nat
  /\ (forall random w k,
        DriftPage.total (DriftPage.alertSummary (generateDriftData random w k)) = 112%nat).
Proof.
  intros counts summary.
  destruct (alertCounts_fold data (mkAlertCounts 0 0 0)) as (H1 & H2 & H3).
  fold (alertCounts data) in H1, H2, H3. fold counts in H1, H2, H3.
  cbn [normal_count warning_count critical_count] in H1, H2, H3.
  pose proof (level_partition data) as Hp.
  rewrite !processedData_selected, !sort_by_length. cbn [selected].
  unfold summary, DriftPage.alertSummary.
  cbn [DriftPage.total DriftPage.normal_rows DriftPage.warning_rows DriftPage.critical_rows].
  split; [lia|]. split; [exact H2|]. split; [exact H3|]. split; [reflexivity|].
  split; [lia|]. split; [lia|]. split; [lia|]. split; [lia|].
  intros random w k. apply DriftFacts.generateDriftData_length.
Qed.

(** ** The trend series *)

Local Abbreviation get := (JsMap.get String.eqb).
Local Abbreviation set := (JsMap.set String.eqb).
Local Abbreviation empty_group := (mkTimeGroup 0 0 0).
Local Abbreviation add_row :=
  (fun (group : TimeGroup) (item : DriftRecord) =>
     mkTimeGroup (total group + Qabs (delta item))%Q (count group + 1)
       (if negb (alertLevel_eqb (alertLevel item) normal)
        then alerts group + 1 else alerts group)).
Local Abbreviation started :=
  (fun o : option TimeGroup => match o with Some group => group | None => empty_group end).

Lemma group_step_set (acc : list (string * TimeGroup)) (item : DriftRecord) :
  group_step acc item
  = set (if JsMap.has String.eqb acc (timestamp item) then acc
         else set acc (timestamp item) empty_group)
        (timestamp item) (add_row (started (get acc (timestamp item))) item).
Proof.
  unfold group_step, JsMap.has.
  destruct (get acc (timestamp item)) as [group|] eqn:E; cbn [negb].
  - now rewrite E.
  - now rewrite (get_set_same String.eqb string_eqb_eq).
Qed.

Lemma get_group_step (acc : list (string * TimeGroup)) (item : DriftRecord) (t : string) :
  get (group_step acc item) t
  = if String.eqb (timestamp item) t then Some (add_row (started (get acc t)) item)
    else get acc t.
Proof.
  rewrite group_step_set. destruct (String.eqb (timestamp item) t) eqn:E.
  - apply String.eqb_eq in E. subst t. apply (get_set_same String.eqb string_eqb_eq).
  - apply String.eqb_neq in E.
    rewrite (get_set_other String.eqb string_eqb_eq) by exact E.
    destruct (JsMap.has String.eqb acc (timestamp item)); [reflexivity|].
    now rewrite (get_set_other String.eqb string_eqb_eq).
Qed.

Lemma keys_group_step (acc : list (string * TimeGroup)) (item : DriftRecord) :
  (forall t, In t (JsMap.keys (group_step acc item))
             <-> t = timestamp item \/ In t (JsMap.keys acc))
  /\ (NoDup (JsMap.keys acc) -> NoDup (JsMap.keys (group_step acc item))).
Proof.
  rewrite group_step_set. split.
  - intros t. rewrite (in_keys_set String.eqb string_eqb_eq).
    destruct (JsMap.has String.eqb acc (timestamp item)); [reflexivity|].
    rewrite (in_keys_set String.eqb string_eqb_eq). tauto.
  - intros H. apply (NoDup_keys_set String.eqb string_eqb_eq).
    destruct (JsMap.has String.eqb acc (timestamp item)); [exact H|].
    now apply (NoDup_keys_set String.eqb string_eqb_eq).
Qed.

Lemma timeGroups_keys (data : list DriftRecord) :
  NoDup (JsMap.keys (timeGroups data))
  /\ forall t, In t (JsMap.keys (timeGroups data))
               <-> exists row, In row data /\ timestamp row = t.
Proof.
  unfold timeGroups. induction data as [|item l IH] using rev_ind.
  - split; [constructor|]. intros t. split; [intros [] | intros [row [[] _]]].
  - rewrite fold_left_app. cbn [fold_left]. destruct IH as [Hnd Hin].
    destruct (keys_group_step (fold_left group_step l []) item) as [Hk Hn].
    split; [now apply Hn|]. intros t. rewrite Hk, Hin. split.
    + intros [->|[a [Ha Ea]]].
      * exists item. split; [apply in_or_app; right; now left | reflexivity].
      * exists a. split; [apply in_or_app; now left | exact Ea].
    + intros [a [Ha Ea]]. apply in_app_or in Ha as [Ha|[<-|[]]]; [right; eauto | now left].
Qed.

Lemma rows_at_snoc (t : string) (l : list DriftRecord) (item : DriftRecord) :
  rows_at t (l ++ [item])
  = (rows_at t l ++ (if String.eqb (timestamp item) t then [item] else []))%list.
Proof.
  unfold rows_at. rewrite filter_app. cbn [filter].
  now destruct (String.eqb (timestamp item) t).
Qed.

(** The group of a timestamp after the loop is what the tooltip computes
    from the rows of the timestamp. *)
Lemma timeGroups_entry (data : list DriftRecord) (t : string) :
  let rows := rows_at t data in
  let group := started (get (timeGroups data) t) in
  total group = fold_left (fun sum d => (sum + Qabs (delta d))%Q) rows 0%Q
  /\ count group = Z.of_nat (List.length rows)
  /\ alerts group
     = Z.of_nat (List.length
         (filter (fun d => negb (alertLevel_eqb (alertLevel d) normal)) rows))
  /\ (get (timeGroups data) t = None -> rows = []).
Proof.
  unfold timeGroups. induction data as [|item l IH] using rev_ind.
  - cbn. repeat split.
  - cbn zeta in *. rewrite fold_left_app. cbn [fold_left].
    rewrite get_group_step, rows_at_snoc.
    destruct IH as (Ht & Hc & Ha & Hn).
    destruct (String.eqb (timestamp item) t) eqn:E.
    + cbn [total count alerts]. rewrite fold_left_app, filter_app, !length_app.
      cbn [fold_left filter List.length]. rewrite Ht, Hc, Ha.
      split; [reflexivity|]. split; [lia|]. split; [|discriminate].
      destruct (negb (alertLevel_eqb (alertLevel item) normal)); cbn [List.length]; lia.
    + rewrite app_nil_r. repeat split; assumption.
Qed.

(** For one or more rows the trend chart has one label per timestamp of
    the rows, no label twice, in the order of the default sort of strings.
    The point of the Average Delta series at a label is the sum of the
    absolute deltas of the rows of that timestamp divided by their number,
    which is positive, and the point of the Alert Count series is the
    number of those rows that are not normal.  These are the values that
    the tooltip of the point recomputes from the rows, so the tooltip
    agrees with the chart; for the label that is the empty string the
    tooltip has no lines. *)
Theorem drift_trend_series_matches_tooltip (row : DriftRecord) (data : list DriftRecord) :
  let all := row :: data in
  exists series,
    timeSeriesData all = Some series
    /\ NoDup (labels series)
    /\ StronglySorted (fun a b => String.leb a b = true) (labels series)
    /\ (forall t, In t (labels series) <-> exists r, In r all /\ timestamp r = t)
    /\ averageDelta series = map (fun t => avgDelta (tooltip_lines all t)) (labels series)
    /\ alertCount series = map (fun t => tip_alertCount (tooltip_lines all t)) (labels series)
    /\ Forall (fun t => 0 < totalServices (tooltip_lines all t)) (labels series)
    /\ (forall dataIndex t,
          nth_error (labels series) dataIndex = Some t ->
          (t = EmptyString -> afterBody all dataIndex = None)
          /\ (t <> EmptyString ->
              afterBody all dataIndex = Some (tooltip_lines all t)
              /\ nth_error (averageDelta series) dataIndex
                 = Some (avgDelta (tooltip_lines all t))
              /\ nth_error (alertCount series) dataIndex
                 = Some (tip_alertCount (tooltip_lines all t)))).
Proof.
  intros all.
  set (groups := timeGroups all).
  set (sortedTimes := Js.sort_strings (JsObject.keys groups)).
  set (series := mkTimeSeries sortedTimes
            (map (fun t => (total (group_at groups t) / inject_Z (count (group_at groups t)))%Q)
                 sortedTimes)
            (map (fun t => alerts (group_at groups t)) sortedTimes)).
  assert (timeSeriesData all = Some series) as Eseries by reflexivity.
  exists series.
  destruct (timeGroups_keys all) as [Hnd Hkeys]. fold groups in Hnd, Hkeys.
  assert (Permutation sortedTimes (JsMap.keys groups)) as Hperm.
  { unfold sortedTimes, Js.sort_strings, JsObject.keys.
    eapply perm_trans; [apply sort_by_perm|]. apply Permutation_map, entries_perm. }
  assert (forall t, group_at groups t = started (get groups t)) as Hat by reflexivity.
  assert (averageDelta series = map (fun t => avgDelta (tooltip_lines all t)) (labels series))
    as Eavg.
  { unfold series. cbn [labels averageDelta]. apply map_ext. intros t. rewrite Hat.
    destruct (timeGroups_entry all t) as (Ht & Hc & _). fold groups in Ht, Hc.
    unfold tooltip_lines. cbn [avgDelta]. fold (rows_at t all). now rewrite Ht, Hc. }
  assert (alertCount series
          = map (fun t => tip_alertCount (tooltip_lines all t)) (labels series)) as Ealerts.
  { unfold series. cbn [labels alertCount]. apply map_ext. intros t. rewrite Hat.
    destruct (timeGroups_entry all t) as (_ & _ & Ha & _). fold groups in Ha.
    unfold tooltip_lines. cbn [tip_alertCount]. fold (rows_at t all). exact Ha. }
  split; [exact Eseries|].
  split; [apply (Permutation_NoDup (Permutation_sym Hperm)), Hnd|].
  split; [apply sort_strings_sorted|].
  split.
  { intros t. rewrite <- Hkeys. split; apply Permutation_in;
      [exact Hperm | apply Permutation_sym, Hperm]. }
  split; [exact Eavg|]. split; [exact Ealerts|]. split.
  - apply Forall_forall. intros t Ht.
    apply (Permutation_in _ Hperm), Hkeys in Ht as [r [Hr Er]].
    unfold tooltip_lines. cbn [totalServices].
    assert (In r (filter (fun d => String.eqb (timestamp d) t) all)) as Hf.
    { apply filter_In. split; [exact Hr | now apply String.eqb_eq]. }
    destruct (filter _ all); [destruct Hf | cbn [List.length]; lia].
  - intros dataIndex t Hnth. unfold afterBody. rewrite Eseries, Hnth. split.
    + intros ->. reflexivity.
    + intros Hne. destruct t as [|c t]; [contradiction|]. cbn [JsString.truthy].
      split; [reflexivity|].
      rewrite Eavg, Ealerts, !nth_error_map, Hnth. split; reflexivity.
Qed.

(** ** The rows of the comparison *)

Section Baseline.

Import BaselineComparisonChart.

Variable sortBy : SortBy.

Lemma sorts_before_rank (a b : BaselineComparisonData) :
  sorts_before sortBy a b = Qle_bool (rank sortBy b) (rank sortBy a).
Proof. destruct sortBy; reflexivity. Qed.

Lemma baseline_sorted (data : list BaselineComparisonData) :
  StronglySorted (fun a b => (rank sortBy b <= rank sortBy a)%Q)
    (Js.sort_by (sorts_before sortBy) data).
Proof.
  apply sorted_impl with (R := fun a b => sorts_before sortBy a b = true).
  - intros a b H. rewrite sorts_before_rank in H. now apply Qle_bool_iff.
  - apply sort_by_StronglySorted.
    + intros a b. rewrite !sorts_before_rank. apply Qle_bool_total.
    + intros a b c. rewrite !sorts_before_rank. intros H1 H2.
      eapply Qle_bool_trans; eassumption.
Qed.

Lemma baseline_processed (data : list BaselineComparisonData) :
  BaselineComparisonChart.processedData sortBy data
  = firstn 20 (Js.sort_by (sorts_before sortBy) data).
Proof. destruct data; reflexivity. Qed.

Lemma improving_or_worsening (rows : list BaselineComparisonData) :
  (improving rows + worsening rows <= List.length rows)%nat.
Proof.
  unfold improving, worsening. induction rows as [|r rows IH]; [reflexivity|].
  cbn [filter]. destruct (Qle_bool 0 (delta r)) eqn:E1, (Qle_bool (delta r) 0) eqn:E2;
    cbn [negb List.length]; try lia.
  exfalso.
  assert (~ (0 <= delta r)%Q) as H1 by (intros H; apply Qle_bool_iff in H; congruence).
  assert (~ (delta r <= 0)%Q) as H2 by (intros H; apply Qle_bool_iff in H; congruence).
  destruct (Qlt_le_dec 0 (delta r)) as [H|H]; [apply H1; now apply Qlt_le_weak | now apply H2].
Qed.

End Baseline.

(** The comparison chart shows 20 rows at most: the rows given when they
    are 20 or fewer, else 20 of them; it shows them by descending rank,
    the rank being the absolute delta, the absolute percentage change or
    the current count, as chosen; no row it leaves out ranks above a row it
    shows; and the rows counted as improving and as worsening together are
    never more than the rows shown. *)
Theorem comparison_shows_top_twenty
    (sortBy : BaselineComparisonChart.SortBy)
    (data : list BaselineComparisonChart.BaselineComparisonData) :
  let rows := BaselineComparisonChart.processedData sortBy data in
  List.length rows = Nat.min 20 (List.length data)
  /\ StronglySorted (fun a b => (rank sortBy b <= rank sortBy a)%Q) rows
  /\ (exists rest, Permutation (rows ++ rest) data
                   /\ forall shown other, In shown rows -> In other rest ->
                        (rank sortBy other <= rank sortBy shown)%Q)
  /\ ((List.length data <= 20)%nat -> Permutation rows data)
  /\ (BaselineComparisonChart.improving rows + BaselineComparisonChart.worsening rows
      <= List.length rows)%nat.
Proof.
  intros rows. unfold rows. rewrite baseline_processed.
  set (sorted := Js.sort_by (BaselineComparisonChart.sorts_before sortBy) data).
  assert (Permutation sorted data) as Hperm by apply sort_by_perm.
  pose proof (baseline_sorted sortBy data) as Hsorted. fold sorted in Hsorted.
  split; [rewrite length_firstn; unfold sorted; now rewrite sort_by_length|].
  split; [now apply sorted_firstn|]. split; [|split].
  - exists (skipn 20 sorted). split; [now rewrite firstn_skipn|].
    intros shown other Hs Ho.
    apply (sorted_firstn_skipn _ sorted 20 Hsorted shown other Hs Ho).
  - intros Hle. rewrite firstn_all2; [exact Hperm|].
    unfold sorted. now rewrite sort_by_length.
  - apply improving_or_worsening.
Qed.

End DriftChartFacts.

(* ------------------------------------------------------------------ *)
(** * The generated rows of the comparison pages *)

Module GeneratedFacts.

Import Drift DriftSpec NumberFacts.
Local Open Scope Q_scope.

(** A number between two hundredths is rounded to a number between them. *)
Lemma round2_between (lo hi : Z) (x : Q) :
  inject_Z lo <= x * 100 -> x * 100 <= inject_Z hi ->
  inject_Z lo <= Js.round2 x * 100 /\ Js.round2 x * 100 <= inject_Z hi.
Proof.
  intros Hlo Hhi. destruct (Math_round_bounds (x * 100)) as [H1 H2].
  assert (Js.round2 x * 100 == inject_Z (Js.Math_round (x * 100))) as E
    by (unfold Js.round2; field).
  rewrite E. set (m := Js.Math_round (x * 100)) in *.
  split; rewrite <- Zle_Qle.
  - destruct (Z_le_gt_dec lo m) as [H|H]; [exact H|]. exfalso.
    assert (inject_Z m + 1 <= inject_Z lo) as Hq.
    { change 1 with (inject_Z 1). rewrite <- inject_Z_plus, <- Zle_Qle. lia. }
    lra.
  - destruct (Z_le_gt_dec m hi) as [H|H]; [exact H|]. exfalso.
    assert (inject_Z hi + 1 <= inject_Z m) as Hq.
    { change 1 with (inject_Z 1). rewrite <- inject_Z_plus, <- Zle_Qle. lia. }
    lra.
Qed.

Lemma Qabs_bound (x c : Q) : - c <= x -> x <= c -> 0 <= Qabs x /\ Qabs x <= c.
Proof.
  intros H1 H2. split; [apply Qabs_nonneg|]. apply Qabs_Qle_condition. now split.
Qed.

Section Drawn.

Variables (r1 r2 : Q).
Hypothesis r1_range : 0 <= r1 /\ r1 < 1.
Hypothesis r2_range : 0 <= r2 /\ r2 < 1.

Local Abbreviation baseline := (r1 * 100 + 10).

Lemma baseline_range : 10 <= baseline /\ baseline < 110.
Proof. lra. Qed.

(** The change of a drawn pair in percent depends on the second number
    only. *)
Lemma change_of_drawn (lo span : Q) :
  (baseline * (lo + r2 * span) - baseline) / baseline * 100 == (lo + r2 * span - 1) * 100.
Proof. field. pose proof baseline_range. lra. Qed.

End Drawn.

Lemma round2_nonneg (x : Q) : 0 <= x -> 0 <= Js.round2 x.
Proof.
  intros H. destruct (Math_round_bounds (x * 100)) as [Hm _].
  unfold Js.round2. apply Qle_shift_div_l; [reflexivity|]. rewrite Qmult_0_l.
  set (m := Js.Math_round (x * 100)) in *.
  change 0 with (inject_Z 0). rewrite <- Zle_Qle.
  destruct (Z_le_gt_dec 0 m) as [Hz|Hz]; [exact Hz|]. exfalso.
  assert (inject_Z m + 1 <= 0) as Hq.
  { change 1 with (inject_Z 1). change 0 with (inject_Z 0).
    rewrite <- inject_Z_plus, <- Zle_Qle. lia. }
  lra.
Qed.

Lemma drift_record_bounds (w k : Q) (service severity timestamp : string) (r1 r2 : Q) :
  0 <= r1 /\ r1 < 1 -> 0 <= r2 /\ r2 < 1 ->
  let r := driftRecord w k service severity timestamp
             (r1 * 100 + 10) ((r1 * 100 + 10) * ((3 # 10) + r2 * (14 # 10))) in
  10 <= baselinePeriod r /\ baselinePeriod r <= 110
  /\ 0 <= currentPeriod r
  /\ 0 <= percentageChange r /\ percentageChange r <= 70
  /\ (70 <= k -> alertLevel r <> critical)
  /\ (70 <= w -> 70 <= k -> alertLevel r = normal).
Proof.
  intros H1 H2 r. unfold r, driftRecord.
  cbn [baselinePeriod currentPeriod percentageChange alertLevel]. clear r.
  pose proof (baseline_range r1 H1) as Hb.
  pose proof (change_of_drawn r1 r2 H1 (3 # 10) (14 # 10)) as Hc.
  remember (r1 * 100 + 10) as b eqn:Eb. clear Eb.
  remember ((b * ((3 # 10) + r2 * (14 # 10)) - b) / b * 100) as change eqn:Echange.
  clear Echange.
  assert (0 <= Qabs change /\ Qabs change <= 70) as [Ha0 Ha].
  { apply Qabs_bound; rewrite Hc; lra. }
  remember (Qabs change) as magnitude eqn:Em. clear Em Hc.
  assert (0 <= Js.round2 (b * ((3 # 10) + r2 * (14 # 10)))) as Hcur
    by (apply round2_nonneg, Qmult_le_0_compat; lra).
  remember (Js.round2 (b * ((3 # 10) + r2 * (14 # 10)))) as current eqn:Ecur. clear Ecur.
  destruct (round2_between 1000 11000 b) as [Hb1 Hb2]; [unfold inject_Z; lra ..|].
  destruct (round2_between 0 7000 magnitude) as [Hp1 Hp2]; [unfold inject_Z; lra ..|].
  unfold inject_Z in Hb1, Hb2, Hp1, Hp2.
  split; [lra|]. split; [lra|]. split; [exact Hcur|]. split; [lra|]. split; [lra|].
  unfold gt. split.
  - intros Hk. assert (Qle_bool magnitude k = true) as -> by (apply Qle_bool_iff; lra).
    cbn [negb]. destruct (negb (Qle_bool magnitude w)); discriminate.
  - intros Hw Hk.
    assert (Qle_bool magnitude k = true) as -> by (apply Qle_bool_iff; lra).
    assert (Qle_bool magnitude w = true) as -> by (apply Qle_bool_iff; lra).
    reflexivity.
Qed.

(** With random numbers from 0 up to but not including 1, every generated
    drift row has a baseline count between 10 and 110, a current count that
    is not negative and a percentage change between 0 and 70; so no row is
    critical under a critical threshold of 70 or more, and every row is
    normal when both thresholds are 70 or more. *)
Theorem generated_drift_within_seventy (random : nat -> Q) (w k : Q) :
  (forall i, 0 <= random i /\ random i < 1) ->
  Forall (fun r =>
            10 <= baselinePeriod r /\ baselinePeriod r <= 110
            /\ 0 <= currentPeriod r
            /\ 0 <= percentageChange r /\ percentageChange r <= 70
            /\ (70 <= k -> alertLevel r <> critical)
            /\ (70 <= w -> 70 <= k -> alertLevel r = normal))
         (generateDriftData random w k).
Proof.
  intros Hrandom. apply Forall_forall. intros r Hr.
  apply DriftFacts.generateDriftData_records in Hr
    as (i & service & severity & timestamp & ->).
  apply drift_record_bounds; apply Hrandom.
Qed.

(** With every random number one half. *)
Lemma generated_drift_within_seventy_example :
  Forall (fun r =>
            10 <= baselinePeriod r /\ baselinePeriod r <= 110
            /\ 0 <= currentPeriod r
            /\ 0 <= percentageChange r /\ percentageChange r <= 70
            /\ (70 <= 50 -> alertLevel r <> critical)
            /\ (70 <= 20 -> 70 <= 50 -> alertLevel r = normal))
         (generateDriftData always_half 20 50).
Proof.
  apply (generated_drift_within_seventy always_half 20 50).
  intros i. unfold always_half. split; [discriminate | reflexivity].
Defined.

Lemma comparison_row_bounds (service severity : string) (r1 r2 : Q) :
  0 <= r1 /\ r1 < 1 -> 0 <= r2 /\ r2 < 1 ->
  let row := DriftPage.comparisonRow service severity r1 r2 in
  10 <= BaselineComparisonChart.baselinePeriod row
  /\ BaselineComparisonChart.baselinePeriod row <= 110
  /\ - (50) <= BaselineComparisonChart.percentageChange row
  /\ BaselineComparisonChart.percentageChange row <= 50.
Proof.
  intros H1 H2 row. unfold row, DriftPage.comparisonRow.
  cbn [BaselineComparisonChart.baselinePeriod BaselineComparisonChart.percentageChange].
  clear row.
  pose proof (baseline_range r1 H1) as Hb.
  assert ((((r1 * 100 + 10) * ((1 # 2) + r2) - (r1 * 100 + 10)) / (r1 * 100 + 10)) * 100
          == ((1 # 2) + r2 - 1) * 100) as Hc by (field; lra).
  remember (r1 * 100 + 10) as b eqn:Eb. clear Eb.
  remember ((b * ((1 # 2) + r2) - b) / b * 100) as change eqn:Echange. clear Echange.
  destruct (round2_between 1000 11000 b) as [Hb1 Hb2]; [unfold inject_Z; lra ..|].
  destruct (round2_between (-5000) 5000 change) as [Hp1 Hp2];
    [unfold inject_Z; rewrite Hc; lra ..|].
  unfold inject_Z in Hb1, Hb2, Hp1, Hp2. repeat split; lra.
Qed.

(** With random numbers from 0 up to but not including 1 the generated
    comparison has 15 rows, each with a baseline count between 10 and 110
    and a percentage change between -50 and 50. *)
Theorem generated_comparison_within_fifty (random : nat -> Q) :
  (forall i, 0 <= random i /\ random i < 1) ->
  List.length (DriftPage.generateBaselineComparisonData random) = 15%nat
  /\ Forall (fun row =>
               10 <= BaselineComparisonChart.baselinePeriod row
               /\ BaselineComparisonChart.baselinePeriod row <= 110
               /\ - (50) <= BaselineComparisonChart.percentageChange row
               /\ BaselineComparisonChart.percentageChange row <= 50)
            (DriftPage.generateBaselineComparisonData random).
Proof.
  intros Hrandom. split; [reflexivity|].
  apply Forall_forall. intros row Hrow.
  unfold DriftPage.generateBaselineComparisonData in Hrow.
  apply in_map_iff in Hrow as [[i [service severity]] [<- _]].
  apply comparison_row_bounds; apply Hrandom.
Qed.

(** With every random number one half. *)
Lemma generated_comparison_within_fifty_example :
  List.length (DriftPage.generateBaselineComparisonData always_half) = 15%nat
  /\ Forall (fun row =>
               10 <= BaselineComparisonChart.baselinePeriod row
               /\ BaselineComparisonChart.baselinePeriod row <= 110
               /\ - (50) <= BaselineComparisonChart.percentageChange row
               /\ BaselineComparisonChart.percentageChange row <= 50)
            (DriftPage.generateBaselineComparisonData always_half).
Proof.
  apply (generated_comparison_within_fifty always_half).
  intros i. unfold always_half. split; [discriminate | reflexivity].
Defined.

End GeneratedFacts.

(* ------------------------------------------------------------------ *)
(** * The cards of the dashboard and the service menu *)

Module DashboardFacts.

Import Log RateSpec ServiceSpec MapFacts SortFacts GroupFacts NumberFacts.
Local Open Scope Z_scope.

(** ** Sets in insertion order *)

Section Distinct.

Context {A : Type}.
Variable eqb : A -> A -> bool.
Hypothesis eqb_eq : forall a b, eqb a b = true <-> a = b.

Local Abbreviation add :=
  (fun (seen : list A) (x : A) => if existsb (eqb x) seen then seen else (seen ++ [x])%list).

Lemma existsb_eqb (x : A) (seen : list A) : existsb (eqb x) seen = true <-> In x seen.
Proof.
  rewrite existsb_exists. split.
  - intros [y [Hy E]]. apply eqb_eq in E. now subst.
  - intros H. exists x. split; [exact H | now apply eqb_eq].
Qed.

Lemma fold_add (l seen : list A) :
  (NoDup seen -> NoDup (fold_left add l seen))
  /\ forall x, In x (fold_left add l seen) <-> In x seen \/ In x l.
Proof.
  revert seen. induction l as [|a l IH]; intros seen; cbn [fold_left].
  - split; [auto | intros x; cbn [In]; tauto].
  - destruct (IH (add seen a)) as [Hnd Hin]. split.
    + intros H. apply Hnd. destruct (existsb (eqb a) seen) eqn:E; [exact H|].
      apply NoDup_app; [exact H | repeat constructor; intros [] |].
      intros x Hx [<-|[]]. apply existsb_eqb in Hx. congruence.
    + intros x. rewrite Hin. cbn [In].
      destruct (existsb (eqb a) seen) eqn:E.
      * apply existsb_eqb in E. split; [tauto|]. intros [H|[<-|H]]; auto.
      * rewrite in_app_iff. cbn [In]. tauto.
Qed.

End Distinct.

Lemma option_string_eqb_eq (a b : option string) :
  RadarChart.option_string_eqb a b = true <-> a = b.
Proof.
  destruct a as [x|], b as [y|]; cbn [RadarChart.option_string_eqb];
    try (split; [discriminate | discriminate]); [|tauto].
  rewrite String.eqb_eq. split; [now intros -> | now intros [= ->]].
Qed.

Lemma distinct_spec (l : list (option string)) :
  NoDup (Dashboard.distinct l) /\ forall x, In x (Dashboard.distinct l) <-> In x l.
Proof.
  destruct (fold_add RadarChart.option_string_eqb option_string_eqb_eq l []) as [Hnd Hin].
  split; [apply Hnd; constructor|]. intros x.
  unfold Dashboard.distinct. rewrite Hin. cbn [In]. tauto.
Qed.

Lemma uniqueServices_distinct (logs : list LogEntry) :
  RadarChart.uniqueServices logs = List.length (Dashboard.distinct (map service logs)).
Proof. reflexivity. Qed.

Lemma unnamed_services (s : option string) :
  Dashboard.named s = false -> s = None \/ s = Some EmptyString.
Proof. destruct s as [[|c s]|]; cbn; intros H; auto; discriminate. Qed.

(** The cards of the dashboard for the records of an answer: the total is
    the number of records; the error count is the number of records of level
    ERROR, FATAL or CRITICAL in any case of letters, the very total of the
    error chart of the same records, and at most the total; the service
    count is the number of different services with a name, which is at
    most the total and falls short of the service count of the radar by
    at most 2, for the records without a service and those with an empty
    one; the rate per minute is 0 for a time range that does not go
    forward; and the recent errors are the first error records of the
    sequence, five at most.  Without an answer every card is 0. *)
Theorem dashboard_cards (now rangeStart rangeEnd : Z) (logs : list LogEntry) :
  let s := Dashboard.stats (Some logs) rangeStart rangeEnd in
  Dashboard.totalLogs s = Z.of_nat (List.length logs)
  /\ Dashboard.errorLogs s = count_where is_error logs
  /\ (logs <> [] ->
      ErrorChart.totalErrors (ErrorChart.ErrorChart now logs) = Some (Dashboard.errorLogs s))
  /\ 0 <= Dashboard.errorLogs s <= Dashboard.totalLogs s
  /\ 0 <= Dashboard.services s <= Dashboard.totalLogs s
  /\ Dashboard.services s <= Z.of_nat (RadarChart.uniqueServices logs)
     <= Dashboard.services s + 2
  /\ (rangeEnd <= rangeStart -> Dashboard.avgLogsPerMinute s = 0)
  /\ Dashboard.recentErrors (Some logs) = firstn 5 (filter is_error logs)
  /\ List.length (Dashboard.recentErrors (Some logs))
     = Nat.min 5 (List.length (filter is_error logs))
  /\ Dashboard.stats None rangeStart rangeEnd = Dashboard.mkStats 0 0 0 0
  /\ Dashboard.recentErrors None = [].
Proof.
  intros s. unfold s, Dashboard.stats.
  cbn [Dashboard.totalLogs Dashboard.errorLogs Dashboard.services Dashboard.avgLogsPerMinute].
  set (named_services := filter Dashboard.named (map service logs)).
  destruct (distinct_spec named_services) as [Hnd Hin].
  destruct (distinct_spec (map service logs)) as [Hnd' Hin'].
  pose proof (filter_length_le is_error logs) as Herr.
  assert (List.length (Dashboard.distinct named_services) <= List.length logs)%nat as Hs.
  { transitivity (List.length named_services).
    - apply NoDup_incl_length; [exact Hnd|]. intros x Hx. now apply Hin.
    - unfold named_services. etransitivity; [apply filter_length_le|].
      now rewrite length_map. }
  assert (List.length (Dashboard.distinct named_services)
          <= List.length (Dashboard.distinct (map service logs)))%nat as Hlow.
  { apply NoDup_incl_length; [exact Hnd|]. intros x Hx.
    apply Hin in Hx. apply filter_In in Hx as [Hx _]. now apply Hin'. }
  assert (List.length (Dashboard.distinct (map service logs))
          <= List.length (Dashboard.distinct named_services ++ [None; Some EmptyString]))%nat
    as Hhigh.
  { apply NoDup_incl_length; [exact Hnd'|]. intros x Hx. apply Hin' in Hx.
    apply in_or_app. destruct (Dashboard.named x) eqn:E.
    - left. apply Hin, filter_In. now split.
    - right. apply unnamed_services in E as [-> | ->]; cbn [In]; auto. }
  rewrite length_app in Hhigh. cbn [List.length] in Hhigh.
  rewrite uniqueServices_distinct.
  split; [reflexivity|]. split; [reflexivity|]. split.
  { intros Hne. destruct logs; [contradiction | reflexivity]. }
  split; [lia|]. split; [lia|]. split; [lia|]. split.
  { intros Hle.
    assert (Qle_bool (inject_Z (rangeEnd - rangeStart) / (1000 * 60)) 0 = true) as ->;
      [|reflexivity].
    apply Qle_bool_iff. apply Qle_shift_div_r; [reflexivity|]. rewrite Qmult_0_l.
    change 0%Q with (inject_Z 0). rewrite <- Zle_Qle. lia. }
  split; [reflexivity|]. split; [|split; reflexivity].
  unfold Dashboard.recentErrors, Js.slice0. apply length_firstn.
Qed.


End DashboardFacts.

(* ------------------------------------------------------------------ *)
(** * The series of the stacked area chart *)

Module StackedFacts.

Import Log Chart StackedAreaChart MapFacts SortFacts.
Local Open Scope Z_scope.

Local Abbreviation nonneg := (fun bucket : list (string * Z) =>
                                Forall (fun v => 0 <= v) (JsMap.values bucket)).

Lemma values_set {K V : Type} (eqb : K -> K -> bool) (P : V -> Prop)
    (m : list (K * V)) (k : K) (v : V) :
  Forall P (JsMap.values m) -> P v -> Forall P (JsMap.values (JsMap.set eqb m k v)).
Proof.
  intros Hm Hv. induction m as [|[k' v'] m IH]; cbn [JsMap.set JsMap.values map snd].
  - now constructor.
  - cbn [JsMap.values map snd] in Hm. inversion Hm as [|? ? Hv' Hm']; subst.
    destruct (eqb k' k); cbn [JsMap.values map snd]; constructor; auto.
Qed.

Lemma values_get {K V : Type} (eqb : K -> K -> bool) (P : V -> Prop)
    (m : list (K * V)) (k : K) (v : V) :
  Forall P (JsMap.values m) -> JsMap.get eqb m k = Some v -> P v.
Proof.
  intros Hm. induction m as [|[k' v'] m IH]; cbn [JsMap.get]; [discriminate|].
  cbn [JsMap.values map snd] in Hm. inversion Hm as [|? ? Hv' Hm']; subst.
  destruct (eqb k' k); [intros [= <-]; exact Hv' | now apply IH].
Qed.

Lemma count_nonneg (bucket : list (string * Z)) (key : string) :
  nonneg bucket -> 0 <= JsMap.or0 (JsMap.get String.eqb bucket key).
Proof.
  intros H. destruct (JsMap.get String.eqb bucket key) as [v|] eqn:E; cbn [JsMap.or0]; [|lia].
  apply (values_get String.eqb _ bucket key v H E).
Qed.

Lemma for_time_keeps {S : Type} (I : S -> Prop) (fuel : nat) (width time to : Z)
    (body : Z -> S -> S) (s : S) :
  (forall t s, I s -> I (body t s)) -> I s -> I (for_time fuel width time to body s).
Proof.
  intros Hbody. revert time s. induction fuel as [|fuel IH]; intros time s Hs; cbn [for_time];
    [exact Hs|].
  destruct (time <=? to); [|exact Hs]. apply IH, Hbody, Hs.
Qed.

Lemma fill_step_nonneg (groupBy : GroupBy) (buckets : list (Z * list (string * Z)))
    (log : LogEntry) :
  Forall nonneg (JsMap.values buckets) ->
  Forall nonneg (JsMap.values (fill_step groupBy buckets log)).
Proof.
  intros H. unfold fill_step.
  set (bucketTime := Js.floor_to bucketSize (_time log)).
  set (groupKey := or_default (field_of groupBy log) "unknown").
  set (created := if negb (JsMap.has Z.eqb buckets bucketTime)
                  then JsMap.set Z.eqb buckets bucketTime [] else buckets).
  assert (Forall nonneg (JsMap.values created)) as Hc.
  { unfold created. destruct (negb (JsMap.has Z.eqb buckets bucketTime)); [|exact H].
    apply values_set; [exact H | constructor]. }
  assert (nonneg (match JsMap.get Z.eqb created bucketTime with Some b => b | None => [] end))
    as Hb.
  { destruct (JsMap.get Z.eqb created bucketTime) as [b|] eqn:E; [|constructor].
    apply (values_get Z.eqb _ created bucketTime b Hc E). }
  apply values_set; [exact Hc|]. apply values_set; [exact Hb|].
  pose proof (count_nonneg _ groupKey Hb). lia.
Qed.

Lemma buckets_nonneg (groupBy : GroupBy) (logs : list LogEntry) :
  Forall nonneg (JsMap.values (buckets_of groupBy logs)).
Proof.
  unfold buckets_of. destruct (map _time logs) as [|t times]; [constructor|].
  set (init := init_buckets _ _).
  assert (Forall nonneg (JsMap.values init)) as Hinit.
  { unfold init, init_buckets. apply for_time_keeps; [|constructor].
    intros time s Hs. apply values_set; [exact Hs | constructor]. }
  clearbody init. revert init Hinit.
  induction logs as [|log logs IH]; intros init Hinit; cbn [fold_left]; [exact Hinit|].
  apply IH, fill_step_nonneg, Hinit.
Qed.

(** A column of the stack: running totals, so never descending. *)
Lemma stack_column_ascending (bucket : list (string * Z)) (groupKeys : list string)
    (stackBase : Z) :
  nonneg bucket ->
  List.length (stack_column bucket groupKeys stackBase) = List.length groupKeys
  /\ Forall (fun v => stackBase <= v) (stack_column bucket groupKeys stackBase)
  /\ StronglySorted Z.le (stack_column bucket groupKeys stackBase).
Proof.
  intros Hb. revert stackBase.
  induction groupKeys as [|key keys IH]; intros stackBase; cbn [stack_column List.length].
  - repeat split; constructor.
  - pose proof (count_nonneg bucket key Hb) as Hk.
    destruct (IH (stackBase + JsMap.or0 (JsMap.get String.eqb bucket key))) as (Hl & Hf & Hs).
    split; [now rewrite Hl|]. split.
    + constructor; [lia|]. eapply Forall_impl; [|exact Hf]. cbn beta. intros v Hv. lia.
    + constructor; [exact Hs | exact Hf].
Qed.

Lemma nth_of_map {A : Type} (f : A -> Z) (l : list A) (d : A) (i : nat) :
  (i < List.length l)%nat -> nth i (map f l) 0 = f (nth i l d).
Proof.
  revert i. induction l as [|a l IH]; intros i Hi; [cbn in Hi; lia|].
  destruct i as [|i]; [reflexivity|]. cbn [map nth]. apply IH. cbn [List.length] in Hi. lia.
Qed.

Lemma map_nth_all (l : list Z) (start : nat) (prefix : list Z) :
  List.length prefix = start ->
  map (fun i => nth i (prefix ++ l) 0) (seq start (List.length l)) = l.
Proof.
  revert start prefix. induction l as [|a l IH]; intros start prefix Hp; [reflexivity|].
  cbn [List.length seq map]. f_equal.
  - rewrite app_nth2 by lia. rewrite Hp, Nat.sub_diag. reflexivity.
  - replace (prefix ++ a :: l)%list with ((prefix ++ [a]) ++ l)%list
      by (now rewrite <- app_assoc).
    apply IH. rewrite length_app. cbn [List.length]. lia.
Qed.

Lemma groupKeys_at_most_five (groupBy : GroupBy) (logs : list LogEntry) :
  (List.length (groupKeys_of groupBy logs) <= 5)%nat.
Proof.
  unfold groupKeys_of.
  match goal with
  | |- context [(5 <? ?n)%nat] => destruct (5 <? n)%nat eqn:E
  end.
  - rewrite length_map. unfold Js.slice0. apply firstn_le_length.
  - apply Nat.ltb_ge in E. exact E.
Qed.


End StackedFacts.

(* ------------------------------------------------------------------ *)
(** * The arcs of the pie and the donut tile the circle *)

Module ArcFacts.

Import Log Chart PieArcs ArcSpec TopSpec MapFacts SortFacts PieFacts.
Local Open Scope Q_scope.

Lemma tiled_to (from to to' : Q) (l : list Arc) :
  to == to' -> tiled from l to -> tiled from l to'.
Proof.
  intros E. revert from. induction l as [|a l IH]; intros from; cbn [tiled].
  - intros H. now rewrite <- E.
  - intros (H1 & H2 & H3). split; [exact H1|]. split; [exact H2 | now apply IH].
Qed.

Lemma tiled_from (from from' to : Q) (l : list Arc) :
  from == from' -> tiled from l to -> tiled from' l to.
Proof.
  intros E. destruct l as [|a l]; cbn [tiled].
  - intros H. now rewrite <- E.
  - intros (H1 & H2 & H3). split; [now rewrite <- E|]. now split.
Qed.

Section Arcs.

Variable data : list Z.
Hypothesis positive : forall v, In v data -> (0 < v)%Z.
Hypothesis some : data <> [].

Lemma total_positive : 0 < inject_Z (total data).
Proof.
  change 0 with (inject_Z 0). rewrite <- Zlt_Qlt. unfold total.
  destruct data as [|v rest]; [contradiction|]. rewrite sum_cons.
  assert (0 < v)%Z by (apply positive; now left).
  assert (0 <= Js.sum rest)%Z
    by (apply sum_nonneg; intros y Hy; apply Z.lt_le_incl, positive; now right).
  lia.
Qed.

Local Abbreviation angle :=
  (fun upto : list Z => inject_Z (Js.sum upto) / inject_Z (total data) * 100 / 100 * 360).

Lemma arcs_from (before rest : list Z) :
  data = (before ++ rest)%list ->
  tiled (angle before)
        (map (fun indexed => arc data (fst indexed) (snd indexed))
             (combine (seq (List.length before) (List.length rest)) rest))
        (angle data).
Proof.
  pose proof total_positive as Ht.
  revert before. induction rest as [|v rest IH]; intros before E.
  - cbn [List.length seq combine map tiled]. rewrite app_nil_r in E. rewrite <- E.
    reflexivity.
  - cbn [List.length seq combine map tiled fst snd].
    assert (Js.slice0 (List.length before) data = before) as Eslice.
    { unfold Js.slice0. rewrite E, firstn_app, Nat.sub_diag, firstn_all. cbn [firstn].
      apply app_nil_r. }
    assert (0 < inject_Z v) as Hv.
    { change 0 with (inject_Z 0). rewrite <- Zlt_Qlt. apply positive.
      rewrite E. apply in_or_app. right. now left. }
    assert (endAngle (arc data (List.length before) v) == angle (before ++ [v])%list) as Eend.
    { unfold arc. cbn [endAngle]. rewrite Eslice, sum_app, sum_cons, sum_nil, Z.add_0_r.
      rewrite inject_Z_plus. field. lra. }
    split; [|split].
    + unfold arc. cbn [startAngle]. rewrite Eslice. reflexivity.
    + unfold arc. cbn [startAngle endAngle]. rewrite Eslice.
      set (before_share := inject_Z (Js.sum before) / inject_Z (total data) * 100).
      assert (0 < inject_Z v / inject_Z (total data)) as Hshare
        by (apply Qlt_shift_div_l; [exact Ht | now rewrite Qmult_0_l]).
      set (share := inject_Z v / inject_Z (total data)) in *.
      unfold Qdiv. change (/ 100) with (1 # 100). lra.
    + specialize (IH (before ++ [v])%list).
      rewrite length_app, Nat.add_comm in IH. cbn [List.length Nat.add] in IH.
      assert (data = ((before ++ [v]) ++ rest)%list) as E' by (now rewrite <- app_assoc).
      specialize (IH E').
      apply (tiled_from _ _ _ _ (Qeq_sym _ _ Eend)), IH.
Qed.

Lemma arcs_tiled : tiled 0 (arcs data) 360.
Proof.
  pose proof total_positive as Ht.
  pose proof (arcs_from [] data eq_refl) as H. cbn [List.length] in H.
  assert (angle [] == 0) as E0 by (rewrite sum_nil; field; lra).
  assert (angle data == 360) as E1 by (unfold total; field; unfold total in Ht; lra).
  unfold arcs. apply (tiled_from _ _ _ _ E0), (tiled_to _ _ _ _ E1), H.
Qed.

Lemma arcs_percentages :
  Forall (fun a => 0 < percentage a /\ percentage a <= 100
                   /\ (largeArcFlag a = 1%Z <-> 50 < percentage a)
                   /\ (largeArcFlag a = 0%Z <-> percentage a <= 50)) (arcs data).
Proof.
  pose proof total_positive as Ht.
  apply Forall_forall. intros a Ha. unfold arcs in Ha.
  apply in_map_iff in Ha as [[i v] [<- Hin]]. apply in_combine_r in Hin.
  cbn [fst snd]. unfold arc. cbn [percentage largeArcFlag].
  assert (0 < inject_Z v) as Hv
    by (change 0 with (inject_Z 0); rewrite <- Zlt_Qlt; now apply positive).
  assert (inject_Z v <= inject_Z (total data)) as Hle.
  { rewrite <- Zle_Qle. unfold total. apply HistogramFacts.in_le_sum; [|exact Hin].
    intros y Hy. apply Z.lt_le_incl. now apply positive. }
  assert (0 < inject_Z v / inject_Z (total data)) as H0
    by (apply Qlt_shift_div_l; [exact Ht | now rewrite Qmult_0_l]).
  assert (inject_Z v / inject_Z (total data) <= 1) as H1
    by (apply Qle_shift_div_r; [exact Ht | now rewrite Qmult_1_l]).
  set (share := inject_Z v / inject_Z (total data)) in *.
  split; [lra|]. split; [lra|].
  destruct (Qle_bool (share * 100) 50) eqn:E; cbn [negb].
  - apply Qle_bool_iff in E. split; split; intros H; try reflexivity; try discriminate; lra.
  - assert (50 < share * 100) as Hgt.
    { apply Qnot_le_lt. intros H. apply Qle_bool_iff in H. congruence. }
    split; split; intros H; try reflexivity; try discriminate; lra.
Qed.

End Arcs.

(** For one or more records the arcs of the pie chart tile the circle:
    the first starts at 0 degrees, each starts where the one before it
    ends, none is empty and the last ends at 360 degrees; each covers more
    than 0 and at most 100 percent, and is drawn as a large arc exactly
    when it covers more than 50 percent; there is one arc per slice.  The
    total under the title is the sum of the slices shown, which is
    positive and at most the number of records.  The same holds of the
    donut chart. *)
Theorem pie_arcs_tile_the_circle (groupBy : GroupBy) (log : LogEntry) (logs : list LogEntry) :
  let all := log :: logs in
  let full := fun data : list Z =>
    tiled 0 (arcs data) 360
    /\ List.length (arcs data) = List.length data
    /\ Forall (fun a => 0 < percentage a /\ percentage a <= 100
                        /\ (largeArcFlag a = 1%Z <-> 50 < percentage a)
                        /\ (largeArcFlag a = 0%Z <-> percentage a <= 50)) (arcs data)
    /\ (0 < total data <= Z.of_nat (List.length all))%Z in
  full (PieChart.data (PieChart.PieChart groupBy all))
  /\ full (PieChart.data (PieChart.DonutChart groupBy all)).
Proof.
  intros all full.
  assert (forall top, (0 < top)%nat ->
            full (PieChart.data (PieChart.top_groups top groupBy all))) as H.
  { intros top Htop.
    destruct (top_groups_slices top groupBy all) as (Hlen & Hdata & _ & Hslices & _).
    set (pie := PieChart.top_groups top groupBy all) in *.
    assert (forall v, In v (PieChart.data pie) -> (0 < v)%Z) as Hpos.
    { intros v Hv.
      assert (exists label, In (label, v) (slices pie)) as [label Hl].
      { unfold slices. revert Hv Hdata. generalize (PieChart.labels pie).
        induction (PieChart.data pie) as [|d ds IH]; intros labels Hv Hd; [destruct Hv|].
        destruct labels as [|l labels]; [discriminate Hd|].
        destruct Hv as [<-|Hv].
        - exists l. now left.
        - destruct (IH labels Hv) as [label Hlabel]; [cbn in Hd; lia|].
          exists label. now right. }
      apply (Hslices label v Hl). }
    assert (PieChart.data pie <> []) as Hne.
    { intros E. rewrite E in Hdata. cbn [List.length] in Hdata.
      rewrite <- Hdata in Hlen.
      assert (PieChart.counts groupBy all <> []) as Hc.
      { intros Ec. pose proof (GroupFacts.count_by_total groupBy "unknown" all) as Ht.
        unfold PieChart.counts in Ec. rewrite Ec in Ht. cbn in Ht. lia. }
      destruct (PieChart.counts groupBy all); [contradiction|].
      cbn [List.length] in Hlen. lia. }
    unfold full. split; [now apply arcs_tiled|]. split.
    - unfold arcs. rewrite length_map, length_combine, length_seq. lia.
    - split; [now apply arcs_percentages|].
      pose proof (total_positive _ Hpos Hne) as Ht.
      change 0 with (inject_Z 0) in Ht. rewrite <- Zlt_Qlt in Ht.
      split; [exact Ht|]. apply (top_groups_total top groupBy all). }
  split; apply H; lia.
Qed.

End ArcFacts.

